(** * Protocol Buffers runtime: the generated scalar coders and the text codec

    This development embeds the coder template of the Go protobuf runtime
    ([implCodecTemplate], instantiated once per scalar kind into
    [internal/impl]) and checks the wire-level properties the specification
    states about it.  The packages the template calls into ([wire]), the table
    it is instantiated from ([ProtoKinds]) and the text codec ([prototext]) are
    not part of the sources at hand; they are modelled from the specification
    and every such definition says so in its documentation. *)

From Stdlib Require Import ZArith Lia List Bool Strings.Byte Ascii String DecimalString.
From stdpp Require Import base decidable option list numbers strings gmap.
Import ListNotations.

Local Open Scope Z_scope.

Set Warnings "-register-all".

(** ** Byte buffers *)

(** A Go [[]byte] is a list of bytes; [b[n:]] is [drop n b]. *)
Abbreviation bytes := (list byte).

Definition Z_of_byte (y : byte) : Z := Z.of_N (Byte.to_N y).

(** The conversion [byte(v)] of an unsigned integer keeps its low 8 bits. *)
Definition byte_of_Z (v : Z) : byte :=
  match Byte.of_N (Z.to_N (v mod 256)) with
  | Some y => y
  | None => x00
  end.

(** ** Fixed-width integers

    Go's sized integers are integers of [Z] together with the wrap-around of
    every conversion written out. *)

Definition uint32 (v : Z) : Z := v mod 2 ^ 32.
Definition uint64 (v : Z) : Z := v mod 2 ^ 64.
Definition int32 (v : Z) : Z := (v + 2 ^ 31) mod 2 ^ 32 - 2 ^ 31.
Definition int64 (v : Z) : Z := (v + 2 ^ 63) mod 2 ^ 64 - 2 ^ 63.

(** ** Package [wire] *)

Module wire.

(** Modelled from the spec: the wire type of a tag, a 3-bit number.  The
    package [internal/encoding/wire] is absent; the numbers are those of the
    Protocol Buffers wire format the specification refers to (scenario 1 of
    its section 8 shows [0x08] for field 1 as a varint and [0x12] for field 2
    as bytes). *)
Definition VarintType : Z := 0.
Definition Fixed64Type : Z := 1.
Definition BytesType : Z := 2.
Definition StartGroupType : Z := 3.
Definition EndGroupType : Z := 4.
Definition Fixed32Type : Z := 5.

(** Modelled from the spec: the kinds of parse error a consume function
    reports through a negative length (section 4.1: truncated, overflow,
    malformed). *)
Inductive ParseError : Set :=
  | errCodeTruncated
  | errCodeOverflow
  | errCodeMalformed.

(** The pair [(v, n)] a consume function returns: [Parsed v n] when [n >= 0]
    bytes were read, [Failed c] when [n] is the negative code [c]. *)
Inductive Consumed (V : Type) : Type :=
  | Parsed (v : V) (n : nat)
  | Failed (c : ParseError).
Arguments Parsed {V} v n.
Arguments Failed {V} c.

(** Modelled from the spec: [AppendVarint].  Section 4.1: a varint encodes up
    to 64 bits, 7 bits per byte, least significant group first, the top bit
    of a byte set when another byte follows; at most 10 bytes. *)
Fixpoint appendVarintN (k : nat) (v : Z) : bytes :=
  match k with
  | O => [byte_of_Z v]
  | S k' =>
      if v <? 128 then [byte_of_Z v]
      else byte_of_Z (v mod 128 + 128) :: appendVarintN k' (v / 128)
  end.

Definition AppendVarint (b : bytes) (v : Z) : bytes := b ++ appendVarintN 9 v.

(** Modelled from the spec: [SizeVarint], the number of bytes [AppendVarint]
    writes (section 4.1, contract of [size_T]). *)
Definition SizeVarint (v : Z) : Z := Z.of_nat (length (appendVarintN 9 v)).

(** Modelled from the spec: [ConsumeVarint].  [k] counts the bytes that may
    still follow the current one.  A buffer that ends inside the varint is
    truncated; a tenth byte that announces an eleventh, or that carries more
    than the one bit left of 64, is an overflow. *)
Fixpoint consumeVarintN (k : nat) (b : bytes) : Consumed Z :=
  match b with
  | [] => Failed errCodeTruncated
  | y :: b' =>
      let y := Z_of_byte y in
      if y <? 128 then
        if Nat.eqb k 0 && (1 <? y) then Failed errCodeOverflow else Parsed y 1
      else
        match k with
        | O => Failed errCodeOverflow
        | S k' =>
            match consumeVarintN k' b' with
            | Parsed v n => Parsed (y - 128 + 128 * v) (S n)
            | Failed c => Failed c
            end
        end
  end.

Definition ConsumeVarint (b : bytes) : Consumed Z := consumeVarintN 9 b.

(** Modelled from the spec: little-endian fixed-width integers (section 4.1),
    [w] bytes wide. *)
Fixpoint appendLE (w : nat) (v : Z) : bytes :=
  match w with
  | O => []
  | S w' => byte_of_Z v :: appendLE w' (v / 256)
  end.

Fixpoint readLE (b : bytes) : Z :=
  match b with
  | [] => 0
  | y :: b' => Z_of_byte y + 256 * readLE b'
  end.

Definition consumeLE (w : nat) (b : bytes) : Consumed Z :=
  if (length b <? w)%nat then Failed errCodeTruncated
  else Parsed (readLE (take w b)) w.

Definition AppendFixed32 (b : bytes) (v : Z) : bytes := b ++ appendLE 4 v.
Definition ConsumeFixed32 (b : bytes) : Consumed Z := consumeLE 4 b.
Definition SizeFixed32 : Z := 4.

Definition AppendFixed64 (b : bytes) (v : Z) : bytes := b ++ appendLE 8 v.
Definition ConsumeFixed64 (b : bytes) : Consumed Z := consumeLE 8 b.
Definition SizeFixed64 : Z := 8.

(** Modelled from the spec: length-delimited payloads (section 4.1): a varint
    length, then that many bytes; a length beyond the rest of the buffer is a
    truncation. *)
Definition AppendBytes (b : bytes) (v : bytes) : bytes :=
  AppendVarint b (Z.of_nat (length v)) ++ v.

Definition ConsumeBytes (b : bytes) : Consumed bytes :=
  match ConsumeVarint b with
  | Failed c => Failed c
  | Parsed m n =>
      if Z.of_nat (length (drop n b)) <? m then Failed errCodeTruncated
      else Parsed (take (Z.to_nat m) (drop n b)) (n + Z.to_nat m)
  end.

Definition SizeBytes (n : Z) : Z := SizeVarint n + n.

(** Strings travel as their bytes. *)
Definition AppendString (b : bytes) (v : bytes) : bytes := AppendBytes b v.
Definition ConsumeString (b : bytes) : Consumed bytes := ConsumeBytes b.

(** Modelled from the spec: booleans are the varints 0 and 1. *)
Definition EncodeBool (x : bool) : Z := if x then 1 else 0.
Definition DecodeBool (x : Z) : bool := negb (x =? 0).

(** Modelled from the spec: zig-zag, [(v << 1) ^ (v >> 63)] on a signed
    64-bit [v], read as unsigned (section 4.1), and its inverse. *)
Definition EncodeZigZag (v : Z) : Z :=
  uint64 (Z.lxor (Z.shiftl v 1) (Z.shiftr v 63)).
Definition DecodeZigZag (x : Z) : Z :=
  int64 (Z.lxor (Z.shiftr x 1) (- (Z.land x 1))).

(** Modelled from the spec: the tag of a record, [(field_number << 3) |
    wire_type] (section 4.1). *)
Definition EncodeTag (num : Z) (typ : Z) : Z := Z.lor (Z.shiftl num 3) (Z.land typ 7).
Definition DecodeTag (x : Z) : Z * Z := (Z.shiftr x 3, Z.land x 7).

Definition AppendTag (b : bytes) (num : Z) (typ : Z) : bytes :=
  AppendVarint b (EncodeTag num typ).

(** Modelled from the spec: field numbers lie in [[1, 2^29 - 1]] (section 3);
    a tag outside of it is unrecognizable. *)
Definition MinValidNumber : Z := 1.
Definition MaxValidNumber : Z := 2 ^ 29 - 1.

Definition ConsumeTag (b : bytes) : Consumed (Z * Z) :=
  match ConsumeVarint b with
  | Failed c => Failed c
  | Parsed x n =>
      let '(num, typ) := DecodeTag x in
      if (num <? MinValidNumber) || (MaxValidNumber <? num)
      then Failed errCodeMalformed
      else Parsed (num, typ) n
  end.

(** Modelled from the spec: the length of the payload of a record of wire
    type [typ], as needed to set aside a record of an unknown field "with
    nested group brackets for start-group" (section 4.4).  A group runs up to
    the end-group tag of its own number; [fuel] bounds the number of tags
    read, each of at least one byte. *)
Fixpoint consumeGroupN (fuel : nat) (num : Z) (b : bytes) : Consumed unit :=
  match fuel with
  | O => Failed errCodeTruncated
  | S fuel' =>
      match ConsumeTag b with
      | Failed c => Failed c
      | Parsed (num2, typ2) n =>
          let b2 := drop n b in
          if typ2 =? EndGroupType then
            if num2 =? num then Parsed tt n else Failed errCodeMalformed
          else
            let inner :=
              if typ2 =? VarintType then
                match ConsumeVarint b2 with
                | Parsed _ m => Parsed tt m
                | Failed c => Failed c
                end
              else if typ2 =? Fixed32Type then
                match ConsumeFixed32 b2 with
                | Parsed _ m => Parsed tt m
                | Failed c => Failed c
                end
              else if typ2 =? Fixed64Type then
                match ConsumeFixed64 b2 with
                | Parsed _ m => Parsed tt m
                | Failed c => Failed c
                end
              else if typ2 =? BytesType then
                match ConsumeBytes b2 with
                | Parsed _ m => Parsed tt m
                | Failed c => Failed c
                end
              else if typ2 =? StartGroupType then consumeGroupN fuel' num2 b2
              else Failed errCodeMalformed in
            match inner with
            | Failed c => Failed c
            | Parsed _ m =>
                match consumeGroupN fuel' num (drop m b2) with
                | Failed c => Failed c
                | Parsed _ r => Parsed tt (n + m + r)
                end
            end
      end
  end.

Definition ConsumeFieldValue (num : Z) (typ : Z) (b : bytes) : Consumed unit :=
  if typ =? VarintType then
    match ConsumeVarint b with
    | Parsed _ m => Parsed tt m
    | Failed c => Failed c
    end
  else if typ =? Fixed32Type then
    match ConsumeFixed32 b with
    | Parsed _ m => Parsed tt m
    | Failed c => Failed c
    end
  else if typ =? Fixed64Type then
    match ConsumeFixed64 b with
    | Parsed _ m => Parsed tt m
    | Failed c => Failed c
    end
  else if typ =? BytesType then
    match ConsumeBytes b with
    | Parsed _ m => Parsed tt m
    | Failed c => Failed c
    end
  else if typ =? StartGroupType then consumeGroupN (length b) num b
  else Failed errCodeMalformed.

End wire.

(** ** The scalar coders of package [impl]

    [implCodecTemplate] is executed once for every entry of [ProtoKinds] that
    has a Go type.  Here the entry is the parameter [k] of every function, so
    that [consume Int32Kind] stands for [consumeInt32], [appendSlice
    BoolKind] for [appendBoolSlice], and so on. *)

Module impl.

(** Modelled from the spec: the entries of [ProtoKinds] that have a Go type
    (the generator's table is absent; section 3 lists the kinds, and the
    template skips the entries without [FromGoType]: enum, message, group). *)
Inductive ProtoKind : Set :=
  | BoolKind | Int32Kind | Sint32Kind | Uint32Kind | Int64Kind | Sint64Kind
  | Uint64Kind | Sfixed32Kind | Fixed32Kind | FloatKind | Sfixed64Kind
  | Fixed64Kind | DoubleKind | StringKind | BytesKind.

(** The generator's [WireType] of an entry, with its methods [Expr],
    [Packable] and [ConstSize]. *)
Inductive WireType : Set := WireVarint | WireFixed32 | WireFixed64 | WireBytes.

Definition Expr (w : WireType) : Z :=
  match w with
  | WireVarint => wire.VarintType
  | WireFixed32 => wire.Fixed32Type
  | WireFixed64 => wire.Fixed64Type
  | WireBytes => wire.BytesType
  end.

(** Modelled from the spec: packable are the varint and fixed-width kinds
    (section 3, cardinality [repeated]); the template generates the
    [PackedSlice] coders for exactly these three wire types. *)
Definition Packable (w : WireType) : bool :=
  match w with
  | WireVarint | WireFixed32 | WireFixed64 => true
  | WireBytes => false
  end.

Definition ConstSize (w : WireType) : bool :=
  match w with
  | WireFixed32 | WireFixed64 => true
  | WireVarint | WireBytes => false
  end.

(** Modelled from the spec: the wire type of each kind (section 3). *)
Definition WireTypeOf (k : ProtoKind) : WireType :=
  match k with
  | BoolKind | Int32Kind | Sint32Kind | Uint32Kind
  | Int64Kind | Sint64Kind | Uint64Kind => WireVarint
  | Sfixed32Kind | Fixed32Kind | FloatKind => WireFixed32
  | Sfixed64Kind | Fixed64Kind | DoubleKind => WireFixed64
  | StringKind | BytesKind => WireBytes
  end.

(** The last lines of the template: [wireTypes], restricted to these kinds. *)
Definition wireTypes (k : ProtoKind) : Z := Expr (WireTypeOf k).

(** The Go type of a kind.  Sized integers are integers of [Z]; a [float32]
    or [float64] is its IEEE-754 bit pattern, so that [math.Float32bits] and
    [math.Float32frombits] are the identity; a [string] and a [[]byte] are
    their bytes. *)
Definition GoType (k : ProtoKind) : Type :=
  match k with
  | BoolKind => bool
  | StringKind | BytesKind => bytes
  | _ => Z
  end.

(** What [wire.Consume<WireType>] yields and [wire.Append<WireType>] takes. *)
Definition WireValue (w : WireType) : Type :=
  match w with
  | WireBytes => bytes
  | _ => Z
  end.

(** Modelled from the spec: the zero value of the Go type of a kind
    ([GoType.Zero] of the generator): [false], [0], the empty string; for a
    float the bit pattern of [+0.0]. *)
Definition Zero (k : ProtoKind) : GoType k :=
  match k return GoType k with
  | BoolKind => false
  | StringKind | BytesKind => []
  | _ => 0
  end.

(** The values that inhabit the Go type of a kind: the integers of its
    range, and byte sequences of a length that fits [int]. *)
Definition inRange (k : ProtoKind) : GoType k -> bool :=
  match k return GoType k -> bool with
  | BoolKind => fun _ => true
  | StringKind | BytesKind => fun v => Z.of_nat (length v) <? 2 ^ 63
  | Int32Kind | Sint32Kind | Sfixed32Kind =>
      fun v => (- 2 ^ 31 <=? v) && (v <? 2 ^ 31)
  | Uint32Kind | Fixed32Kind | FloatKind =>
      fun v => (0 <=? v) && (v <? 2 ^ 32)
  | Int64Kind | Sint64Kind | Sfixed64Kind =>
      fun v => (- 2 ^ 63 <=? v) && (v <? 2 ^ 63)
  | Uint64Kind | Fixed64Kind | DoubleKind =>
      fun v => (0 <=? v) && (v <? 2 ^ 64)
  end.

(** Modelled from the spec: [FromGoType], the conversion of a Go value to
    the operand of the wire primitive (absent with [ProtoKinds]). *)
Definition FromGoType (k : ProtoKind) : GoType k -> WireValue (WireTypeOf k) :=
  match k return GoType k -> WireValue (WireTypeOf k) with
  | BoolKind => wire.EncodeBool
  | Int32Kind => uint64
  | Sint32Kind => fun v => wire.EncodeZigZag (int64 v)
  | Uint32Kind => uint64
  | Int64Kind => uint64
  | Sint64Kind => wire.EncodeZigZag
  | Uint64Kind => fun v => v
  | Sfixed32Kind => uint32
  | Fixed32Kind => fun v => v
  | FloatKind => fun v => v
  | Sfixed64Kind => uint64
  | Fixed64Kind => fun v => v
  | DoubleKind => fun v => v
  | StringKind => fun v => v
  | BytesKind => fun v => v
  end.

(** Modelled from the spec: [ToGoType], the conversion back. *)
Definition ToGoType (k : ProtoKind) : WireValue (WireTypeOf k) -> GoType k :=
  match k return WireValue (WireTypeOf k) -> GoType k with
  | BoolKind => wire.DecodeBool
  | Int32Kind => int32
  | Sint32Kind => fun v => int32 (wire.DecodeZigZag (Z.land v (2 ^ 32 - 1)))
  | Uint32Kind => uint32
  | Int64Kind => int64
  | Sint64Kind => wire.DecodeZigZag
  | Uint64Kind => fun v => v
  | Sfixed32Kind => int32
  | Fixed32Kind => fun v => v
  | FloatKind => fun v => v
  | Sfixed64Kind => int64
  | Fixed64Kind => fun v => v
  | DoubleKind => fun v => v
  | StringKind => fun v => v
  | BytesKind => fun v => v
  end.

(** [v == 0] on a float holds for both zeros and for nothing else: every bit
    but the sign is clear.  [math.Signbit] is the top bit. *)
Definition float_eq_zero (w : Z) (v : Z) : bool := Z.land v (2 ^ (w - 1) - 1) =? 0.
Definition Signbit (w : Z) (v : Z) : bool := Z.testbit v (w - 1).

(** Template [IsZero]: an expression testing if [v] is the zero value. *)
Definition IsZero (k : ProtoKind) : GoType k -> bool :=
  match k return GoType k -> bool with
  | StringKind | BytesKind => fun v => Nat.eqb (length v) 0
  | DoubleKind => fun v => float_eq_zero 64 v && negb (Signbit 64 v)
  | FloatKind => fun v => float_eq_zero 32 v && negb (Signbit 32 v)
  | BoolKind => fun v => Bool.eqb v false
  | _ => fun v => v =? 0
  end.

(** Template [Size]: an expression computing the size of [v]. *)
Definition Size (k : ProtoKind) (v : GoType k) : Z :=
  match WireTypeOf k as w return WireValue w -> Z with
  | WireFixed32 => fun _ => wire.SizeFixed32
  | WireFixed64 => fun _ => wire.SizeFixed64
  | WireBytes => fun x => wire.SizeBytes (Z.of_nat (length x))
  | WireVarint => fun x => wire.SizeVarint x
  end (FromGoType k v).

(** Template [Append]: statements appending [v] to [b]. *)
Definition Append (k : ProtoKind) (b : bytes) (v : GoType k) : bytes :=
  match k return GoType k -> bytes with
  | StringKind => fun v => wire.AppendString b (FromGoType StringKind v)
  | k' => fun v =>
      match WireTypeOf k' as w return WireValue w -> bytes with
      | WireVarint => wire.AppendVarint b
      | WireFixed32 => wire.AppendFixed32 b
      | WireFixed64 => wire.AppendFixed64 b
      | WireBytes => wire.AppendBytes b
      end (FromGoType k' v)
  end v.

(** Template [Consume]. *)
Definition Consume (k : ProtoKind) (b : bytes) : wire.Consumed (WireValue (WireTypeOf k)) :=
  match k return wire.Consumed (WireValue (WireTypeOf k)) with
  | StringKind => wire.ConsumeString b
  | k' =>
      match WireTypeOf k' as w return wire.Consumed (WireValue w) with
      | WireVarint => wire.ConsumeVarint b
      | WireFixed32 => wire.ConsumeFixed32 b
      | WireFixed64 => wire.ConsumeFixed64 b
      | WireBytes => wire.ConsumeBytes b
      end
  end.

(** The [error] an unmarshal function returns: [errUnknown], the indication
    that the record is not for this coder, or [wire.ParseError(n)]. *)
Inductive error : Set :=
  | errUnknown
  | ParseError (c : wire.ParseError).

(** What an unmarshal function leaves behind: on success the value now stored
    behind the pointer and the count [n] of bytes read; on failure [(0, err)],
    the pointed-to value being as before. *)
Inductive Unmarshaled (P : Type) : Type :=
  | Stored (p : P) (n : nat)
  | Failure (e : error).
Arguments Stored {P} p n.
Arguments Failure {P} e.

(** What a function that may dereference a [nil] pointer does: it returns,
    or it panics. *)
Inductive Panicking (A : Type) : Type :=
  | Returns (a : A)
  | Panics.
Arguments Returns {A} a.
Arguments Panics {A}.

(** Memory, where a function tells a pointer from what it points to: the
    cells of type [T] that [new(T)] has allocated, by address.  A field of
    type [*T] holds an address, or nothing when it is [nil]. *)
Abbreviation cells k := (gmap positive (GoType k)).

(** What a field of pointer type points to. *)
Definition pointee {k : ProtoKind} (h : cells k) (vp : option positive)
  : option (GoType k) :=
  match vp with
  | Some a => h !! a
  | None => None
  end.

(** [pointerCoderFuncs]: the three operations bound to a field.  [P] is the
    type of what the pointer addresses.  (The options arguments, which no
    function of the template reads, are left out, and so is the [error] of
    the append functions, which is always [nil].) *)
Record pointerCoderFuncs (P : Type) : Type := {
  size : P -> Z -> Z;
  marshal : bytes -> P -> Z -> bytes;
  unmarshal : bytes -> P -> Z -> Unmarshaled P
}.
Arguments size {P} _ _ _.
Arguments marshal {P} _ _ _ _.
Arguments unmarshal {P} _ _ _ _.

(** [ifaceCoderFuncs]: the same for a value held in an [interface{}]. *)
Record ifaceCoderFuncs (P : Type) : Type := {
  isize : P -> Z -> Z;
  imarshal : bytes -> P -> Z -> bytes;
  iunmarshal : bytes -> P -> Z -> Unmarshaled P
}.
Arguments isize {P} _ _ _.
Arguments imarshal {P} _ _ _ _.
Arguments iunmarshal {P} _ _ _ _.

Section Template.

Variable k : ProtoKind.

(** [size{{.Name}}] returns the size of wire encoding a value as a
    [{{.Name}}]. *)
Definition size_ (p : GoType k) (tagsize : Z) : Z :=
  tagsize + Size k p.

(** [append{{.Name}}] wire encodes a value as a [{{.Name}}]. *)
Definition append (b : bytes) (p : GoType k) (wiretag : Z) : bytes :=
  let v := p in
  let b := wire.AppendVarint b wiretag in
  Append k b v.

(** [consume{{.Name}}] wire decodes a value as a [{{.Name}}]. *)
Definition consume (b : bytes) (p : GoType k) (wtyp : Z) : Unmarshaled (GoType k) :=
  if negb (wtyp =? Expr (WireTypeOf k)) then Failure errUnknown
  else
    match Consume k b with
    | wire.Failed c => Failure (ParseError c)
    | wire.Parsed v n => Stored (ToGoType k v) n
    end.

Definition coder : pointerCoderFuncs (GoType k) :=
  {| size := size_; marshal := append; unmarshal := consume |}.

(** [size{{.Name}}NoZero]: the zero value is not encoded. *)
Definition sizeNoZero (p : GoType k) (tagsize : Z) : Z :=
  let v := p in
  if IsZero k v then 0 else tagsize + Size k v.

(** [append{{.Name}}NoZero]: the zero value is not encoded. *)
Definition appendNoZero (b : bytes) (p : GoType k) (wiretag : Z) : bytes :=
  let v := p in
  if IsZero k v then b
  else
    let b := wire.AppendVarint b wiretag in
    Append k b v.

Definition coderNoZero : pointerCoderFuncs (GoType k) :=
  {| size := sizeNoZero; marshal := appendNoZero; unmarshal := consume |}.

(** [consume{{.Name}}Ptr] wire decodes a value into a field of pointer
    type, on the value the field points to: [None] for [nil].  After the
    call the field points to the decoded value, whether the cell is the one
    it pointed to before or a new one; which of the two it is, is told by
    [consumePtrAt] below. *)
Definition consumePtr (b : bytes) (p : option (GoType k)) (wtyp : Z)
  : Unmarshaled (option (GoType k)) :=
  if negb (wtyp =? Expr (WireTypeOf k)) then Failure errUnknown
  else
    match Consume k b with
    | wire.Failed c => Failure (ParseError c)
    | wire.Parsed v n => Stored (Some (ToGoType k v)) n
    end.

(** [consume{{.Name}}Ptr] on memory: [vp] is the field, [h] the cells.  A
    [nil] field is given a new cell ([*vp = new(T)], which holds the zero
    of [T]); then the value is written through the pointer ([**vp = ...]),
    to the cell the field had when it was not [nil]. *)
Definition consumePtrAt (b : bytes) (h : cells k) (vp : option positive) (wtyp : Z)
  : Unmarshaled (cells k * option positive) :=
  if negb (wtyp =? Expr (WireTypeOf k)) then Failure errUnknown
  else
    match Consume k b with
    | wire.Failed c => Failure (ParseError c)
    | wire.Parsed v n =>
        let '(h, a) :=
          match vp with
          | None => let a := fresh (dom h) in (<[a := Zero k]> h, a)
          | Some a => (h, a)
          end in
        Stored (<[a := ToGoType k v]> h, Some a) n
    end.

(** [size{{.Name}}Ptr] returns the size of wire encoding a pointer to a value
    as a [{{.Name}}].  The value is read through the pointer only where the
    size depends on it: [v := **p...] stands under [if not
    .WireType.ConstSize]. *)
Definition sizePtr (p : option (GoType k)) (tagsize : Z) : Panicking Z :=
  if ConstSize (WireTypeOf k) then
    Returns (tagsize + match WireTypeOf k with
                       | WireFixed32 => wire.SizeFixed32
                       | _ => wire.SizeFixed64
                       end)
  else
    match p with
    | None => Panics
    | Some v => Returns (tagsize + Size k v)
    end.

(** [append{{.Name}}Ptr] wire encodes a pointer to a value as a [{{.Name}}].
    It panics if the pointer is nil. *)
Definition appendPtr (b : bytes) (p : option (GoType k)) (wiretag : Z) : Panicking bytes :=
  match p with
  | None => Panics
  | Some v =>
      let b := wire.AppendVarint b wiretag in
      Returns (Append k b v)
  end.

(** [size{{.Name}}Slice] returns the size of wire encoding a slice as a
    repeated [{{.Name}}]. *)
Definition sizeSlice (p : list (GoType k)) (tagsize : Z) : Z :=
  let s := p in
  if ConstSize (WireTypeOf k) then
    Z.of_nat (length s) *
    (tagsize + match WireTypeOf k with
               | WireFixed32 => wire.SizeFixed32
               | _ => wire.SizeFixed64
               end)
  else fold_left (fun size v => size + (tagsize + Size k v)) s 0.

(** [append{{.Name}}Slice] encodes a slice as a repeated [{{.Name}}]: one
    record for each element. *)
Definition appendSlice (b : bytes) (p : list (GoType k)) (wiretag : Z) : bytes :=
  let s := p in
  fold_left (fun b v => Append k (wire.AppendVarint b wiretag) v) s b.

(** The loop [for len(b) > 0 { ... }] inside [consume{{.Name}}Slice], over
    the payload of a packed block.  Every turn consumes at least one byte, so
    [length b] turns are enough: [fuel] is that bound, and with it the loop
    is never left through its first branch while bytes remain. *)
Fixpoint consumePacked (fuel : nat) (b : bytes) (s : list (GoType k))
  : list (GoType k) + error :=
  match fuel, b with
  | O, _ | _, [] => inl s
  | S fuel', _ :: _ =>
      match Consume k b with
      | wire.Failed c => inr (ParseError c)
      | wire.Parsed v n => consumePacked fuel' (drop n b) (s ++ [ToGoType k v])
      end
  end.

(** [consume{{.Name}}Slice] wire decodes a slice as a repeated [{{.Name}}].
    The first branch exists for the packable wire types only. *)
Definition consumeSlice (b : bytes) (p : list (GoType k)) (wtyp : Z)
  : Unmarshaled (list (GoType k)) :=
  let sp := p in
  if Packable (WireTypeOf k) && (wtyp =? wire.BytesType) then
    let s := sp in
    match wire.ConsumeBytes b with
    | wire.Failed c => Failure (ParseError c)
    | wire.Parsed b n =>
        match consumePacked (length b) b s with
        | inr e => Failure e
        | inl s => Stored s n
        end
    end
  else if negb (wtyp =? Expr (WireTypeOf k)) then Failure errUnknown
  else
    match Consume k b with
    | wire.Failed c => Failure (ParseError c)
    | wire.Parsed v n => Stored (sp ++ [ToGoType k v]) n
    end.

Definition coderSlice : pointerCoderFuncs (list (GoType k)) :=
  {| size := sizeSlice; marshal := appendSlice; unmarshal := consumeSlice |}.

(** The size [n] of the payload of a packed block. *)
Definition packedSize (s : list (GoType k)) : Z :=
  if ConstSize (WireTypeOf k) then
    Z.of_nat (length s) *
    match WireTypeOf k with
    | WireFixed32 => wire.SizeFixed32
    | _ => wire.SizeFixed64
    end
  else fold_left (fun n v => n + Size k v) s 0.

(** [size{{.Name}}PackedSlice] returns the size of wire encoding a slice as
    a packed repeated [{{.Name}}]. *)
Definition sizePackedSlice (p : list (GoType k)) (tagsize : Z) : Z :=
  let s := p in
  if Nat.eqb (length s) 0 then 0
  else
    let n := packedSize s in
    tagsize + wire.SizeBytes n.

(** [append{{.Name}}PackedSlice] encodes a slice as a packed repeated
    [{{.Name}}]: nothing for an empty slice, otherwise a single
    length-delimited record. *)
Definition appendPackedSlice (b : bytes) (p : list (GoType k)) (wiretag : Z) : bytes :=
  let s := p in
  if Nat.eqb (length s) 0 then b
  else
    let b := wire.AppendVarint b wiretag in
    let n := packedSize s in
    let b := wire.AppendVarint b (uint64 n) in
    fold_left (fun b v => Append k b v) s b.

(** The packed coder decodes with the very function of the expanded one. *)
Definition coderPackedSlice : pointerCoderFuncs (list (GoType k)) :=
  {| size := sizePackedSlice; marshal := appendPackedSlice; unmarshal := consumeSlice |}.

(** [size{{.Name}}Iface], [append{{.Name}}Iface], [consume{{.Name}}Iface]:
    the value is held in an [interface{}]. *)
Definition sizeIface (ival : GoType k) (tagsize : Z) : Z :=
  tagsize + Size k ival.

Definition appendIface (b : bytes) (ival : GoType k) (wiretag : Z) : bytes :=
  let v := ival in
  let b := wire.AppendVarint b wiretag in
  Append k b v.

Definition consumeIface (b : bytes) (ival : GoType k) (wtyp : Z) : Unmarshaled (GoType k) :=
  if negb (wtyp =? Expr (WireTypeOf k)) then Failure errUnknown
  else
    match Consume k b with
    | wire.Failed c => Failure (ParseError c)
    | wire.Parsed v n => Stored (ToGoType k v) n
    end.

Definition coderIface : ifaceCoderFuncs (GoType k) :=
  {| isize := sizeIface; imarshal := appendIface; iunmarshal := consumeIface |}.

(** [size{{.Name}}SliceIface], [append{{.Name}}SliceIface],
    [consume{{.Name}}SliceIface]: the [interface{}] holds a pointer to the
    slice, which is updated in place and handed back. *)
Definition sizeSliceIface (ival : list (GoType k)) (tagsize : Z) : Z :=
  let s := ival in
  if ConstSize (WireTypeOf k) then
    Z.of_nat (length s) *
    (tagsize + match WireTypeOf k with
               | WireFixed32 => wire.SizeFixed32
               | _ => wire.SizeFixed64
               end)
  else fold_left (fun size v => size + (tagsize + Size k v)) s 0.

Definition appendSliceIface (b : bytes) (ival : list (GoType k)) (wiretag : Z) : bytes :=
  let s := ival in
  fold_left (fun b v => Append k (wire.AppendVarint b wiretag) v) s b.

Definition consumeSliceIface (b : bytes) (ival : list (GoType k)) (wtyp : Z)
  : Unmarshaled (list (GoType k)) :=
  let sp := ival in
  if Packable (WireTypeOf k) && (wtyp =? wire.BytesType) then
    let s := sp in
    match wire.ConsumeBytes b with
    | wire.Failed c => Failure (ParseError c)
    | wire.Parsed b n =>
        match consumePacked (length b) b s with
        | inr e => Failure e
        | inl s => Stored s n
        end
    end
  else if negb (wtyp =? Expr (WireTypeOf k)) then Failure errUnknown
  else
    match Consume k b with
    | wire.Failed c => Failure (ParseError c)
    | wire.Parsed v n => Stored (sp ++ [ToGoType k v]) n
    end.

Definition coderSliceIface : ifaceCoderFuncs (list (GoType k)) :=
  {| isize := sizeSliceIface; imarshal := appendSliceIface; iunmarshal := consumeSliceIface |}.

End Template.

(** *** The table-driven unmarshal loop

    The loop that calls the coders lives in a file of the package that is not
    at hand; it is modelled from section 4.4 of the specification. *)

Section Unmarshal.

Context {M : Type}.

(** A coder applied at the offset of its field inside the message [M]: the
    field is read with [get] and written back with [set]. *)
Definition atOffset {P : Type} (get : M -> P) (set : P -> M -> M)
  (f : bytes -> P -> Z -> Unmarshaled P) (b : bytes) (m : M) (wtyp : Z)
  : Unmarshaled M :=
  match f b (get m) wtyp with
  | Stored p n => Stored (set p m) n
  | Failure e => Failure e
  end.

(** Modelled from the spec: an entry of the coder table, "binding a field to
    its operations" (section 4.3); only the unmarshal operation matters to
    the loop. *)
Record coderFieldInfo : Type := {
  num : Z;
  funcs_unmarshal : bytes -> M -> Z -> Unmarshaled M
}.

(** Modelled from the spec: the coder table of a message type together with
    the access to its unknown-field buffer (section 4.3). *)
Record MessageInfo : Type := {
  coderFields : list coderFieldInfo;
  unknownFields : M -> bytes;
  setUnknownFields : bytes -> M -> M
}.

Fixpoint fieldByNumber (fs : list coderFieldInfo) (n : Z) : option coderFieldInfo :=
  match fs with
  | [] => None
  | f :: fs' => if num f =? n then Some f else fieldByNumber fs' n
  end.

(** Modelled from the spec: unmarshal "repeatedly: read a tag; look up its
    field number in the coder table; if unknown, copy the entire record into
    the unknown-field buffer; if known but wire type mismatched, follow the
    tolerance rule, otherwise treat as unknown.  Parse errors are fatal"
    (section 4.4).  A coder that answers [errUnknown] has left the message
    alone and the record is set aside as an unknown field.  [fuel] bounds the
    number of records, each of at least one byte. *)
Fixpoint unmarshalLoop (mi : MessageInfo) (fuel : nat) (b : bytes) (m : M) : M + error :=
  match fuel, b with
  | O, _ | _, [] => inl m
  | S fuel', _ :: _ =>
      match wire.ConsumeTag b with
      | wire.Failed c => inr (ParseError c)
      | wire.Parsed (fnum, wtyp) n =>
          let b := drop n b in
          let r :=
            match fieldByNumber (coderFields mi) fnum with
            | Some f => funcs_unmarshal f b m wtyp
            | None => Failure errUnknown
            end in
          match r with
          | Stored m' n => unmarshalLoop mi fuel' (drop n b) m'
          | Failure (ParseError c) => inr (ParseError c)
          | Failure errUnknown =>
              match wire.ConsumeFieldValue fnum wtyp b with
              | wire.Failed c => inr (ParseError c)
              | wire.Parsed _ n =>
                  let u := unknownFields mi m in
                  let u := wire.AppendTag u fnum wtyp in
                  let u := u ++ take n b in
                  unmarshalLoop mi fuel' (drop n b) (setUnknownFields mi u m)
              end
          end
      end
  end.

Definition unmarshalPointer (mi : MessageInfo) (b : bytes) (m : M) : M + error :=
  unmarshalLoop mi (length b) b m.

End Unmarshal.

Arguments coderFieldInfo M : clear implicits.
Arguments MessageInfo M : clear implicits.

End impl.

(** ** Descriptors and message values

    The text codec and the validator of required fields are not part of the
    sources at hand (only their table-driven tests are).  They are modelled
    from the specification: this section is its data model (section 3) as
    the descriptor accessors present it (section 4.2). *)

Module protoreflect.

(** Modelled from the spec: the kind of a field (section 3).  An enum kind
    carries the names and numbers of its values, a message or group kind the
    full name of its message type, which a registry resolves.  The two
    floating-point kinds are left out of the text model: their text form, the
    shortest decimal that reads back, is not modelled. *)
Inductive Kind : Type :=
  | BoolKind | Int32Kind | Sint32Kind | Uint32Kind | Int64Kind | Sint64Kind
  | Uint64Kind | Sfixed32Kind | Fixed32Kind | Sfixed64Kind | Fixed64Kind
  | StringKind | BytesKind
  | EnumKind (values : list (string * Z))
  | MessageKind (message : string)
  | GroupKind (message : string).

(** Modelled from the spec: the cardinality of a field (section 3); a map
    field names the kind of its keys, its own kind being that of the values. *)
Inductive Cardinality : Type :=
  | Singular
  | Optional
  | Required
  | Repeated
  | Map (key : Kind).

(** Modelled from the spec: what the coder asks of a field (section 6). *)
Record FieldDescriptor : Type := {
  Name : string;
  Number : Z;
  Card : Cardinality;
  FieldKind : Kind;
  ContainingOneof : option string
}.

(** Modelled from the spec: a message type (section 3).  The messages of
    this model declare no extension range and are no message sets. *)
Record MessageDescriptor : Type := {
  FullName : string;
  Fields : list FieldDescriptor;
  ReservedNames : list string
}.

(** Modelled from the spec: the registry that resolves a message type by its
    full name (section 6; section 9, cyclic descriptors). *)
Definition Files : Type := list MessageDescriptor.

Fixpoint FindMessageByName (files : Files) (name : string) : option MessageDescriptor :=
  match files with
  | [] => None
  | md :: files' =>
      if String.eqb (FullName md) name then Some md else FindMessageByName files' name
  end.

(** The message type of a field of message or group kind. *)
Definition MessageOf (files : Files) (k : Kind) : option MessageDescriptor :=
  match k with
  | MessageKind name | GroupKind name => FindMessageByName files name
  | _ => None
  end.

(** The key of a map entry: a boolean, an integer or a string. *)
Inductive MapKey : Type :=
  | KBool (b : bool)
  | KInt (z : Z)
  | KString (s : string).

(** Modelled from the spec: the value of a field as reflection presents it.
    A message is known by its populated fields, keyed by field number. *)
Inductive Value : Type :=
  | VBool (b : bool)
  | VInt (z : Z)
  | VString (s : string)
  | VBytes (s : string)
  | VEnum (n : Z)
  | VMessage (fs : list (Z * Value))
  | VList (elems : list Value)
  | VMap (entries : list (MapKey * Value)).

Abbreviation Message := (option (list (Z * Value))).

(** Has-field, get-field, set-field and clear-field on the populated fields
    of a message. *)
Fixpoint getField (n : Z) (fs : list (Z * Value)) : option Value :=
  match fs with
  | [] => None
  | (n', v) :: fs' => if n' =? n then Some v else getField n fs'
  end.

Fixpoint setField (n : Z) (v : Value) (fs : list (Z * Value)) : list (Z * Value) :=
  match fs with
  | [] => [(n, v)]
  | (n', v') :: fs' => if n' =? n then (n, v) :: fs' else (n', v') :: setField n v fs'
  end.

Fixpoint clearField (n : Z) (fs : list (Z * Value)) : list (Z * Value) :=
  match fs with
  | [] => []
  | (n', v') :: fs' => if n' =? n then clearField n fs' else (n', v') :: clearField n fs'
  end.

(** Reading one populated field with a continuation: [f] on the value of
    field [n], [d] when the field is not populated. *)
Definition withField {A : Type} (n : Z) (f : Value -> A) (d : A)
  : list (Z * Value) -> A :=
  fix find fs :=
    match fs with
    | [] => d
    | (n', v) :: fs' => if n' =? n then f v else find fs'
    end.

Definition MapKey_eqb (a b : MapKey) : bool :=
  match a, b with
  | KBool x, KBool y => Bool.eqb x y
  | KInt x, KInt y => x =? y
  | KString x, KString y => String.eqb x y
  | _, _ => false
  end.

(** Map entries: reading a key, and writing one, which replaces the entry
    of an equal key. *)
Fixpoint mapGet {A : Type} (key : MapKey) (es : list (MapKey * A)) : option A :=
  match es with
  | [] => None
  | (key', v) :: es' => if MapKey_eqb key' key then Some v else mapGet key es'
  end.

Fixpoint mapSet {A : Type} (key : MapKey) (v : A) (es : list (MapKey * A))
  : list (MapKey * A) :=
  match es with
  | [] => [(key, v)]
  | (key', v') :: es' =>
      if MapKey_eqb key' key then (key, v) :: es' else (key', v') :: mapSet key v es'
  end.

(** The order of map keys, for printing entries sorted by key. *)
Definition MapKey_leb (a b : MapKey) : bool :=
  match a, b with
  | KBool x, KBool y => implb x y
  | KInt x, KInt y => x <=? y
  | KString x, KString y => String.leb x y
  | KBool _, _ => true
  | KInt _, KString _ => true
  | _, _ => false
  end.

Fixpoint insertByKey {A : Type} (e : MapKey * A) (es : list (MapKey * A))
  : list (MapKey * A) :=
  match es with
  | [] => [e]
  | e' :: es' =>
      if MapKey_leb (fst e) (fst e') then e :: e' :: es' else e' :: insertByKey e es'
  end.

Definition sortByKey {A : Type} (es : list (MapKey * A)) : list (MapKey * A) :=
  fold_right insertByKey [] es.

(** The zero of a kind, the default of a missing map key or value. *)
Definition zeroValue (k : Kind) : Value :=
  match k with
  | BoolKind => VBool false
  | StringKind => VString ""%string
  | BytesKind => VBytes ""%string
  | EnumKind _ => VEnum 0
  | MessageKind _ | GroupKind _ => VMessage []
  | _ => VInt 0
  end.

Definition isScalarZero (v : Value) : bool :=
  match v with
  | VBool b => negb b
  | VInt z => z =? 0
  | VString s | VBytes s => String.eqb s ""%string
  | VEnum n => n =? 0
  | _ => false
  end.

Definition keyOfValue (v : Value) : MapKey :=
  match v with
  | VBool b => KBool b
  | VString s | VBytes s => KString s
  | VInt z | VEnum z => KInt z
  | _ => KInt 0
  end.

End protoreflect.

(** ** The coder of a map field

    The coder of map fields lives in a file of package [impl] that is not at
    hand; it is modelled from section 4.3 of the specification, for maps
    whose keys and values are scalars, over the scalar coders above. *)

Module impl_map.

Import protoreflect.

(** The key of a map as the model of maps knows it. *)
Definition keyOf (k : impl.ProtoKind) : impl.GoType k -> MapKey :=
  match k return impl.GoType k -> MapKey with
  | impl.BoolKind => KBool
  | impl.StringKind | impl.BytesKind => fun v => KString (string_of_list_byte v)
  | _ => KInt
  end.

Section MapCoder.

Variables kk vk : impl.ProtoKind.

(** Modelled from the spec: a map entry is a "sub-message containing key
    (field 1) and value (field 2)"; this is its coder table. *)
Definition entryInfo : impl.MessageInfo (impl.GoType kk * impl.GoType vk) :=
  {| impl.coderFields :=
       [ {| impl.num := 1;
            impl.funcs_unmarshal :=
              impl.atOffset fst (fun p m => (p, snd m)) (impl.consume kk) |};
         {| impl.num := 2;
            impl.funcs_unmarshal :=
              impl.atOffset snd (fun p m => (fst m, p)) (impl.consume vk) |} ];
     impl.unknownFields := fun _ => [];
     impl.setUnknownFields := fun _ m => m |}.

(** Modelled from the spec: the unmarshal function of a map field.  "On
    decode: if the same key appears twice, later overrides earlier.  Missing
    key or value defaults to the kind's zero" (section 4.3). *)
Definition consumeMap (b : bytes) (p : list (MapKey * impl.GoType vk)) (wtyp : Z)
  : impl.Unmarshaled (list (MapKey * impl.GoType vk)) :=
  if negb (wtyp =? wire.BytesType) then impl.Failure impl.errUnknown
  else
    match wire.ConsumeBytes b with
    | wire.Failed c => impl.Failure (impl.ParseError c)
    | wire.Parsed b n =>
        match impl.unmarshalPointer entryInfo b (impl.Zero kk, impl.Zero vk) with
        | inr e => impl.Failure e
        | inl (key, val) => impl.Stored (mapSet (keyOf kk key) val p) n
        end
    end.

End MapCoder.

End impl_map.

(** ** Errors and the validator of required fields *)

Module proto.

Import protoreflect.

(** Modelled from the spec: the closed set of error kinds (section 7). *)
Inductive ErrorKind : Set :=
  | Truncated | Overflow | WireTypeMismatch | Malformed | UnknownField
  | DuplicateField | OneofConflict | MissingRequired | ResolveFailure | Reserved.

(** Modelled from the spec: "every error carries a stable kind and a
    human-readable path" (section 6). *)
Record Error : Type := { kind : ErrorKind; path : string }.

(** A computation that a parsing error aborts at once (section 7,
    propagation policy). *)
Inductive Result (A : Type) : Type :=
  | Ok (a : A)
  | Err (e : Error).
Arguments Ok {A} a.
Arguments Err {A} e.

Definition bind {A B : Type} (r : Result A) (f : A -> Result B) : Result B :=
  match r with
  | Ok a => f a
  | Err e => Err e
  end.

(** What marshal and unmarshal hand back, the pair [(value, err)] of the
    source: after an aborting error there is no value; a missing required
    field "is reported after producing the output (for marshal) or filling
    the message (for unmarshal)" (section 7), alongside it. *)
Inductive Outcome (A : Type) : Type :=
  | Done (a : A) (err : option Error)
  | Aborted (e : Error).
Arguments Done {A} a err.
Arguments Aborted {A} e.

(** The first [Some] that [f] yields along a list. *)
Definition firstSome {A B : Type} (f : A -> option B) : list A -> option B :=
  fix go l :=
    match l with
    | [] => None
    | a :: l' => match f a with Some b => Some b | None => go l' end
    end.

(** The same along the elements of a repeated field, with their index. *)
Definition firstSomeIndexed {A B : Type} (f : nat -> A -> option B)
  : list A -> nat -> option B :=
  fix go l i :=
    match l with
    | [] => None
    | a :: l' => match f i a with Some b => Some b | None => go l' (S i) end
    end.

Definition string_of_Z (z : Z) : string :=
  DecimalString.NilEmpty.string_of_int (Z.to_int z).

Definition joinPath (path name : string) : string :=
  if String.eqb path "" then name else (path ++ "." ++ name)%string.

Definition isRequired (fd : FieldDescriptor) : bool :=
  match Card fd with
  | Required => true
  | _ => false
  end.

Definition keyText (key : MapKey) : string :=
  match key with
  | KBool b => if b then "true" else "false"
  | KInt z => string_of_Z z
  | KString s => s
  end.

(** Modelled from the spec: required-field validation (section 4.4).  "For
    each required field of the message, it must have been marked present.
    For submessages reachable through singular, repeated, map-value, or oneof
    fields, recurse.  Return a dedicated error carrying the path of the first
    missing field."  The result is that path, if any.  [md] is the type of
    the messages inside [v]. *)
Fixpoint missingRequired (files : Files) (md : option MessageDescriptor)
  (at_ : string) (v : Value) {struct v} : option string :=
  match v with
  | VMessage fs =>
      match md with
      | None => None
      | Some md =>
          firstSome
            (fun fd =>
               withField (Number fd)
                 (missingRequired files (MessageOf files (FieldKind fd))
                    (joinPath at_ (Name fd)))
                 (if isRequired fd then Some (joinPath at_ (Name fd)) else None)
                 fs)
            (Fields md)
      end
  | VList elems =>
      firstSomeIndexed
        (fun i e =>
           missingRequired files md
             (at_ ++ "[" ++ string_of_Z (Z.of_nat i) ++ "]")%string e)
        elems 0%nat
  | VMap entries =>
      firstSome
        (fun '(key, e) =>
           missingRequired files md (at_ ++ "[" ++ keyText key ++ "]")%string e)
        entries
  | _ => None
  end.

(** Modelled from the spec: the validator "invoked at the end of marshal and
    unmarshal unless AllowPartial is set"; it "returns a structured error
    naming the first missing required field" (section 4.6).  A message that
    is not there has nothing populated. *)
Definition IsInitialized (files : Files) (md : MessageDescriptor) (m : Message)
  : option Error :=
  match
    missingRequired files (Some md) ""
      (VMessage match m with Some fs => fs | None => [] end)
  with
  | Some p => Some {| kind := MissingRequired; path := p |}
  | None => None
  end.

End proto.

(** ** The syntax of the text format *)

(** Modelled from the spec: the syntax of the text format (section 4.5), as
    the tree its parser yields.  A message is a sequence of entries; the name
    of an entry is a field name (or the type name of a group), a bracketed
    qualified name, or a number; a value is an integer literal, a bare
    identifier ([true], [false], the name of an enum value), a quoted string
    with its escapes resolved, a message literal, or a bracketed list.  The
    lexer is not modelled, and neither are floating-point literals. *)
Module text.

Inductive Name : Type :=
  | Field (name : string)
  | Extension (name : string)
  | Numeric (n : Z).

Inductive Value : Type :=
  | IntV (z : Z)
  | IdentV (s : string)
  | StringV (s : string)
  | MessageV (entries : list (Name * Value))
  | ListV (elems : list Value).

Definition nameText (n : Name) : string :=
  match n with
  | Field s => s
  | Extension s => ("[" ++ s ++ "]")%string
  | Numeric z => proto.string_of_Z z
  end.

End text.

Module MarshalOptions.
(** Modelled from the spec: the options of text marshal (section 6).  Of
    these the model has [AllowPartial]; the indent is the two spaces of
    section 4.5, and no resolver expands an [Any] on printing. *)
Record t : Type := { AllowPartial : bool }.
End MarshalOptions.

Module UnmarshalOptions.
(** Modelled from the spec: the options of text unmarshal (section 6);
    [Resolver] is the lookup that expands an [Any] by its type URL. *)
Record t : Type := {
  AllowPartial : bool;
  Resolver : protoreflect.Files
}.
End UnmarshalOptions.

(** ** The text codec *)

Module prototext.

Import protoreflect proto.

Definition nl : string := String (ascii_of_nat 10) EmptyString.

(** Modelled from the spec: UTF-8 validity, the obligation a [string]
    carries (section 3); the byte ranges are those of the UTF-8 encoding
    (no overlong form, no surrogate, nothing above U+10FFFF). *)
Definition cont (b : Z) : bool := (128 <=? b) && (b <=? 191).

Fixpoint validUTF8Codes (l : list Z) : bool :=
  match l with
  | [] => true
  | b0 :: l1 =>
      if b0 <? 128 then validUTF8Codes l1
      else
        match l1 with
        | [] => false
        | b1 :: l2 =>
            if (194 <=? b0) && (b0 <=? 223) then cont b1 && validUTF8Codes l2
            else
              match l2 with
              | [] => false
              | b2 :: l3 =>
                  if (224 <=? b0) && (b0 <=? 239) then
                    (if b0 =? 224 then (160 <=? b1) && (b1 <=? 191)
                     else if b0 =? 237 then (128 <=? b1) && (b1 <=? 159)
                     else cont b1)
                    && cont b2 && validUTF8Codes l3
                  else
                    match l3 with
                    | [] => false
                    | b3 :: l4 =>
                        (240 <=? b0) && (b0 <=? 244)
                        && (if b0 =? 240 then (144 <=? b1) && (b1 <=? 191)
                            else if b0 =? 244 then (128 <=? b1) && (b1 <=? 143)
                            else cont b1)
                        && cont b2 && cont b3 && validUTF8Codes l4
                    end
              end
        end
  end.

Definition codes (s : string) : list Z :=
  map (fun c => Z.of_N (N_of_ascii c)) (list_ascii_of_string s).

Definition validUTF8 (s : string) : bool := validUTF8Codes (codes s).

(** Modelled from the spec: a quoted string with C-style escapes (section
    4.5).  The quote, the backslash and the control characters are escaped;
    [raw] tells whether the bytes above 127 are written as they are (valid
    UTF-8) or as hexadecimal escapes. *)
Definition dquote : string := String (ascii_of_nat 34) EmptyString.

Definition hexDigit (d : Z) : ascii :=
  ascii_of_N (Z.to_N (if d <? 10 then 48 + d else 87 + d)).

Definition escapeChar (raw : bool) (c : ascii) : string :=
  let b := Z.of_N (N_of_ascii c) in
  if b =? 34 then String "\" dquote else
  if b =? 92 then "\\" else
  if b =? 10 then "\n" else
  if b =? 13 then "\r" else
  if b =? 9 then "\t" else
  if (b <? 32) || (b =? 127) || (negb raw && (128 <=? b)) then
    String "\" (String "x" (String (hexDigit (b / 16)) (String (hexDigit (b mod 16)) "")))
  else String c "".

Definition quote (s : string) : string :=
  let raw := validUTF8 s in
  (dquote ++ String.concat "" (map (escapeChar raw) (list_ascii_of_string s))
   ++ dquote)%string.

(** Modelled from the spec: "messages indent with two spaces per level"
    (section 4.5, printing). *)
Fixpoint indent (level : nat) : string :=
  match level with
  | O => ""
  | S l => ("  " ++ indent l)%string
  end.

(** One entry [name: text], and one entry whose value is a message literal
    with the entries [body]. *)
Definition line (level : nat) (name text : string) : string :=
  (indent level ++ name ++ ": " ++ text ++ nl)%string.

Definition block (level : nat) (name body : string) : string :=
  if String.eqb body "" then (indent level ++ name ++ ": {}" ++ nl)%string
  else (indent level ++ name ++ ": {" ++ nl ++ body ++ indent level ++ "}" ++ nl)%string.

(** The name of a value of an enum, or its number when it has none. *)
Fixpoint enumName (values : list (string * Z)) (n : Z) : option string :=
  match values with
  | [] => None
  | (name, n') :: values' => if n' =? n then Some name else enumName values' n
  end.

Definition enumText (k : Kind) (n : Z) : string :=
  match k with
  | EnumKind values =>
      match enumName values n with
      | Some name => name
      | None => string_of_Z n
      end
  | _ => string_of_Z n
  end.

(** The part of a full name after its last dot: the declared type name by
    which a group field goes in the text format (section 4.5, syntax). *)
Fixpoint hasChar (c : ascii) (s : string) : bool :=
  match s with
  | EmptyString => false
  | String c' s' => Ascii.eqb c c' || hasChar c s'
  end.

Fixpoint afterLast (c : ascii) (s : string) : string :=
  match s with
  | EmptyString => EmptyString
  | String c' s' =>
      if hasChar c s' then afterLast c s'
      else if Ascii.eqb c c' then s' else s
  end.

Definition textName (fd : FieldDescriptor) : string :=
  match FieldKind fd with
  | GroupKind name => afterLast "." name
  | _ => Name fd
  end.

Definition invalidUTF8 (name : string) : Error :=
  {| kind := Malformed; path := name |}.

(** The fields of a message type in the order of their numbers. *)
Fixpoint insertByNumber (fd : FieldDescriptor) (fds : list FieldDescriptor)
  : list FieldDescriptor :=
  match fds with
  | [] => [fd]
  | fd' :: fds' =>
      if Number fd <=? Number fd' then fd :: fd' :: fds'
      else fd' :: insertByNumber fd fds'
  end.

Definition sortByNumber (fds : list FieldDescriptor) : list FieldDescriptor :=
  fold_right insertByNumber [] fds.

(** The entries of the populated fields of a message, in the order [fds],
    each printed by [entry]. *)
Definition marshalFieldsWith (entry : FieldDescriptor -> Value -> Result string)
  (fds : list FieldDescriptor) (fs : list (Z * Value)) : Result string :=
  fold_right
    (fun fd rest =>
       bind (withField (Number fd) (entry fd) (Ok ""%string) fs) (fun x =>
       bind rest (fun y => Ok (x ++ y)%string)))
    (Ok ""%string) fds.

Definition marshalKey (level : nat) (key : MapKey) : Result string :=
  match key with
  | KBool b => Ok (line level "key" (if b then "true" else "false"))
  | KInt z => Ok (line level "key" (string_of_Z z))
  | KString s =>
      if validUTF8 s then Ok (line level "key" (quote s)) else Err (invalidUTF8 "key")
  end.

(** Modelled from the spec: the printer (section 4.5).  The entry, or
    entries, of the field [name] of kind [k] holding [v], at indent [level]:
    a scalar in canonical form, a string quoted and checked for UTF-8, a
    message as its entries between braces, a repeated field as one entry per
    element, a map as one entry per pair, sorted by key.  A message is read
    through its populated fields only. *)
Fixpoint marshalValue (files : Files) (level : nat) (name : string) (k : Kind)
  (v : Value) {struct v} : Result string :=
  match v with
  | VBool b => Ok (line level name (if b then "true" else "false"))
  | VInt z => Ok (line level name (string_of_Z z))
  | VString s =>
      if validUTF8 s then Ok (line level name (quote s)) else Err (invalidUTF8 name)
  | VBytes s => Ok (line level name (quote s))
  | VEnum n => Ok (line level name (enumText k n))
  | VMessage fs =>
      match MessageOf files k with
      | None => Err {| kind := ResolveFailure; path := name |}
      | Some md =>
          bind
            (marshalFieldsWith
               (fun fd v' =>
                  marshalValue files (S level) (textName fd) (FieldKind fd) v')
               (sortByNumber (Fields md)) fs)
            (fun body => Ok (block level name body))
      end
  | VList elems =>
      fold_right
        (fun e rest =>
           bind (marshalValue files level name k e) (fun x =>
           bind rest (fun y => Ok (x ++ y)%string)))
        (Ok ""%string) elems
  | VMap entries =>
      bind
        (fold_right
           (fun '(key, e) rest =>
              bind (marshalKey (S level) key) (fun kx =>
              bind (marshalValue files (S level) "value" k e) (fun vx =>
              bind rest (fun es => Ok ((key, block level name (kx ++ vx)) :: es)))))
           (Ok []) entries)
        (fun es => Ok (String.concat "" (map snd (sortByKey es))))
  end.

(** The entries of a message at the top level. *)
Definition marshalMessage (files : Files) (md : MessageDescriptor) (m : Message)
  : Result string :=
  match m with
  | None => Ok ""%string
  | Some fs =>
      marshalFieldsWith
        (fun fd v' => marshalValue files 0 (textName fd) (FieldKind fd) v')
        (sortByNumber (Fields md)) fs
  end.

(** Modelled from the spec: text marshal.  The output always ends in a
    newline, "even for an empty message" (section 4.5); the validator runs
    "at the end of marshal unless AllowPartial is set", and "the returned
    bytes are still valid; the error is carried alongside" (section 4.6). *)
Definition Marshal (o : MarshalOptions.t) (files : Files) (md : MessageDescriptor)
  (m : Message) : Outcome string :=
  match marshalMessage files md m with
  | Err e => Aborted e
  | Ok body =>
      let b := if String.eqb body "" then nl else body in
      if MarshalOptions.AllowPartial o then Done b None
      else Done b (IsInitialized files md m)
  end.


(** A fold that the first error aborts. *)
Definition foldM {S A : Type} (f : S -> A -> Result S) : list A -> S -> Result S :=
  fix go l s :=
    match l with
    | [] => Ok s
    | a :: l' =>
        match f s a with
        | Ok s' => go l' s'
        | Err e => Err e
        end
    end.

Definition err {A : Type} (k : ErrorKind) (p : string) : Result A :=
  Err {| kind := k; path := p |}.

(** The range of the integer kinds. *)
Definition intRange (k : Kind) : option (Z * Z) :=
  match k with
  | Int32Kind | Sint32Kind | Sfixed32Kind => Some (- 2 ^ 31, 2 ^ 31 - 1)
  | Uint32Kind | Fixed32Kind => Some (0, 2 ^ 32 - 1)
  | Int64Kind | Sint64Kind | Sfixed64Kind => Some (- 2 ^ 63, 2 ^ 63 - 1)
  | Uint64Kind | Fixed64Kind => Some (0, 2 ^ 64 - 1)
  | _ => None
  end.

Fixpoint enumNumber (values : list (string * Z)) (name : string) : option Z :=
  match values with
  | [] => None
  | (name', n) :: values' =>
      if String.eqb name' name then Some n else enumNumber values' name
  end.

(** Modelled from the spec: a scalar literal read as a value of kind [k]
    (section 4.5): [true] and [false]; an integer within the range of the
    kind; a quoted string, valid UTF-8 for a [string]; the name of an enum
    value or a bare integer. *)
Definition unmarshalScalar (k : Kind) (name : string) (tv : text.Value) : Result Value :=
  match k, tv with
  | BoolKind, text.IdentV s =>
      if String.eqb s "true" then Ok (VBool true)
      else if String.eqb s "false" then Ok (VBool false)
      else err Malformed name
  | StringKind, text.StringV s =>
      if validUTF8 s then Ok (VString s) else err Malformed name
  | BytesKind, text.StringV s => Ok (VBytes s)
  | EnumKind values, text.IdentV s =>
      match enumNumber values s with
      | Some n => Ok (VEnum n)
      | None => err Malformed name
      end
  | EnumKind _, text.IntV z =>
      if (- 2 ^ 31 <=? z) && (z <=? 2 ^ 31 - 1) then Ok (VEnum z) else err Overflow name
  | _, text.IntV z =>
      match intRange k with
      | Some (lo, hi) => if (lo <=? z) && (z <=? hi) then Ok (VInt z) else err Overflow name
      | None => err Malformed name
      end
  | _, _ => err Malformed name
  end.

(** The field an entry names: by its name, or for a group by the name of
    its type. *)
Fixpoint findByTextName (name : string) (fds : list FieldDescriptor)
  : option FieldDescriptor :=
  match fds with
  | [] => None
  | fd :: fds' =>
      if String.eqb (textName fd) name then Some fd
      else findByTextName name fds'
  end.

(** A field without presence holds its zero by not being populated. *)
Definition hasPresence (fd : FieldDescriptor) : bool :=
  match Card fd, ContainingOneof fd with
  | Singular, None => false
  | _, _ => true
  end.

Definition setSingular (fd : FieldDescriptor) (v : Value) (fs : list (Z * Value))
  : list (Z * Value) :=
  if negb (hasPresence fd) && isScalarZero v then clearField (Number fd) fs
  else setField (Number fd) v fs.

(** Modelled from the spec: a map is "sugar for repeated message with
    key/value field numbers 1, 2" (section 3); this is the type of its
    entries. *)
Definition mapEntry (fd : FieldDescriptor) (key : Kind) : MessageDescriptor :=
  {| FullName := Name fd;
     Fields := [ {| Name := "key"; Number := 1; Card := Optional; FieldKind := key;
                    ContainingOneof := None |};
                 {| Name := "value"; Number := 2; Card := Optional;
                    FieldKind := FieldKind fd; ContainingOneof := None |} ];
     ReservedNames := [] |}.

(** The pair an entry stands for: "missing key or value defaults to the
    kind's zero" (section 4.3). *)
Definition entryPair (fd : FieldDescriptor) (key : Kind) (efs : list (Z * Value))
  : MapKey * Value :=
  (keyOfValue (default (zeroValue key) (getField 1 efs)),
   default (zeroValue (FieldKind fd)) (getField 2 efs)).

(** What is known while the entries of one message are read: the fields
    populated so far, the numbers of the singular fields seen, and the
    oneofs seen. *)
Record state : Type := {
  fields : list (Z * Value);
  seenNums : gset Z;
  seenOneofs : gset string
}.

Definition start : state := {| fields := []; seenNums := ∅; seenOneofs := ∅ |}.

Definition listOf (v : option Value) : list Value :=
  match v with
  | Some (VList l) => l
  | _ => []
  end.

Definition mapOf (v : option Value) : list (MapKey * Value) :=
  match v with
  | Some (VMap es) => es
  | _ => []
  end.

(** A step taken over each element a value of a repeated or map field
    stands for: over the elements of a bracketed list, or over the value
    itself. *)
Definition overElements {S : Type} (f : S -> text.Value -> Result S)
  (tv : text.Value) (s : S) : Result S :=
  match tv with
  | text.ListV elems => foldM f elems s
  | _ => f s tv
  end.

Section Unmarshal.

(** The binary codec for whole messages, which the text codec calls to fill
    the [value] of an [Any], is not at hand either; it is a parameter. *)
Variable binaryMarshal : MessageDescriptor -> Message -> Result string.

Variable resolver : Files.
Variable files : Files.

(** One value that is no list, of kind [k]; [message] reads a message
    literal. *)
Definition unmarshalSingle
  (message : MessageDescriptor -> text.Value -> Result (list (Z * Value)))
  (k : Kind) (name : string) (tv : text.Value) : Result Value :=
  match k with
  | MessageKind _ | GroupKind _ =>
      match MessageOf files k with
      | None => err ResolveFailure name
      | Some md' => bind (message md' tv) (fun fs => Ok (VMessage fs))
      end
  | _ => unmarshalScalar k name tv
  end.

(** Modelled from the spec: one entry of a message (section 4.5).  A number
    as a name is an error.  A bracketed name is the name of an extension,
    and since the messages of this model declare no extension range, none
    resolves.  A name the message does not define is an error, unless the
    message reserves it, and then the entry is skipped.  A repeated field
    takes one value or a bracketed list and appends; a map field takes
    entries and writes each by its key; any other field may be set once
    (section 7: the same field set twice is a [DuplicateField]), and of the
    members of a oneof one at most (two members set is a [OneofConflict]). *)
Definition unmarshalEntry
  (message : MessageDescriptor -> text.Value -> Result (list (Z * Value)))
  (md : MessageDescriptor) (st : state) (e : text.Name * text.Value) : Result state :=
  let '(name, tv) := e in
  match name with
  | text.Numeric _ => err Malformed (text.nameText name)
  | text.Extension ename => err ResolveFailure ename
  | text.Field fname =>
      match findByTextName fname (Fields md) with
      | None =>
          if existsb (String.eqb fname) (ReservedNames md) then Ok st
          else err UnknownField fname
      | Some fd =>
          let n := Number fd in
          match Card fd with
          | Repeated =>
              bind
                (overElements
                   (fun l e =>
                      bind (unmarshalSingle message (FieldKind fd) fname e)
                        (fun v => Ok (l ++ [v])))
                   tv (listOf (getField n (fields st))))
                (fun l =>
                   Ok {| fields := setField n (VList l) (fields st);
                         seenNums := seenNums st; seenOneofs := seenOneofs st |})
          | Map key =>
              bind
                (overElements
                   (fun es e =>
                      bind (message (mapEntry fd key) e)
                        (fun efs =>
                           let '(k, v) := entryPair fd key efs in
                           Ok (mapSet k v es)))
                   tv (mapOf (getField n (fields st))))
                (fun es =>
                   Ok {| fields := setField n (VMap es) (fields st);
                         seenNums := seenNums st; seenOneofs := seenOneofs st |})
          | _ =>
              if bool_decide (n ∈ seenNums st) then err DuplicateField fname
              else
                let oneofs :=
                  match ContainingOneof fd with
                  | Some od =>
                      if bool_decide (od ∈ seenOneofs st) then err OneofConflict od
                      else Ok ({[od]} ∪ seenOneofs st)
                  | None => Ok (seenOneofs st)
                  end in
                bind oneofs (fun oneofs =>
                bind (unmarshalSingle message (FieldKind fd) fname tv) (fun v =>
                Ok {| fields := setSingular fd v (fields st);
                      seenNums := {[n]} ∪ seenNums st;
                      seenOneofs := oneofs |}))
          end
      end
  end.

(** The well-known type [Any] (glossary): a type URL and the binary
    encoding of a message of that type. *)
Definition AnyName : string := "google.protobuf.Any".

Definition typeURLField : FieldDescriptor :=
  {| Name := "type_url"; Number := 1; Card := Singular; FieldKind := StringKind;
     ContainingOneof := None |}.

Definition valueField : FieldDescriptor :=
  {| Name := "value"; Number := 2; Card := Singular; FieldKind := BytesKind;
     ContainingOneof := None |}.

(** The message type a type URL names: the part after its last slash. *)
Definition FindMessageByURL (resolver : Files) (url : string) : option MessageDescriptor :=
  FindMessageByName resolver (afterLast "/" url).

(** Modelled from the spec: a message literal read as a message of type [md]
    (sections 4.5).  An [Any] whose literal is the expanded form, one
    bracketed URL with the message inside, is read as that message and holds
    its binary encoding; every other literal is read entry by entry. *)
Fixpoint unmarshalMessage (md : MessageDescriptor) (tv : text.Value) {struct tv}
  : Result (list (Z * Value)) :=
  match tv with
  | text.MessageV entries =>
      let regular :=
        bind (foldM (unmarshalEntry unmarshalMessage md) entries start)
          (fun st => Ok (fields st)) in
      if String.eqb (FullName md) AnyName then
        match entries with
        | [(text.Extension url, tv')] =>
            match FindMessageByURL resolver url with
            | None => err ResolveFailure url
            | Some md2 =>
                bind (unmarshalMessage md2 tv') (fun fs2 =>
                bind (binaryMarshal md2 (Some fs2)) (fun b =>
                Ok (setSingular valueField (VBytes b)
                      (setSingular typeURLField (VString url) []))))
            end
        | _ => regular
        end
      else regular
  | _ => err Malformed (FullName md)
  end.

End Unmarshal.

(** The descriptor of [Any]: two fields without presence and nothing else. *)
Definition AnyDescriptor : MessageDescriptor :=
  {| FullName := AnyName; Fields := [typeURLField; valueField]; ReservedNames := [] |}.

(** Modelled from the spec: text unmarshal.  The input is read into a
    message; then, "if not partial-mode, run required-field validation"
    (section 4.4), whose error comes with the filled message (section 7). *)
Definition Unmarshal (binaryMarshal : MessageDescriptor -> Message -> Result string)
  (o : UnmarshalOptions.t) (files : Files) (md : MessageDescriptor)
  (input : list (text.Name * text.Value)) : Outcome Message :=
  match
    unmarshalMessage binaryMarshal (UnmarshalOptions.Resolver o) files md
      (text.MessageV input)
  with
  | Err e => Aborted e
  | Ok fs =>
      if UnmarshalOptions.AllowPartial o then Done (Some fs) None
      else Done (Some fs) (IsInitialized files md (Some fs))
  end.

End prototext.

(** ** Package [structpb]

    The generated message types of [google/protobuf/struct.proto] with their
    accessors.  A pointer that may be [nil] is an [option]; the interface
    value of the oneof is [None] when it is [nil], and otherwise one of the
    six wrapper pointers, each of which may itself be a [nil] pointer of its
    type.  A [float64] is its bit pattern.  The bookkeeping fields
    ([XXX_unrecognized], [XXX_sizecache]) are left out. *)

Module structpb.

Definition NullValue : Type := Z.
Definition NullValue_NULL_VALUE : NullValue := 0.

Inductive Value : Type :=
  | Build_Value (Kind : option isValue_Kind)
with isValue_Kind : Type :=
  | Value_NullValue (w : option NullValue)
  | Value_NumberValue (w : option Z)
  | Value_StringValue (w : option string)
  | Value_BoolValue (w : option bool)
  | Value_StructValue (w : option (option Struct))
  | Value_ListValue (w : option (option ListValue))
with Struct : Type :=
  | Build_Struct (Fields : option (list (string * option Value)))
with ListValue : Type :=
  | Build_ListValue (Values : option (list (option Value))).

Definition Kind (x : Value) : option isValue_Kind :=
  match x with Build_Value k => k end.
Definition Fields (x : Struct) : option (list (string * option Value)) :=
  match x with Build_Struct f => f end.
Definition Values (x : ListValue) : option (list (option Value)) :=
  match x with Build_ListValue v => v end.

(** [Reset]: [*x = Value{}]. *)
Definition Struct_Reset (x : Struct) : Struct := Build_Struct None.
Definition Value_Reset (x : Value) : Value := Build_Value None.
Definition ListValue_Reset (x : ListValue) : ListValue := Build_ListValue None.

Definition GetFields (x : option Struct) : option (list (string * option Value)) :=
  match x with
  | Some x => Fields x
  | None => None
  end.

Definition GetKind (m : option Value) : option isValue_Kind :=
  match m with
  | Some m => Kind m
  | None => None
  end.

(** The six accessors of the oneof: when the type assertion of [x.GetKind()]
    to the pointer type of the wrapper holds, the field of the wrapper, and
    the zero value otherwise.  The assertion also holds for a [nil] pointer
    of the wrapper type, whose field cannot be read. *)
Definition GetNullValue (x : option Value) : impl.Panicking NullValue :=
  match GetKind x with
  | Some (Value_NullValue w) =>
      match w with Some v => impl.Returns v | None => impl.Panics end
  | _ => impl.Returns NullValue_NULL_VALUE
  end.

Definition GetNumberValue (x : option Value) : impl.Panicking Z :=
  match GetKind x with
  | Some (Value_NumberValue w) =>
      match w with Some v => impl.Returns v | None => impl.Panics end
  | _ => impl.Returns 0
  end.

Definition GetStringValue (x : option Value) : impl.Panicking string :=
  match GetKind x with
  | Some (Value_StringValue w) =>
      match w with Some v => impl.Returns v | None => impl.Panics end
  | _ => impl.Returns EmptyString
  end.

Definition GetBoolValue (x : option Value) : impl.Panicking bool :=
  match GetKind x with
  | Some (Value_BoolValue w) =>
      match w with Some v => impl.Returns v | None => impl.Panics end
  | _ => impl.Returns false
  end.

Definition GetStructValue (x : option Value) : impl.Panicking (option Struct) :=
  match GetKind x with
  | Some (Value_StructValue w) =>
      match w with Some v => impl.Returns v | None => impl.Panics end
  | _ => impl.Returns None
  end.

Definition GetListValue (x : option Value) : impl.Panicking (option ListValue) :=
  match GetKind x with
  | Some (Value_ListValue w) =>
      match w with Some v => impl.Returns v | None => impl.Panics end
  | _ => impl.Returns None
  end.

Definition GetValues (x : option ListValue) : option (list (option Value)) :=
  match x with
  | Some x => Values x
  | None => None
  end.

End structpb.

(** ** A sample message

    The message of the end-to-end scenarios of the specification (section 8):
    [opt_int32] is field 1 and [opt_string] field 2 (scenario 1), together
    with a repeated [bool] field (scenario 2) and a field without presence
    (scenario 3), and the buffer of unknown fields. *)

Record Sample : Type := {
  opt_int32 : option Z;
  opt_string : option bytes;
  rpt_bool : list bool;
  s_float : Z;
  sample_unknown : bytes
}.

Definition emptySample : Sample :=
  {| opt_int32 := None; opt_string := None; rpt_bool := []; s_float := 0;
     sample_unknown := [] |}.

Definition set_opt_int32 (p : option Z) (m : Sample) : Sample :=
  {| opt_int32 := p; opt_string := opt_string m; rpt_bool := rpt_bool m;
     s_float := s_float m; sample_unknown := sample_unknown m |}.
Definition set_opt_string (p : option bytes) (m : Sample) : Sample :=
  {| opt_int32 := opt_int32 m; opt_string := p; rpt_bool := rpt_bool m;
     s_float := s_float m; sample_unknown := sample_unknown m |}.
Definition set_rpt_bool (p : list bool) (m : Sample) : Sample :=
  {| opt_int32 := opt_int32 m; opt_string := opt_string m; rpt_bool := p;
     s_float := s_float m; sample_unknown := sample_unknown m |}.
Definition set_s_float (p : Z) (m : Sample) : Sample :=
  {| opt_int32 := opt_int32 m; opt_string := opt_string m; rpt_bool := rpt_bool m;
     s_float := p; sample_unknown := sample_unknown m |}.
Definition set_sample_unknown (p : bytes) (m : Sample) : Sample :=
  {| opt_int32 := opt_int32 m; opt_string := opt_string m; rpt_bool := rpt_bool m;
     s_float := s_float m; sample_unknown := p |}.

(** Its coder table: optional fields through the pointer coders, the
    repeated field through the slice coder, the field without presence
    through the plain coder. *)
Definition sampleInfo : impl.MessageInfo Sample :=
  {| impl.coderFields :=
       [ {| impl.num := 1;
            impl.funcs_unmarshal :=
              impl.atOffset opt_int32 set_opt_int32 (impl.consumePtr impl.Int32Kind) |};
         {| impl.num := 2;
            impl.funcs_unmarshal :=
              impl.atOffset opt_string set_opt_string (impl.consumePtr impl.StringKind) |};
         {| impl.num := 3;
            impl.funcs_unmarshal :=
              impl.atOffset rpt_bool set_rpt_bool
                (impl.unmarshal (impl.coderPackedSlice impl.BoolKind)) |};
         {| impl.num := 4;
            impl.funcs_unmarshal :=
              impl.atOffset s_float set_s_float
                (impl.unmarshal (impl.coderNoZero impl.FloatKind)) |} ];
     impl.unknownFields := sample_unknown;
     impl.setUnknownFields := set_sample_unknown |}.

(** A message with one map field, [map<int32, string> int32_to_str = 1], and
    its coder table. *)
Record SampleMaps : Type := {
  int32_to_str : list (protoreflect.MapKey * bytes);
  maps_unknown : bytes
}.

Definition set_int32_to_str (p : list (protoreflect.MapKey * bytes)) (m : SampleMaps)
  : SampleMaps :=
  {| int32_to_str := p; maps_unknown := maps_unknown m |}.
Definition set_maps_unknown (p : bytes) (m : SampleMaps) : SampleMaps :=
  {| int32_to_str := int32_to_str m; maps_unknown := p |}.

Definition mapsInfo : impl.MessageInfo SampleMaps :=
  {| impl.coderFields :=
       [ {| impl.num := 1;
            impl.funcs_unmarshal :=
              impl.atOffset int32_to_str set_int32_to_str
                (impl_map.consumeMap impl.Int32Kind impl.StringKind) |} ];
     impl.unknownFields := maps_unknown;
     impl.setUnknownFields := set_maps_unknown |}.

(** ** The messages of the tests

    The tables of [TestMarshal] and [TestUnmarshal] use the messages of two
    test packages whose declarations are not at hand.  These are their
    descriptors as far as the tests show them: the fields by their text
    names, numbered in the order in which the expected output lists them.
    The field [req_double] of [pb2.Requireds] is left out with the
    floating-point kinds. *)

Module testprotos.

Import protoreflect.

Definition field (name : string) (n : Z) (c : Cardinality) (k : Kind) : FieldDescriptor :=
  {| Name := name; Number := n; Card := c; FieldKind := k; ContainingOneof := None |}.

Definition member (oneof name : string) (n : Z) (k : Kind) : FieldDescriptor :=
  {| Name := name; Number := n; Card := Optional; FieldKind := k;
     ContainingOneof := Some oneof |}.

Definition pb2_Enum : Kind := EnumKind [("ONE", 1); ("TWO", 2); ("TEN", 10)]%string.

Definition pb2_Scalars : MessageDescriptor :=
  {| FullName := "pb2.Scalars";
     Fields := [ field "opt_bool" 1 Optional BoolKind;
                 field "opt_int32" 2 Optional Int32Kind;
                 field "opt_string" 13 Optional StringKind ];
     ReservedNames := [] |}.

Definition pb3_Scalars : MessageDescriptor :=
  {| FullName := "pb3.Scalars";
     Fields := [ field "s_bool" 1 Singular BoolKind;
                 field "s_int32" 2 Singular Int32Kind;
                 field "s_string" 13 Singular StringKind ];
     ReservedNames := [] |}.

Definition pb2_Nested : MessageDescriptor :=
  {| FullName := "pb2.Nested";
     Fields := [ field "opt_string" 1 Optional StringKind;
                 field "opt_nested" 2 Optional (MessageKind "pb2.Nested") ];
     ReservedNames := [] |}.

Definition pb2_Nests_OptGroup : MessageDescriptor :=
  {| FullName := "pb2.Nests.OptGroup";
     Fields := [ field "opt_string" 1 Optional StringKind;
                 field "opt_nested" 2 Optional (MessageKind "pb2.Nested") ];
     ReservedNames := [] |}.

Definition pb2_Nests_RptGroup : MessageDescriptor :=
  {| FullName := "pb2.Nests.RptGroup";
     Fields := [ field "rpt_string" 1 Repeated StringKind ];
     ReservedNames := [] |}.

Definition pb2_Nests : MessageDescriptor :=
  {| FullName := "pb2.Nests";
     Fields := [ field "opt_nested" 1 Optional (MessageKind "pb2.Nested");
                 field "optgroup" 2 Optional (GroupKind "pb2.Nests.OptGroup");
                 field "rpt_nested" 4 Repeated (MessageKind "pb2.Nested");
                 field "rptgroup" 5 Repeated (GroupKind "pb2.Nests.RptGroup") ];
     ReservedNames := ["reserved_field"%string] |}.

Definition pb3_Nested : MessageDescriptor :=
  {| FullName := "pb3.Nested";
     Fields := [ field "s_string" 1 Singular StringKind;
                 field "s_nested" 2 Singular (MessageKind "pb3.Nested") ];
     ReservedNames := [] |}.

Definition pb3_Maps : MessageDescriptor :=
  {| FullName := "pb3.Maps";
     Fields := [ field "int32_to_str" 1 (Map Int32Kind) StringKind;
                 field "bool_to_uint32" 2 (Map BoolKind) Uint32Kind;
                 field "uint64_to_enum" 3 (Map Uint64Kind) pb2_Enum;
                 field "str_to_nested" 4 (Map StringKind) (MessageKind "pb3.Nested") ];
     ReservedNames := [] |}.

Definition pb2_Requireds : MessageDescriptor :=
  {| FullName := "pb2.Requireds";
     Fields := [ field "req_bool" 1 Required BoolKind;
                 field "req_sfixed64" 2 Required Sfixed64Kind;
                 field "req_string" 4 Required StringKind;
                 field "req_enum" 5 Required pb2_Enum;
                 field "req_nested" 6 Required (MessageKind "pb2.Nested") ];
     ReservedNames := [] |}.

Definition pb2_NestedWithRequired : MessageDescriptor :=
  {| FullName := "pb2.NestedWithRequired";
     Fields := [ field "req_string" 1 Required StringKind ];
     ReservedNames := [] |}.

Definition pb2_IndirectRequired : MessageDescriptor :=
  {| FullName := "pb2.IndirectRequired";
     Fields := [ field "opt_nested" 1 Optional (MessageKind "pb2.NestedWithRequired");
                 field "rpt_nested" 2 Repeated (MessageKind "pb2.NestedWithRequired");
                 field "str_to_nested" 3 (Map StringKind)
                   (MessageKind "pb2.NestedWithRequired");
                 member "union" "oneof_nested" 4 (MessageKind "pb2.NestedWithRequired") ];
     ReservedNames := [] |}.

Definition files : Files :=
  [ pb2_Scalars; pb3_Scalars; pb2_Nested; pb2_Nests_OptGroup; pb2_Nests_RptGroup;
    pb2_Nests; pb3_Nested; pb3_Maps; pb2_Requireds; pb2_NestedWithRequired;
    pb2_IndirectRequired ].

(** A stand-in for the binary codec, where an example needs one: it is
    never looked at. *)
Definition noBinary (md : MessageDescriptor) (m : Message) : proto.Result string :=
  proto.Ok EmptyString.

(** A quoted string of the expected outputs. *)
Definition q (s : string) : string := (prototext.dquote ++ s ++ prototext.dquote)%string.

End testprotos.

(** ** Vocabulary of the statements *)

(** The bit patterns of [-0.0]: the sign bit alone. *)
Definition negZero32 : impl.GoType impl.FloatKind := 2 ^ 31.
Definition negZero64 : impl.GoType impl.DoubleKind := 2 ^ 63.

(** Case analysis on the kind, with the range test turned into bounds. *)
Ltac kind_cases k :=
  destruct k; cbn [impl.GoType impl.WireTypeOf impl.WireValue impl.inRange
                   impl.FromGoType impl.ToGoType impl.Packable impl.ConstSize] in *.

Ltac range_bounds :=
  repeat match goal with
  | H : (_ && _) = true |- _ => apply andb_true_iff in H; destruct H
  | H : (_ <=? _) = true |- _ => apply Z.leb_le in H
  | H : (_ <? _) = true |- _ => apply Z.ltb_lt in H
  end.

(** What the wire primitive of a wire type can write and read back. *)
Definition wireOK (w : impl.WireType) : impl.WireValue w -> Prop :=
  match w return impl.WireValue w -> Prop with
  | impl.WireVarint => fun x => 0 <= x < 2 ^ 64
  | impl.WireFixed32 => fun x => 0 <= x < 2 ^ 32
  | impl.WireFixed64 => fun x => 0 <= x < 2 ^ 64
  | impl.WireBytes => fun x => Z.of_nat (length x) < 2 ^ 64
  end.



(** The expanded form of an [Any] is one bracketed entry and nothing else. *)
Definition expandedForm (input : list (text.Name * text.Value)) : bool :=
  match input with
  | [(text.Extension _, _)] => true
  | _ => false
  end.


(** The write [(k, v)] is the last of [writes] that has the key [k]. *)
Definition lastFor {K A : Type} (k : K) (v : A) (writes : list (K * A)) : Prop :=
  exists pre post, writes = pre ++ (k, v) :: post /\ ~ In k (map fst post).

(** The pair that an entry literal of the map field [fd] is read as:
    [message] reads the literal as a message of the entry type. *)
Definition readsAs
  (message : protoreflect.MessageDescriptor -> text.Value
             -> proto.Result (list (Z * protoreflect.Value)))
  (fd : protoreflect.FieldDescriptor) (key : protoreflect.Kind)
  (tv : text.Value) (kv : protoreflect.MapKey * protoreflect.Value) : Prop :=
  exists efs,
    message (prototext.mapEntry fd key) tv = proto.Ok efs /\
    kv = prototext.entryPair fd key efs.

(** The entry literals that an input addresses to the field [fd], in the
    order of the stream: the values of the entries that name it, a
    bracketed list standing for its elements. *)
Definition literalsFor (md : protoreflect.MessageDescriptor)
  (fd : protoreflect.FieldDescriptor)
  (input : list (text.Name * text.Value)) : list text.Value :=
  flat_map
    (fun '(name, tv) =>
       match name with
       | text.Field fname =>
           match prototext.findByTextName fname (protoreflect.Fields md) with
           | Some fd' =>
               if protoreflect.Number fd' =? protoreflect.Number fd then
                 match tv with
                 | text.ListV elems => elems
                 | _ => [tv]
                 end
               else []
           | None => []
           end
       | _ => []
       end)
    input.

(** The kinds a map key may have (section 3): booleans, integers and
    strings. *)
Definition mapKeyKind (key : protoreflect.Kind) : bool :=
  match key with
  | protoreflect.BoolKind | protoreflect.StringKind => true
  | _ => match prototext.intRange key with Some _ => true | None => false end
  end.

(** A key, and a scalar value, as the text format writes them. *)
Definition keyLiteral (k : protoreflect.MapKey) : text.Value :=
  match k with
  | protoreflect.KBool b => text.IdentV (if b then "true" else "false")
  | protoreflect.KInt z => text.IntV z
  | protoreflect.KString s => text.StringV s
  end.

Definition scalarLiteral (v : protoreflect.Value) : text.Value :=
  match v with
  | protoreflect.VBool b => text.IdentV (if b then "true" else "false")
  | protoreflect.VInt z | protoreflect.VEnum z => text.IntV z
  | protoreflect.VString s | protoreflect.VBytes s => text.StringV s
  | _ => text.MessageV []
  end.

(** A key, and a scalar value, that a field of the given kind can hold. *)
Definition fitsKey (key : protoreflect.Kind) (k : protoreflect.MapKey) : bool :=
  match key, k with
  | protoreflect.BoolKind, protoreflect.KBool _ => true
  | protoreflect.StringKind, protoreflect.KString s => prototext.validUTF8 s
  | _, protoreflect.KInt z =>
      match prototext.intRange key with
      | Some (lo, hi) => (lo <=? z) && (z <=? hi)
      | None => false
      end
  | _, _ => false
  end.

Definition fitsScalar (vk : protoreflect.Kind) (v : protoreflect.Value) : bool :=
  match vk, v with
  | protoreflect.BoolKind, protoreflect.VBool _ => true
  | protoreflect.StringKind, protoreflect.VString s => prototext.validUTF8 s
  | protoreflect.BytesKind, protoreflect.VBytes _ => true
  | protoreflect.EnumKind _, protoreflect.VEnum n => (- 2 ^ 31 <=? n) && (n <=? 2 ^ 31 - 1)
  | _, protoreflect.VInt z =>
      match prototext.intRange vk with
      | Some (lo, hi) => (lo <=? z) && (z <=? hi)
      | None => false
      end
  | _, _ => false
  end.

(** The zero of a kind of keys. *)
Definition zeroKey (key : protoreflect.Kind) : protoreflect.MapKey :=
  match key with
  | protoreflect.BoolKind => protoreflect.KBool false
  | protoreflect.StringKind => protoreflect.KString ""
  | _ => protoreflect.KInt 0
  end.

(** An entry of a map with scalar values as an input gives it: with or
    without its key, with or without its value. *)
Abbreviation textEntry := (option protoreflect.MapKey * option protoreflect.Value)%type.

(** The literal of an entry in the text format: a message with the fields
    [key] and [value], each left out when the entry does not give it. *)
Definition entryLiteral (e : textEntry) : text.Value :=
  text.MessageV
    (match fst e with
     | Some k => [(text.Field "key", keyLiteral k)]
     | None => []
     end
     ++ match snd e with
        | Some v => [(text.Field "value", scalarLiteral v)]
        | None => []
        end).

Definition fitsEntry (key vk : protoreflect.Kind) (e : textEntry) : bool :=
  match fst e with Some k => fitsKey key k | None => true end
  && match snd e with Some v => fitsScalar vk v | None => true end.

(** What an entry writes to the map: "missing key or value defaults to the
    kind's zero" (section 4.3). *)
Definition written (key vk : protoreflect.Kind) (e : textEntry)
  : protoreflect.MapKey * protoreflect.Value :=
  (default (zeroKey key) (fst e), default (protoreflect.zeroValue vk) (snd e)).

(** An entry of a map of scalars as the wire gives it. *)
Abbreviation wireEntry kk vk := (option (impl.GoType kk) * option (impl.GoType vk))%type.

(** The body of the record of an entry: "key (field 1) and value (field 2)"
    (section 4.3), each written by the coder of its kind and left out when
    the entry does not give it. *)
Definition entryBody (kk vk : impl.ProtoKind) (e : wireEntry kk vk) : bytes :=
  match fst e with
  | Some key => impl.append kk [] key (wire.EncodeTag 1 (impl.wireTypes kk))
  | None => []
  end
  ++ match snd e with
     | Some val => impl.append vk [] val (wire.EncodeTag 2 (impl.wireTypes vk))
     | None => []
     end.

(** The records of a sequence of entries of the map field [fnum]: each a
    length-delimited record under the tag of the field. *)
Definition entryRecords (kk vk : impl.ProtoKind) (fnum : Z)
  (es : list (wireEntry kk vk)) : bytes :=
  concat
    (map (fun e =>
            wire.AppendBytes (wire.AppendVarint [] (wire.EncodeTag fnum wire.BytesType))
              (entryBody kk vk e))
       es).

(** An entry whose key and value inhabit their Go types and whose record
    has a length that the wire can express. *)
Definition entryFits (kk vk : impl.ProtoKind) (e : wireEntry kk vk) : bool :=
  match fst e with Some key => impl.inRange kk key | None => true end
  && match snd e with Some val => impl.inRange vk val | None => true end
  && (Z.of_nat (length (entryBody kk vk e)) <? 2 ^ 64).

(** What an entry of the wire writes to the map. *)
Definition writtenGo (kk vk : impl.ProtoKind) (e : wireEntry kk vk)
  : impl.GoType kk * impl.GoType vk :=
  (default (impl.Zero kk) (fst e), default (impl.Zero vk) (snd e)).

(** The width in bytes of the values of a kind of constant size. *)
Definition fixedWidth (k : impl.ProtoKind) : nat :=
  match impl.WireTypeOf k with
  | impl.WireFixed32 => 4
  | impl.WireFixed64 => 8
  | _ => 0
  end.

(** A run of elements of a repeated field on the wire, written by the
    packed coder ([true]) or by the expanded one ([false]). *)
Definition chunkBytes (k : impl.ProtoKind) (fnum : Z) (c : bool * list (impl.GoType k))
  : bytes :=
  if fst c then
    impl.marshal (impl.coderPackedSlice k) [] (snd c) (wire.EncodeTag fnum wire.BytesType)
  else
    impl.marshal (impl.coderSlice k) [] (snd c) (wire.EncodeTag fnum (impl.wireTypes k)).

(** A run whose elements inhabit their Go type and whose packed block has a
    length that fits [int]. *)
Definition chunkOK (k : impl.ProtoKind) (c : bool * list (impl.GoType k)) : bool :=
  forallb (impl.inRange k) (snd c) && (impl.packedSize k (snd c) <? 2 ^ 63).

(** Whether the result of an accessor departs from its zero value; a panic
    does. *)
Definition departs {A : Type} (isZero : A -> bool) (r : impl.Panicking A) : bool :=
  match r with
  | impl.Returns a => negb (isZero a)
  | impl.Panics => true
  end.

Definition isNone {A : Type} (o : option A) : bool :=
  match o with
  | None => true
  | Some _ => false
  end.

(** The six accessors of the oneof of a [structpb.Value], each asked
    whether its result departs from the zero value. *)
Definition departures (x : option structpb.Value) : list bool :=
  [ departs (Z.eqb structpb.NullValue_NULL_VALUE) (structpb.GetNullValue x);
    departs (Z.eqb 0) (structpb.GetNumberValue x);
    departs (String.eqb EmptyString) (structpb.GetStringValue x);
    departs negb (structpb.GetBoolValue x);
    departs isNone (structpb.GetStructValue x);
    departs isNone (structpb.GetListValue x) ].

(** * Properties *)

(** ** Facts about the wire primitives *)

Lemma Z_of_byte_range (y : byte) : 0 <= Z_of_byte y < 256.
Proof.
  unfold Z_of_byte. pose proof (Byte.to_N_bounded y) as H.
  apply N.leb_le in H. destruct (Byte.to_N y) eqn:E; simpl; [lia|].
  assert (N.pos p <= 255)%N by (apply N.leb_le; exact H). lia.
Qed.

Lemma Z_of_byte_of_Z (v : Z) : Z_of_byte (byte_of_Z v) = v mod 256.
Proof.
  unfold Z_of_byte, byte_of_Z.
  assert (Hr : 0 <= v mod 256 < 256) by (apply Z.mod_pos_bound; lia).
  destruct (Byte.of_N (Z.to_N (v mod 256))) as [y|] eqn:E.
  - apply Byte.to_of_N in E. rewrite E. rewrite Z2N.id; lia.
  - apply Byte.of_N_None_iff in E. lia.
Qed.

Lemma Z_of_byte_of_Z_small (v : Z) : 0 <= v < 256 -> Z_of_byte (byte_of_Z v) = v.
Proof. intros H. rewrite Z_of_byte_of_Z. apply Z.mod_small; lia. Qed.

Lemma appendVarintN_length_pos (k : nat) (v : Z) :
  (1 <= length (wire.appendVarintN k v) <= S k)%nat.
Proof.
  revert v. induction k as [|k IH]; intros v; simpl.
  - lia.
  - destruct (v <? 128); simpl; [lia|]. specialize (IH (v / 128)). lia.
Qed.

(** A varint written with [k] bytes to spare is read back, whatever follows
    it, as long as the value fits the [7 * k + 1] bits these bytes carry. *)
Lemma consumeVarintN_appendVarintN (k : nat) (v : Z) (rest : bytes) :
  0 <= v < 2 ^ (7 * Z.of_nat k + 1) ->
  wire.consumeVarintN k (wire.appendVarintN k v ++ rest)
  = wire.Parsed v (length (wire.appendVarintN k v)).
Proof.
  revert v. induction k as [|k IH]; intros v Hv.
  - simpl in *. rewrite Z_of_byte_of_Z_small by lia.
    assert ((v <? 128) = true) as -> by lia.
    assert ((1 <? v) = false) as -> by lia. reflexivity.
  - simpl wire.appendVarintN. destruct (v <? 128) eqn:E.
    + simpl. rewrite Z_of_byte_of_Z_small by lia. rewrite E. reflexivity.
    + assert (Hm : 0 <= v mod 128 < 128) by (apply Z.mod_pos_bound; lia).
      simpl. rewrite Z_of_byte_of_Z_small by lia.
      assert ((v mod 128 + 128 <? 128) = false) as -> by lia.
      rewrite IH.
      * f_equal. pose proof (Z.div_mod v 128). lia.
      * split; [apply Z.div_pos; lia|].
        apply Z.div_lt_upper_bound; [lia|].
        replace (7 * Z.of_nat (S k) + 1) with (7 + (7 * Z.of_nat k + 1)) in Hv by lia.
        rewrite Z.pow_add_r in Hv by lia. lia.
Qed.

Lemma ConsumeVarint_AppendVarint (v : Z) (rest : bytes) :
  0 <= v < 2 ^ 64 ->
  wire.ConsumeVarint (wire.AppendVarint [] v ++ rest)
  = wire.Parsed v (length (wire.AppendVarint [] v)).
Proof.
  intros Hv. unfold wire.ConsumeVarint, wire.AppendVarint. rewrite app_nil_l.
  apply consumeVarintN_appendVarintN. exact Hv.
Qed.

(** Whatever [ConsumeVarint] reads is at least one byte and lies within the
    buffer. *)
Lemma consumeVarintN_bounds (k : nat) (b : bytes) (v : Z) (n : nat) :
  wire.consumeVarintN k b = wire.Parsed v n -> (1 <= n <= length b)%nat.
Proof.
  revert b v n. induction k as [|k IH]; intros [|y b] v n; simpl; try discriminate.
  - destruct (Z_of_byte y <? 128); [|discriminate].
    destruct (1 <? Z_of_byte y); [discriminate|].
    intros [= _ <-]. lia.
  - destruct (Z_of_byte y <? 128).
    + intros [= _ <-]. lia.
    + destruct (wire.consumeVarintN k b) as [v' n'|c] eqn:E; [|discriminate].
      intros [= _ <-]. apply IH in E. lia.
Qed.

Lemma consumeVarintN_range (k : nat) (b : bytes) (v : Z) (n : nat) :
  wire.consumeVarintN k b = wire.Parsed v n -> 0 <= v < 2 ^ (7 * Z.of_nat k + 1).
Proof.
  revert b v n. induction k as [|k IH]; intros [|y b] v n; simpl wire.consumeVarintN;
    try discriminate; pose proof (Z_of_byte_range y) as Hy; cbv zeta.
  - destruct (Z_of_byte y <? 128) eqn:E; [|discriminate].
    simpl. destruct (1 <? Z_of_byte y) eqn:E1; [discriminate|].
    intros [= <- _]. simpl. lia.
  - destruct (Z_of_byte y <? 128) eqn:E.
    + simpl. intros [= <- _].
      assert (2 ^ 7 <= 2 ^ (7 * Z.of_nat (S k) + 1)) by (apply Z.pow_le_mono_r; lia).
      lia.
    + destruct (wire.consumeVarintN k b) as [v' n'|c] eqn:E'; [|discriminate].
      intros [= <- _]. apply IH in E'.
      replace (7 * Z.of_nat (S k) + 1) with (7 + (7 * Z.of_nat k + 1)) by lia.
      rewrite Z.pow_add_r by lia. lia.
Qed.

Lemma appendLE_length (w : nat) (v : Z) : length (wire.appendLE w v) = w.
Proof. revert v. induction w as [|w IH]; intros v; simpl; [reflexivity|]. now rewrite IH. Qed.

Lemma readLE_appendLE (w : nat) (v : Z) :
  wire.readLE (wire.appendLE w v) = v mod 2 ^ (8 * Z.of_nat w).
Proof.
  revert v. induction w as [|w IH]; intros v.
  - simpl. now rewrite Z.mod_1_r.
  - cbn [wire.appendLE wire.readLE]. rewrite IH, Z_of_byte_of_Z.
    replace (8 * Z.of_nat (S w)) with (8 + 8 * Z.of_nat w) by lia.
    rewrite Z.pow_add_r by lia. change (2 ^ 8) with 256.
    rewrite Z.rem_mul_r by lia. reflexivity.
Qed.

Lemma consumeLE_appendLE (w : nat) (v : Z) (rest : bytes) :
  0 <= v < 2 ^ (8 * Z.of_nat w) ->
  wire.consumeLE w (wire.appendLE w v ++ rest) = wire.Parsed v w.
Proof.
  intros Hv. unfold wire.consumeLE.
  rewrite length_app, appendLE_length.
  assert ((w + length rest <? w)%nat = false) as -> by (apply Nat.ltb_ge; lia).
  rewrite <- (appendLE_length w v) at 1. rewrite take_app_length.
  rewrite readLE_appendLE, Z.mod_small by lia. reflexivity.
Qed.

Lemma ConsumeBytes_AppendBytes (v rest : bytes) :
  Z.of_nat (length v) < 2 ^ 64 ->
  wire.ConsumeBytes (wire.AppendBytes [] v ++ rest)
  = wire.Parsed v (length (wire.AppendBytes [] v)).
Proof.
  intros Hv. unfold wire.ConsumeBytes, wire.AppendBytes.
  rewrite <- app_assoc, ConsumeVarint_AppendVarint by lia.
  rewrite drop_app_length, length_app.
  assert ((Z.of_nat (length v + length rest) <? Z.of_nat (length v)) = false) as ->
    by (apply Z.ltb_ge; lia).
  rewrite Nat2Z.id, take_app_length, length_app. reflexivity.
Qed.

(** Zig-zag in closed form on the 64-bit range. *)
Lemma EncodeZigZag_spec (v : Z) :
  - 2 ^ 63 <= v < 2 ^ 63 ->
  wire.EncodeZigZag v = if 0 <=? v then 2 * v else - 2 * v - 1.
Proof.
  intros Hv. unfold wire.EncodeZigZag, uint64.
  rewrite Z.shiftl_mul_pow2, Z.shiftr_div_pow2 by lia. change (2 ^ 1) with 2.
  destruct (0 <=? v) eqn:E.
  - rewrite Z.div_small by lia. rewrite Z.lxor_0_r.
    rewrite Z.mod_small by lia. lia.
  - assert (v / 2 ^ 63 = -1) as ->.
    { symmetry. apply (Z.div_unique_pos v (2 ^ 63) (-1) (v + 2 ^ 63)); lia. }
    rewrite Z.lxor_m1_r. unfold Z.lnot.
    rewrite Z.mod_small by lia. lia.
Qed.

Lemma DecodeZigZag_spec (x : Z) :
  0 <= x < 2 ^ 64 ->
  wire.DecodeZigZag x = if Z.even x then x / 2 else - (x / 2) - 1.
Proof.
  intros Hx. unfold wire.DecodeZigZag, int64.
  rewrite Z.shiftr_div_pow2 by lia. change (2 ^ 1) with 2.
  change 1 with (Z.ones 1) at 1. rewrite Z.land_ones by lia. change (2 ^ 1) with 2.
  assert (0 <= x / 2 < 2 ^ 63).
  { split; [apply Z.div_pos; lia|]. apply Z.div_lt_upper_bound; lia. }
  rewrite Zmod_even. destruct (Z.even x).
  - simpl Z.opp. rewrite Z.lxor_0_r.
    rewrite Z.mod_small by lia. lia.
  - change (- (1)) with (-1). rewrite Z.lxor_m1_r. unfold Z.lnot.
    rewrite Z.mod_small by lia. lia.
Qed.

Lemma DecodeZigZag_EncodeZigZag (v : Z) :
  - 2 ^ 63 <= v < 2 ^ 63 -> wire.DecodeZigZag (wire.EncodeZigZag v) = v.
Proof.
  intros Hv. rewrite EncodeZigZag_spec by lia.
  destruct (0 <=? v) eqn:E.
  - rewrite DecodeZigZag_spec by lia.
    rewrite Z.even_mul. simpl. rewrite Z.mul_comm, Z.div_mul by lia. reflexivity.
  - rewrite DecodeZigZag_spec by lia.
    replace (- 2 * v - 1) with (1 + 2 * (- v - 1)) by lia.
    rewrite Z.even_add_mul_2. simpl.
    rewrite Z.add_comm, Z.mul_comm, Z.div_add_l by lia.
    change (1 / 2) with 0. lia.
Qed.

(** ** Facts about the template's expressions *)

Lemma uint64_range (v : Z) : 0 <= uint64 v < 2 ^ 64.
Proof. unfold uint64. apply Z.mod_pos_bound. lia. Qed.

Lemma uint32_range (v : Z) : 0 <= uint32 v < 2 ^ 32.
Proof. unfold uint32. apply Z.mod_pos_bound. lia. Qed.

Lemma int32_uint64 (v : Z) : - 2 ^ 31 <= v < 2 ^ 31 -> int32 (uint64 v) = v.
Proof.
  intros Hv. unfold int32, uint64.
  replace (2 ^ 64) with (2 ^ 32 * 2 ^ 32) by lia.
  rewrite <- Zplus_mod_idemp_l, Z.rem_mul_r, Z.mul_comm, Z.mod_add, Z.mod_mod by lia.
  rewrite Zplus_mod_idemp_l, Z.mod_small by lia. lia.
Qed.

Lemma int32_uint32 (v : Z) : - 2 ^ 31 <= v < 2 ^ 31 -> int32 (uint32 v) = v.
Proof.
  intros Hv. unfold int32, uint32.
  rewrite Zplus_mod_idemp_l, Z.mod_small by lia. lia.
Qed.

Lemma int64_uint64 (v : Z) : - 2 ^ 63 <= v < 2 ^ 63 -> int64 (uint64 v) = v.
Proof.
  intros Hv. unfold int64, uint64.
  rewrite Zplus_mod_idemp_l, Z.mod_small by lia. lia.
Qed.

Lemma int64_small (v : Z) : - 2 ^ 63 <= v < 2 ^ 63 -> int64 v = v.
Proof. intros Hv. unfold int64. rewrite Z.mod_small by lia. lia. Qed.

Lemma int32_small (v : Z) : - 2 ^ 31 <= v < 2 ^ 31 -> int32 v = v.
Proof. intros Hv. unfold int32. rewrite Z.mod_small by lia. lia. Qed.

Lemma EncodeZigZag_range32 (v : Z) :
  - 2 ^ 31 <= v < 2 ^ 31 -> 0 <= wire.EncodeZigZag v < 2 ^ 32.
Proof. intros Hv. rewrite EncodeZigZag_spec by lia. destruct (0 <=? v) eqn:E; lia. Qed.

Lemma FromGoType_wireOK (k : impl.ProtoKind) (v : impl.GoType k) :
  impl.inRange k v = true -> wireOK (impl.WireTypeOf k) (impl.FromGoType k v).
Proof.
  intros H. kind_cases k; cbn [wireOK]; range_bounds;
    unfold wire.EncodeZigZag;
    try apply uint64_range; try apply uint32_range; try lia.
  destruct v; simpl; lia.
Qed.

(** On the values of its Go type every kind converts to the wire and back
    without loss. *)
Lemma ToGoType_FromGoType (k : impl.ProtoKind) (v : impl.GoType k) :
  impl.inRange k v = true -> impl.ToGoType k (impl.FromGoType k v) = v.
Proof.
  intros H. kind_cases k; range_bounds; try reflexivity.
  - destruct v; reflexivity.
  - apply int32_uint64; lia.
  - rewrite int64_small by lia.
    pose proof (EncodeZigZag_range32 v ltac:(lia)).
    change (2 ^ 32 - 1) with (Z.ones 32). rewrite Z.land_ones by lia.
    rewrite Z.mod_small by lia.
    rewrite DecodeZigZag_EncodeZigZag by lia. apply int32_small; lia.
  - unfold uint32, uint64. rewrite (Z.mod_small v (2 ^ 64)) by lia.
    apply Z.mod_small. lia.
  - apply int64_uint64; lia.
  - apply DecodeZigZag_EncodeZigZag; lia.
  - apply int32_uint32; lia.
  - apply int64_uint64; lia.
Qed.

Lemma Append_app (k : impl.ProtoKind) (b : bytes) (v : impl.GoType k) :
  impl.Append k b v = b ++ impl.Append k [] v.
Proof.
  destruct k; cbn; unfold wire.AppendVarint, wire.AppendFixed32, wire.AppendFixed64,
    wire.AppendString, wire.AppendBytes, wire.AppendVarint;
    rewrite ?app_nil_l, ?app_assoc; reflexivity.
Qed.

Lemma AppendVarint_app (b : bytes) (v : Z) :
  wire.AppendVarint b v = b ++ wire.AppendVarint [] v.
Proof. reflexivity. Qed.

(** A value appended by the template is consumed by the template, whatever
    follows it. *)
Lemma Consume_Append (k : impl.ProtoKind) (v : impl.GoType k) (rest : bytes) :
  impl.inRange k v = true ->
  impl.Consume k (impl.Append k [] v ++ rest)
  = wire.Parsed (impl.FromGoType k v) (length (impl.Append k [] v)).
Proof.
  intros H. pose proof (FromGoType_wireOK k v H) as Hw.
  destruct k; cbn in Hw |- *;
    first [ apply ConsumeVarint_AppendVarint; exact Hw
          | apply (consumeLE_appendLE 4); exact Hw
          | apply (consumeLE_appendLE 8); exact Hw
          | apply ConsumeBytes_AppendBytes; exact Hw ].
Qed.

(** Every successful [Consume] reads at least one byte. *)
Lemma Consume_progress (k : impl.ProtoKind) (b : bytes) v (n : nat) :
  impl.Consume k b = wire.Parsed v n -> (1 <= n)%nat.
Proof.
  assert (HV : forall b v n, wire.ConsumeVarint b = wire.Parsed v n -> (1 <= n)%nat).
  { intros b0 v0 n0 E. apply consumeVarintN_bounds in E. lia. }
  assert (HL : forall w b v n, (1 <= w)%nat ->
             wire.consumeLE w b = wire.Parsed v n -> (1 <= n)%nat).
  { intros w b0 v0 n0 Hw. unfold wire.consumeLE.
    destruct (length b0 <? w)%nat; [discriminate|]. intros [= _ <-]. exact Hw. }
  assert (HB : forall b v n, wire.ConsumeBytes b = wire.Parsed v n -> (1 <= n)%nat).
  { intros b0 v0 n0. unfold wire.ConsumeBytes.
    destruct (wire.ConsumeVarint b0) as [m n1|c] eqn:E; [|discriminate].
    apply HV in E. destruct (_ <? _); [discriminate|]. intros [= _ <-]. lia. }
  destruct k; cbn; intros E;
    first [ exact (HV _ _ _ E) | exact (HB _ _ _ E)
          | apply (HL 4%nat _ _ _ ltac:(lia) E)
          | apply (HL 8%nat _ _ _ ltac:(lia) E) ].
Qed.

(** ** Zero values of fields without presence *)

Lemma float_zero_bits (w : Z) (v : Z) :
  1 <= w -> 0 <= v < 2 ^ w ->
  impl.float_eq_zero w v && negb (impl.Signbit w v) = true <-> v = 0.
Proof.
  intros Hw Hv. unfold impl.float_eq_zero, impl.Signbit.
  assert (Hp : 2 ^ w = 2 * 2 ^ (w - 1)).
  { rewrite <- Z.pow_succ_r by lia. f_equal. lia. }
  assert (Ho : 2 ^ (w - 1) - 1 = Z.ones (w - 1)) by (rewrite Z.ones_equiv; lia).
  rewrite Ho, Z.land_ones by lia.
  rewrite Z.testbit_odd, Z.shiftr_div_pow2 by lia.
  assert (Hq : 0 <= v / 2 ^ (w - 1) < 2).
  { split; [apply Z.div_pos; lia|]. apply Z.div_lt_upper_bound; lia. }
  pose proof (Z.div_mod v (2 ^ (w - 1)) ltac:(lia)) as Hdm.
  pose proof (Z.mod_pos_bound v (2 ^ (w - 1)) ltac:(lia)) as Hm.
  rewrite andb_true_iff, Z.eqb_eq, negb_true_iff. split.
  - intros [H0 H1].
    assert (v / 2 ^ (w - 1) = 0); [|lia].
    destruct (Z.eq_dec (v / 2 ^ (w - 1)) 0) as [|Hne]; [assumption|].
    assert (v / 2 ^ (w - 1) = 1) as E by lia. rewrite E in H1. discriminate.
  - intros ->. rewrite Z.mod_0_l, Z.div_0_l by lia. split; reflexivity.
Qed.

(** [IsZero] holds of the zero value of the kind and of nothing else; for a
    float that is [+0.0] alone. *)
Lemma IsZero_iff (k : impl.ProtoKind) (v : impl.GoType k) :
  impl.inRange k v = true -> (impl.IsZero k v = true <-> v = impl.Zero k).
Proof.
  intros H. destruct k; cbn in *; range_bounds;
    try (rewrite Z.eqb_eq; reflexivity);
    try (apply float_zero_bits; lia).
  - destruct v; simpl; split; congruence.
  - rewrite Nat.eqb_eq. destruct v; simpl; split; congruence.
  - rewrite Nat.eqb_eq. destruct v; simpl; split; congruence.
Qed.

Lemma Size_pos (k : impl.ProtoKind) (v : impl.GoType k) : 1 <= impl.Size k v.
Proof.
  assert (HV : forall x, 1 <= wire.SizeVarint x).
  { intros x. unfold wire.SizeVarint. pose proof (appendVarintN_length_pos 9 x). lia. }
  destruct k; cbn; try apply HV; unfold wire.SizeFixed32, wire.SizeFixed64, wire.SizeBytes;
    try lia.
  all: match goal with |- context [wire.SizeVarint ?x] => pose proof (HV x) end; lia.
Qed.

Lemma append_grows (k : impl.ProtoKind) (b : bytes) (v : impl.GoType k) (wiretag : Z) :
  impl.append k b v wiretag <> b.
Proof.
  unfold impl.append. cbv zeta. rewrite Append_app, AppendVarint_app.
  intros E. apply (f_equal (@length byte)) in E.
  rewrite !length_app in E. unfold wire.AppendVarint in E. rewrite app_nil_l in E.
  pose proof (appendVarintN_length_pos 9 wiretag). lia.
Qed.

(** C2.  A singular scalar field without presence is encoded to nothing, and
    sized 0, exactly when its value is the zero of its kind; for [float] and
    [double] the zero is [+0.0] only: [-0.0] compares equal to zero, has its
    sign bit set, and is encoded. *)
Theorem C2_zero_value_not_encoded
  (k : impl.ProtoKind) (v : impl.GoType k) (b : bytes) (wiretag tagsize : Z) :
  impl.inRange k v = true ->
  0 <= tagsize ->
  (impl.marshal (impl.coderNoZero k) b v wiretag = b <-> v = impl.Zero k) /\
  (impl.size (impl.coderNoZero k) v tagsize = 0 <-> v = impl.Zero k) /\
  (impl.float_eq_zero 32 negZero32 = true /\
   impl.Signbit 32 negZero32 = true /\
   impl.marshal (impl.coderNoZero impl.FloatKind) b negZero32 wiretag
     = impl.marshal (impl.coder impl.FloatKind) b negZero32 wiretag /\
   impl.marshal (impl.coderNoZero impl.FloatKind) b negZero32 wiretag <> b /\
   impl.size (impl.coderNoZero impl.FloatKind) negZero32 tagsize = tagsize + 4) /\
  (impl.float_eq_zero 64 negZero64 = true /\
   impl.Signbit 64 negZero64 = true /\
   impl.marshal (impl.coderNoZero impl.DoubleKind) b negZero64 wiretag
     = impl.marshal (impl.coder impl.DoubleKind) b negZero64 wiretag /\
   impl.marshal (impl.coderNoZero impl.DoubleKind) b negZero64 wiretag <> b /\
   impl.size (impl.coderNoZero impl.DoubleKind) negZero64 tagsize = tagsize + 8).
Proof.
  intros Hr Ht. pose proof (IsZero_iff k v Hr) as Hz. cbn [impl.marshal impl.size impl.coderNoZero impl.coder].
  split; [|split; [|split]].
  - unfold impl.appendNoZero. cbv zeta. destruct (impl.IsZero k v) eqn:E.
    + split; [intros _; apply Hz; reflexivity | reflexivity].
    + split.
      * intros Hb. exfalso. exact (append_grows k b v wiretag Hb).
      * intros Hv. apply Hz in Hv. congruence.
  - unfold impl.sizeNoZero. cbv zeta. destruct (impl.IsZero k v) eqn:E.
    + split; [intros _; apply Hz; reflexivity | reflexivity].
    + pose proof (Size_pos k v). split; [lia|].
      intros Hv. apply Hz in Hv. congruence.
  - repeat split; try reflexivity. apply (append_grows impl.FloatKind).
  - repeat split; try reflexivity. apply (append_grows impl.DoubleKind).
Qed.

(** ** Tags *)

Lemma DecodeTag_arith (x : Z) : wire.DecodeTag x = (x / 8, x mod 8).
Proof.
  unfold wire.DecodeTag. rewrite Z.shiftr_div_pow2 by lia.
  change 7 with (Z.ones 3). rewrite Z.land_ones by lia. reflexivity.
Qed.

Lemma EncodeTag_arith (fnum typ : Z) :
  0 <= typ < 8 -> wire.EncodeTag fnum typ = 8 * fnum + typ.
Proof.
  intros Ht. unfold wire.EncodeTag.
  set (x := Z.lor (Z.shiftl fnum 3) (Z.land typ 7)).
  assert (Hl : Z.land typ 7 = typ).
  { change 7 with (Z.ones 3). rewrite Z.land_ones by lia. apply Z.mod_small. lia. }
  assert (Hhi : x / 8 = fnum).
  { change 8 with (2 ^ 3). rewrite <- Z.shiftr_div_pow2 by lia. unfold x.
    rewrite Z.shiftr_lor, Z.shiftr_shiftl_l by lia. rewrite Hl.
    rewrite (Z.shiftr_div_pow2 typ) by lia. rewrite (Z.div_small typ) by lia.
    simpl. apply Z.lor_0_r. }
  assert (Hlo : x mod 8 = typ).
  { change 8 with (2 ^ 3). rewrite <- Z.land_ones by lia. unfold x.
    rewrite Z.land_lor_distr_l, Hl.
    rewrite !Z.land_ones, Z.shiftl_mul_pow2 by lia.
    rewrite Z.mod_mul by lia. rewrite Z.mod_small by lia. reflexivity. }
  pose proof (Z.div_mod x 8 ltac:(lia)). lia.
Qed.

Lemma ConsumeTag_AppendTag (fnum typ : Z) (rest : bytes) :
  wire.MinValidNumber <= fnum <= wire.MaxValidNumber -> 0 <= typ < 8 ->
  wire.ConsumeTag (wire.AppendTag [] fnum typ ++ rest)
  = wire.Parsed (fnum, typ) (length (wire.AppendTag [] fnum typ)).
Proof.
  unfold wire.MinValidNumber, wire.MaxValidNumber. intros Hn Ht.
  unfold wire.ConsumeTag, wire.AppendTag.
  rewrite EncodeTag_arith by lia.
  rewrite ConsumeVarint_AppendVarint by lia.
  rewrite DecodeTag_arith.
  replace ((8 * fnum + typ) / 8) with fnum
    by (apply (Z.div_unique_pos _ 8 fnum typ); lia).
  replace ((8 * fnum + typ) mod 8) with typ
    by (apply (Z.mod_unique_pos _ 8 fnum typ); lia).
  unfold wire.MinValidNumber, wire.MaxValidNumber.
  assert ((fnum <? 1) = false) as -> by lia.
  assert ((2 ^ 29 - 1 <? fnum) = false) as -> by lia.
  reflexivity.
Qed.

Lemma ConsumeTag_bounds (b : bytes) (t : Z * Z) (n : nat) :
  wire.ConsumeTag b = wire.Parsed t n -> (1 <= n <= length b)%nat.
Proof.
  unfold wire.ConsumeTag.
  destruct (wire.ConsumeVarint b) as [x n'|c] eqn:E; [|discriminate].
  apply consumeVarintN_bounds in E.
  destruct (wire.DecodeTag x) as [fnum typ].
  destruct (_ || _); [discriminate|]. intros [= _ <-]. exact E.
Qed.

(** ** The unmarshal loop *)

Section LoopFacts.

Context {M : Type} (mi : impl.MessageInfo M).

(** Fuel beyond the length of the buffer changes nothing: every record takes
    at least the byte of its tag. *)
Lemma unmarshalLoop_fuel (f1 f2 : nat) (b : bytes) (m : M) :
  (length b <= f1)%nat -> (length b <= f2)%nat ->
  impl.unmarshalLoop mi f1 b m = impl.unmarshalLoop mi f2 b m.
Proof.
  revert f2 b m. induction f1 as [|f1 IH]; intros f2 b m H1 H2.
  - destruct b; [|simpl in H1; lia]. destruct f2; reflexivity.
  - destruct b as [|y b]; [destruct f2; reflexivity|].
    destruct f2 as [|f2]; [simpl in H2; lia|].
    cbn [impl.unmarshalLoop].
    destruct (wire.ConsumeTag (y :: b)) as [[fnum wtyp] n|c] eqn:E; [|reflexivity].
    apply ConsumeTag_bounds in E. cbv zeta.
    assert (Hd : forall j, (length (drop j (drop n (y :: b))) <= length b)%nat).
    { intros j. rewrite !length_drop. simpl. lia. }
    simpl in H1, H2.
    destruct (match impl.fieldByNumber (impl.coderFields mi) fnum with
              | Some f => impl.funcs_unmarshal f (drop n (y :: b)) m wtyp
              | None => impl.Failure impl.errUnknown
              end) as [m' n'|[|c]].
    + apply IH; specialize (Hd n'); lia.
    + destruct (wire.ConsumeFieldValue fnum wtyp (drop n (y :: b))) as [u n'|c];
        [|reflexivity].
      apply IH; specialize (Hd n'); lia.
    + reflexivity.
Qed.

(** The loop, one record at a time. *)
Lemma unmarshalPointer_nil (m : M) : impl.unmarshalPointer mi [] m = inl m.
Proof. reflexivity. Qed.

Lemma unmarshalPointer_step (b : bytes) (m : M) (fnum wtyp : Z) (n : nat) :
  wire.ConsumeTag b = wire.Parsed (fnum, wtyp) n ->
  impl.unmarshalPointer mi b m =
  match
    match impl.fieldByNumber (impl.coderFields mi) fnum with
    | Some f => impl.funcs_unmarshal f (drop n b) m wtyp
    | None => impl.Failure impl.errUnknown
    end
  with
  | impl.Stored m' n' => impl.unmarshalPointer mi (drop n' (drop n b)) m'
  | impl.Failure (impl.ParseError c) => inr (impl.ParseError c)
  | impl.Failure impl.errUnknown =>
      match wire.ConsumeFieldValue fnum wtyp (drop n b) with
      | wire.Failed c => inr (impl.ParseError c)
      | wire.Parsed _ n' =>
          impl.unmarshalPointer mi (drop n' (drop n b))
            (impl.setUnknownFields mi
               (wire.AppendTag (impl.unknownFields mi m) fnum wtyp ++ take n' (drop n b)) m)
      end
  end.
Proof.
  intros E. pose proof (ConsumeTag_bounds _ _ _ E) as Hn.
  destruct b as [|y b]; [simpl in Hn; lia|].
  unfold impl.unmarshalPointer at 1. cbn [length impl.unmarshalLoop]. rewrite E. cbv zeta.
  assert (Hd : forall j, (length (drop j (drop n (y :: b))) <= length b)%nat).
  { intros j. rewrite !length_drop. simpl. lia. }
  destruct (match impl.fieldByNumber (impl.coderFields mi) fnum with
            | Some f => impl.funcs_unmarshal f (drop n (y :: b)) m wtyp
            | None => impl.Failure impl.errUnknown
            end) as [m' n'|[|c]].
  - apply unmarshalLoop_fuel; [apply Hd | lia].
  - destruct (wire.ConsumeFieldValue fnum wtyp (drop n (y :: b))) as [u n'|c];
      [|reflexivity].
    apply unmarshalLoop_fuel; [apply Hd | lia].
  - reflexivity.
Qed.

End LoopFacts.

(** ** Records of the wrong wire type *)

Lemma consume_mismatch (k : impl.ProtoKind) (b : bytes) (p : impl.GoType k) (wtyp : Z) :
  wtyp <> impl.wireTypes k -> impl.consume k b p wtyp = impl.Failure impl.errUnknown.
Proof.
  intros H. unfold impl.consume, impl.wireTypes in *.
  destruct (wtyp =? impl.Expr (impl.WireTypeOf k)) eqn:E; [|reflexivity].
  apply Z.eqb_eq in E. contradiction.
Qed.

Lemma consumePtr_mismatch (k : impl.ProtoKind) (b : bytes) (p : option (impl.GoType k))
  (wtyp : Z) :
  wtyp <> impl.wireTypes k -> impl.consumePtr k b p wtyp = impl.Failure impl.errUnknown.
Proof.
  intros H. unfold impl.consumePtr, impl.wireTypes in *.
  destruct (wtyp =? impl.Expr (impl.WireTypeOf k)) eqn:E; [|reflexivity].
  apply Z.eqb_eq in E. contradiction.
Qed.

Lemma consumeIface_mismatch (k : impl.ProtoKind) (b : bytes) (p : impl.GoType k) (wtyp : Z) :
  wtyp <> impl.wireTypes k -> impl.consumeIface k b p wtyp = impl.Failure impl.errUnknown.
Proof.
  intros H. unfold impl.consumeIface, impl.wireTypes in *.
  destruct (wtyp =? impl.Expr (impl.WireTypeOf k)) eqn:E; [|reflexivity].
  apply Z.eqb_eq in E. contradiction.
Qed.

Lemma consumeSlice_mismatch (k : impl.ProtoKind) (b : bytes) (p : list (impl.GoType k))
  (wtyp : Z) :
  wtyp <> impl.wireTypes k ->
  impl.Packable (impl.WireTypeOf k) = false \/ wtyp <> wire.BytesType ->
  impl.consumeSlice k b p wtyp = impl.Failure impl.errUnknown /\
  impl.consumeSliceIface k b p wtyp = impl.Failure impl.errUnknown.
Proof.
  intros H Hp. unfold impl.consumeSlice, impl.consumeSliceIface, impl.wireTypes in *.
  cbv zeta.
  assert (impl.Packable (impl.WireTypeOf k) && (wtyp =? wire.BytesType) = false) as ->.
  { destruct Hp as [-> | Hp]; [reflexivity|].
    apply andb_false_iff. right. apply Z.eqb_neq. exact Hp. }
  destruct (wtyp =? impl.Expr (impl.WireTypeOf k)) eqn:E; [|split; reflexivity].
  apply Z.eqb_eq in E. contradiction.
Qed.

(** C5.  A record for a known field that arrives with another wire type than
    the field's is no fatal error.  Every singular consume function answers
    [errUnknown] without reading anything, and so do the slice functions when
    the packed tolerance does not apply; the loop then sets the record aside
    in the unknown-field buffer, untouched, leaves the field as it was, and
    goes on with the records that follow. *)
Theorem C5_wire_type_mismatch_goes_to_unknown
  (k : impl.ProtoKind) (wtyp : Z) (b : bytes) :
  wtyp <> impl.wireTypes k ->
  (forall p, impl.consume k b p wtyp = impl.Failure impl.errUnknown) /\
  (forall p, impl.consumePtr k b p wtyp = impl.Failure impl.errUnknown) /\
  (forall p, impl.consumeIface k b p wtyp = impl.Failure impl.errUnknown) /\
  (impl.Packable (impl.WireTypeOf k) = false \/ wtyp <> wire.BytesType ->
   forall p, impl.consumeSlice k b p wtyp = impl.Failure impl.errUnknown /\
             impl.consumeSliceIface k b p wtyp = impl.Failure impl.errUnknown) /\
  (forall (M : Type) (mi : impl.MessageInfo M) (f : impl.coderFieldInfo M)
          (get : M -> impl.GoType k) (set : impl.GoType k -> M -> M)
          (fnum : Z) (payload rest : bytes) (m : M),
     wire.MinValidNumber <= fnum <= wire.MaxValidNumber ->
     0 <= wtyp < 8 ->
     impl.fieldByNumber (impl.coderFields mi) fnum = Some f ->
     impl.funcs_unmarshal f = impl.atOffset get set (impl.unmarshal (impl.coder k)) ->
     wire.ConsumeFieldValue fnum wtyp (payload ++ rest) = wire.Parsed tt (length payload) ->
     impl.unmarshalPointer mi (wire.AppendTag [] fnum wtyp ++ payload ++ rest) m
     = impl.unmarshalPointer mi rest
         (impl.setUnknownFields mi
            (impl.unknownFields mi m ++ wire.AppendTag [] fnum wtyp ++ payload) m)).
Proof.
  intros Hne. repeat split.
  - intros p. apply consume_mismatch, Hne.
  - intros p. apply consumePtr_mismatch, Hne.
  - intros p. apply consumeIface_mismatch, Hne.
  - apply consumeSlice_mismatch; assumption.
  - apply consumeSlice_mismatch; assumption.
  - intros M mi f get set fnum payload rest m Hn Ht Hf Hu Hv.
    rewrite (unmarshalPointer_step mi _ m fnum wtyp _ (ConsumeTag_AppendTag fnum wtyp _ Hn Ht)).
    rewrite drop_app_length, Hf, Hu. unfold impl.atOffset. cbn [impl.unmarshal impl.coder].
    rewrite consume_mismatch by exact Hne.
    rewrite Hv, drop_app_length, take_app_length.
    unfold wire.AppendTag, wire.AppendVarint. rewrite app_nil_l, app_assoc. reflexivity.
Qed.

(** ** Packed and expanded repeated fields *)

(** What the two marshal functions write, as concatenations. *)
Lemma appendSlice_flat (k : impl.ProtoKind) (b : bytes) (s : list (impl.GoType k))
  (wiretag : Z) :
  impl.appendSlice k b s wiretag
  = b ++ concat (map (fun v => wire.AppendVarint [] wiretag ++ impl.Append k [] v) s).
Proof.
  unfold impl.appendSlice. cbv zeta. revert b.
  induction s as [|v s IH]; intros b; simpl.
  - now rewrite app_nil_r.
  - rewrite IH, Append_app, AppendVarint_app, <- !app_assoc. reflexivity.
Qed.

Lemma fold_Append_flat (k : impl.ProtoKind) (b : bytes) (s : list (impl.GoType k)) :
  fold_left (fun b v => impl.Append k b v) s b
  = b ++ concat (map (impl.Append k []) s).
Proof.
  revert b. induction s as [|v s IH]; intros b; simpl.
  - now rewrite app_nil_r.
  - rewrite IH, Append_app, <- !app_assoc. reflexivity.
Qed.

Lemma Size_Append (k : impl.ProtoKind) (v : impl.GoType k) :
  impl.Packable (impl.WireTypeOf k) = true ->
  impl.Size k v = Z.of_nat (length (impl.Append k [] v)).
Proof.
  destruct k; cbn; intros H; try discriminate; try reflexivity.
Qed.

Lemma fold_sum_shift {A : Type} (f : A -> Z) (s : list A) (a : Z) :
  fold_left (fun n v => n + f v) s a = a + fold_left (fun n v => n + f v) s 0.
Proof.
  revert a. induction s as [|v s IH]; intros a; simpl; [lia|].
  rewrite (IH (a + f v)), (IH (0 + f v)). lia.
Qed.

(** The announced size of a packed block is the length of its payload. *)
Lemma packedSize_length (k : impl.ProtoKind) (s : list (impl.GoType k)) :
  impl.Packable (impl.WireTypeOf k) = true ->
  impl.packedSize k s = Z.of_nat (length (concat (map (impl.Append k []) s))).
Proof.
  intros Hp.
  assert (Hsum : fold_left (fun n v => n + impl.Size k v) s 0
                 = Z.of_nat (length (concat (map (impl.Append k []) s)))).
  { induction s as [|v s IH]; [reflexivity|].
    simpl. rewrite fold_sum_shift, IH, length_app, (Size_Append k v Hp). lia. }
  unfold impl.packedSize. destruct (impl.ConstSize (impl.WireTypeOf k)) eqn:Ec;
    [|exact Hsum].
  rewrite <- Hsum. clear Hsum.
  induction s as [|v s IH]; [reflexivity|].
  cbn [fold_left length]. rewrite (fold_sum_shift _ s (0 + _)), <- IH.
  destruct k; cbn in *; try discriminate; unfold wire.SizeFixed32, wire.SizeFixed64; lia.
Qed.

Lemma Append_nonempty (k : impl.ProtoKind) (v : impl.GoType k) :
  impl.Append k [] v <> [].
Proof.
  assert (HV : forall x, wire.appendVarintN 9 x <> []).
  { intros x E. pose proof (appendVarintN_length_pos 9 x) as H. rewrite E in H.
    simpl in H. lia. }
  destruct k; cbn; unfold wire.AppendString, wire.AppendBytes, wire.AppendVarint;
    rewrite ?app_nil_l; try apply HV; try discriminate.
  all: intros E; apply app_eq_nil in E; destruct E as [E _]; exact (HV _ E).
Qed.

(** Fuel beyond the length of the payload changes nothing to the loop over
    a packed block: every turn reads at least one byte, so the loop ends by
    running out of bytes and not of fuel. *)
Lemma consumePacked_fuel (k : impl.ProtoKind) (f1 f2 : nat) (b : bytes)
  (s : list (impl.GoType k)) :
  (length b <= f1)%nat -> (length b <= f2)%nat ->
  impl.consumePacked k f1 b s = impl.consumePacked k f2 b s.
Proof.
  revert f2 b s. induction f1 as [|f1 IH]; intros f2 b s H1 H2.
  - destruct b; [|simpl in H1; lia]. destruct f2; reflexivity.
  - destruct b as [|y b]; [destruct f2; reflexivity|].
    destruct f2 as [|f2]; [simpl in H2; lia|].
    cbn [impl.consumePacked].
    destruct (impl.Consume k (y :: b)) as [v n|c] eqn:E; [|reflexivity].
    apply Consume_progress in E.
    apply IH; rewrite length_drop; simpl in H1, H2 |- *; lia.
Qed.

(** The loop over the payload of a packed block recovers the elements. *)
Lemma consumePacked_flat (k : impl.ProtoKind) (s s0 : list (impl.GoType k)) (fuel : nat) :
  Forall (fun v => impl.inRange k v = true) s ->
  (length (concat (map (impl.Append k []) s)) <= fuel)%nat ->
  impl.consumePacked k fuel (concat (map (impl.Append k []) s)) s0 = inl (s0 ++ s).
Proof.
  intros Hs. revert s0 fuel. induction Hs as [|v s Hv Hs IH]; intros s0 fuel Hf.
  - simpl. rewrite app_nil_r. destruct fuel; reflexivity.
  - simpl concat in *. rewrite length_app in Hf.
    pose proof (Append_nonempty k v) as Hne.
    destruct (impl.Append k [] v) as [|y a] eqn:Ea; [congruence|].
    destruct fuel as [|fuel]; [simpl in Hf; lia|].
    change ((y :: a) ++ concat (map (impl.Append k []) s))
      with (y :: (a ++ concat (map (impl.Append k []) s))).
    cbn [impl.consumePacked].
    change (y :: (a ++ concat (map (impl.Append k []) s)))
      with ((y :: a) ++ concat (map (impl.Append k []) s)).
    rewrite <- Ea, (Consume_Append k v _ Hv), drop_app_length.
    rewrite (ToGoType_FromGoType k v Hv), IH.
    + now rewrite <- app_assoc.
    + simpl in Hf. lia.
Qed.

(** The slice coder on a packed block and on one expanded record. *)
Lemma consumeSlice_packed (k : impl.ProtoKind) (s s0 : list (impl.GoType k)) (rest : bytes) :
  impl.Packable (impl.WireTypeOf k) = true ->
  Forall (fun v => impl.inRange k v = true) s ->
  impl.packedSize k s < 2 ^ 63 ->
  let block := wire.AppendVarint [] (uint64 (impl.packedSize k s))
               ++ concat (map (impl.Append k []) s) in
  impl.consumeSlice k (block ++ rest) s0 wire.BytesType
  = impl.Stored (s0 ++ s) (length block).
Proof.
  intros Hp Hs Hn block. subst block.
  pose proof (packedSize_length k s Hp) as Hl.
  unfold uint64. rewrite Z.mod_small by lia. rewrite Hl.
  unfold impl.consumeSlice. cbv zeta. rewrite Hp. cbn [andb].
  change (wire.BytesType =? wire.BytesType) with true. cbv iota.
  change (wire.AppendVarint [] (Z.of_nat (length (concat (map (impl.Append k []) s))))
          ++ concat (map (impl.Append k []) s))
    with (wire.AppendBytes [] (concat (map (impl.Append k []) s))).
  rewrite ConsumeBytes_AppendBytes by lia.
  rewrite (consumePacked_flat k s s0 _ Hs) by lia. reflexivity.
Qed.

Lemma consumeSlice_expanded (k : impl.ProtoKind) (v : impl.GoType k)
  (s0 : list (impl.GoType k)) (rest : bytes) :
  impl.Packable (impl.WireTypeOf k) = true ->
  impl.inRange k v = true ->
  impl.consumeSlice k (impl.Append k [] v ++ rest) s0 (impl.wireTypes k)
  = impl.Stored (s0 ++ [v]) (length (impl.Append k [] v)).
Proof.
  intros Hp Hv. unfold impl.consumeSlice, impl.wireTypes. cbv zeta.
  assert ((impl.Expr (impl.WireTypeOf k) =? wire.BytesType) = false) as ->
    by (destruct k; cbn in *; try discriminate; reflexivity).
  rewrite andb_false_r, Z.eqb_refl. cbn [negb].
  rewrite (Consume_Append k v _ Hv), (ToGoType_FromGoType k v Hv). reflexivity.
Qed.

Section PackedTolerance.

Context {M : Type} (mi : impl.MessageInfo M) (k : impl.ProtoKind).
Context (get : M -> list (impl.GoType k)) (set : list (impl.GoType k) -> M -> M).
Context (f : impl.coderFieldInfo M) (fnum : Z).

Hypothesis Hpackable : impl.Packable (impl.WireTypeOf k) = true.
Hypothesis Hnum : wire.MinValidNumber <= fnum <= wire.MaxValidNumber.
Hypothesis Hfield : impl.fieldByNumber (impl.coderFields mi) fnum = Some f.
Hypothesis Hcoder : impl.funcs_unmarshal f = impl.atOffset get set (impl.consumeSlice k).
Hypothesis get_set : forall p m, get (set p m) = p.
Hypothesis set_set : forall p q m, set p (set q m) = set p m.
Hypothesis set_get : forall m, set (get m) m = m.

Lemma wireTypes_range : 0 <= impl.wireTypes k < 8.
Proof.
  clear. destruct k; cbn;
    unfold wire.VarintType, wire.Fixed32Type, wire.Fixed64Type, wire.BytesType; lia.
Qed.

Lemma unmarshal_expanded_records (s : list (impl.GoType k)) (rest : bytes) (m : M) :
  Forall (fun v => impl.inRange k v = true) s ->
  impl.unmarshalPointer mi
    (concat (map (fun v => wire.AppendVarint [] (wire.EncodeTag fnum (impl.wireTypes k))
                           ++ impl.Append k [] v) s) ++ rest) m
  = impl.unmarshalPointer mi rest (set (get m ++ s) m).
Proof.
  intros Hs. revert m. induction Hs as [|v s Hv Hs IH]; intros m.
  - simpl. now rewrite app_nil_r, set_get.
  - simpl concat. rewrite <- !app_assoc.
    change (wire.AppendVarint [] (wire.EncodeTag fnum (impl.wireTypes k)))
      with (wire.AppendTag [] fnum (impl.wireTypes k)).
    rewrite (unmarshalPointer_step mi _ m fnum (impl.wireTypes k) _
               (ConsumeTag_AppendTag fnum _ _ Hnum wireTypes_range)).
    rewrite drop_app_length, Hfield, Hcoder. unfold impl.atOffset.
    rewrite (consumeSlice_expanded k v (get m) _ Hpackable Hv), drop_app_length.
    rewrite IH, get_set, set_set, <- app_assoc. reflexivity.
Qed.

Lemma unmarshal_packed_record (s : list (impl.GoType k)) (rest : bytes) (m : M) :
  Forall (fun v => impl.inRange k v = true) s ->
  impl.packedSize k s < 2 ^ 63 ->
  impl.unmarshalPointer mi
    (impl.appendPackedSlice k [] s (wire.EncodeTag fnum wire.BytesType) ++ rest) m
  = impl.unmarshalPointer mi rest (set (get m ++ s) m).
Proof.
  intros Hs Hn. unfold impl.appendPackedSlice. cbv zeta.
  destruct s as [|v s]; [simpl; now rewrite app_nil_r, set_get|].
  cbn [length Nat.eqb]. rewrite fold_Append_flat.
  change (wire.AppendVarint [] (wire.EncodeTag fnum wire.BytesType))
    with (wire.AppendTag [] fnum wire.BytesType).
  rewrite (AppendVarint_app (wire.AppendTag [] fnum wire.BytesType)), <- !app_assoc.
  rewrite (unmarshalPointer_step mi _ m fnum wire.BytesType _
             (ConsumeTag_AppendTag fnum wire.BytesType _ Hnum
                ltac:(unfold wire.BytesType; lia))).
  rewrite drop_app_length, Hfield, Hcoder. unfold impl.atOffset.
  rewrite app_assoc.
  rewrite (consumeSlice_packed k (v :: s) (get m) rest Hpackable Hs Hn).
  rewrite drop_app_length. reflexivity.
Qed.

End PackedTolerance.

(** C1.  For a repeated scalar field of a packable kind, whichever of the two
    slice coders it is bound to, the bytes its packed coder writes for a
    sequence of values (one length-delimited block) and the bytes its expanded
    coder writes for the same sequence (one record per element) are both
    accepted, and both leave the same message behind: the one whose field
    holds the former elements followed by that sequence.  The coder for a
    value held in an interface decides alike. *)
Theorem C1_packed_and_expanded_decode_alike
  (k : impl.ProtoKind) (M : Type) (mi : impl.MessageInfo M)
  (get : M -> list (impl.GoType k)) (set : list (impl.GoType k) -> M -> M)
  (f : impl.coderFieldInfo M) (fnum : Z)
  (s : list (impl.GoType k)) (rest : bytes) (m : M) :
  impl.Packable (impl.WireTypeOf k) = true ->
  wire.MinValidNumber <= fnum <= wire.MaxValidNumber ->
  impl.fieldByNumber (impl.coderFields mi) fnum = Some f ->
  impl.funcs_unmarshal f = impl.atOffset get set (impl.unmarshal (impl.coderSlice k)) \/
  impl.funcs_unmarshal f = impl.atOffset get set (impl.unmarshal (impl.coderPackedSlice k)) ->
  (forall p m, get (set p m) = p) ->
  (forall p q m, set p (set q m) = set p m) ->
  (forall m, set (get m) m = m) ->
  Forall (fun v => impl.inRange k v = true) s ->
  impl.packedSize k s < 2 ^ 63 ->
  let packed :=
    impl.marshal (impl.coderPackedSlice k) [] s (wire.EncodeTag fnum wire.BytesType) in
  let expanded :=
    impl.marshal (impl.coderSlice k) [] s (wire.EncodeTag fnum (impl.wireTypes k)) in
  impl.unmarshalPointer mi (packed ++ rest) m
    = impl.unmarshalPointer mi rest (set (get m ++ s) m) /\
  impl.unmarshalPointer mi (expanded ++ rest) m
    = impl.unmarshalPointer mi rest (set (get m ++ s) m) /\
  impl.unmarshalPointer mi packed m = inl (set (get m ++ s) m) /\
  impl.unmarshalPointer mi expanded m = inl (set (get m ++ s) m) /\
  (forall b p wtyp, impl.iunmarshal (impl.coderSliceIface k) b p wtyp
                    = impl.unmarshal (impl.coderSlice k) b p wtyp).
Proof.
  intros Hp Hn Hf Hc Hgs Hss Hsg Hs Hsz packed expanded.
  assert (Hc' : impl.funcs_unmarshal f = impl.atOffset get set (impl.consumeSlice k))
    by (destruct Hc as [Hc|Hc]; exact Hc).
  assert (Hpk : forall r, impl.unmarshalPointer mi (packed ++ r) m
                          = impl.unmarshalPointer mi r (set (get m ++ s) m)).
  { intros r. subst packed. cbn [impl.marshal impl.coderPackedSlice].
    apply (unmarshal_packed_record mi k get set f fnum); assumption. }
  assert (Hex : forall r, impl.unmarshalPointer mi (expanded ++ r) m
                          = impl.unmarshalPointer mi r (set (get m ++ s) m)).
  { intros r. subst expanded. cbn [impl.marshal impl.coderSlice].
    rewrite appendSlice_flat, app_nil_l.
    apply (unmarshal_expanded_records mi k get set f fnum); assumption. }
  split; [apply Hpk|]. split; [apply Hex|].
  split; [|split].
  - rewrite <- (app_nil_r packed), Hpk. reflexivity.
  - rewrite <- (app_nil_r expanded), Hex. reflexivity.
  - reflexivity.
Qed.

(** ** Accessors *)


Lemma getField_In (n : Z) (fs : list (Z * protoreflect.Value)) (v : protoreflect.Value) :
  protoreflect.getField n fs = Some v -> In (n, v) fs.
Proof.
  induction fs as [|[n' v'] fs IH]; simpl; [discriminate|].
  destruct (n' =? n) eqn:E.
  - intros [= <-]. apply Z.eqb_eq in E. subst. now left.
  - intros H. right. now apply IH.
Qed.

(** ** Printing the fields of a message *)



Section PrintFacts.

Import protoreflect proto prototext.



Lemma marshalFieldsWith_nil (entry : FieldDescriptor -> Value -> Result string)
  (fds : list FieldDescriptor) :
  marshalFieldsWith entry fds [] = Ok EmptyString.
Proof.
  unfold marshalFieldsWith. induction fds as [|fd fds IH]; [reflexivity|].
  cbn [fold_right]. rewrite IH. reflexivity.
Qed.


End PrintFacts.

(** ** Required fields *)

Section RequiredFacts.

Import protoreflect proto.




End RequiredFacts.


(** Scenario 6 of the specification, and the rows of [TestMarshal] on
    required fields that are unset, at the top and below it.  (The row with
    some of the required fields set also sets [req_double], which is left
    out with the floating-point kinds.) *)
Example marshal_required_fields_not_set :
  prototext.Marshal {| MarshalOptions.AllowPartial := false |}
    testprotos.files testprotos.pb2_Requireds (Some [])
  = proto.Done prototext.nl
      (Some {| proto.kind := proto.MissingRequired; proto.path := "req_bool" |}).
Proof. vm_compute. reflexivity. Qed.

Example marshal_required_fields_partially_set :
  prototext.Marshal {| MarshalOptions.AllowPartial := false |}
    testprotos.files testprotos.pb2_Requireds
    (Some [ (1, protoreflect.VBool false); (2, protoreflect.VInt 3203386110);
            (4, protoreflect.VString "hello"); (5, protoreflect.VEnum 1) ])
  = proto.Done ("req_bool: false" ++ prototext.nl ++
                "req_sfixed64: 3203386110" ++ prototext.nl ++
                "req_string: " ++ testprotos.q "hello" ++ prototext.nl ++
                "req_enum: ONE" ++ prototext.nl)%string
      (Some {| proto.kind := proto.MissingRequired; proto.path := "req_nested" |}).
Proof. vm_compute. reflexivity. Qed.

Example marshal_indirect_required_field :
  prototext.Marshal {| MarshalOptions.AllowPartial := false |}
    testprotos.files testprotos.pb2_IndirectRequired
    (Some [(1, protoreflect.VMessage [])])
  = proto.Done ("opt_nested: {}" ++ prototext.nl)%string
      (Some {| proto.kind := proto.MissingRequired;
               proto.path := "opt_nested.req_string" |}).
Proof. vm_compute. reflexivity. Qed.

Example marshal_indirect_required_field_in_repeated :
  prototext.Marshal {| MarshalOptions.AllowPartial := false |}
    testprotos.files testprotos.pb2_IndirectRequired
    (Some [(2, protoreflect.VList [protoreflect.VMessage []])])
  = proto.Done ("rpt_nested: {}" ++ prototext.nl)%string
      (Some {| proto.kind := proto.MissingRequired;
               proto.path := "rpt_nested[0].req_string" |}).
Proof. vm_compute. reflexivity. Qed.

(** C6.  [AllowPartial] suppresses the validation of required fields, in
    marshal and in unmarshal: whenever the operation without the option
    ends with an error next to its result, that error is [MissingRequired],
    and the same operation with the option returns the same output, or the
    same message, and no error. *)
Theorem C6_allow_partial_suppresses_validation
  (files : protoreflect.Files) (md : protoreflect.MessageDescriptor) :
  (forall m out e,
     prototext.Marshal {| MarshalOptions.AllowPartial := false |} files md m
       = proto.Done out (Some e) ->
     proto.kind e = proto.MissingRequired /\
     prototext.Marshal {| MarshalOptions.AllowPartial := true |} files md m
       = proto.Done out None) /\
  (forall binaryMarshal resolver input m e,
     prototext.Unmarshal binaryMarshal
       {| UnmarshalOptions.AllowPartial := false; UnmarshalOptions.Resolver := resolver |}
       files md input
       = proto.Done m (Some e) ->
     proto.kind e = proto.MissingRequired /\
     prototext.Unmarshal binaryMarshal
       {| UnmarshalOptions.AllowPartial := true; UnmarshalOptions.Resolver := resolver |}
       files md input
       = proto.Done m None).
Proof.
  split.
  - intros m out e. unfold prototext.Marshal, proto.IsInitialized.
    destruct (prototext.marshalMessage files md m) as [body|e']; [|discriminate].
    cbn [MarshalOptions.AllowPartial].
    destruct (proto.missingRequired files (Some md) EmptyString _); [|discriminate].
    intros [= <- <-]. split; reflexivity.
  - intros bm resolver input m e. unfold prototext.Unmarshal, proto.IsInitialized.
    cbn [UnmarshalOptions.AllowPartial UnmarshalOptions.Resolver].
    destruct (prototext.unmarshalMessage bm resolver files md (text.MessageV input))
      as [fs|e']; [|discriminate].
    destruct (proto.missingRequired files (Some md) EmptyString _); [|discriminate].
    intros [= <- <-]. split; reflexivity.
Qed.

Example unmarshal_required_fields_partially_set :
  prototext.Unmarshal testprotos.noBinary
    {| UnmarshalOptions.AllowPartial := false; UnmarshalOptions.Resolver := [] |}
    testprotos.files testprotos.pb2_Requireds
    [ (text.Field "req_bool", text.IdentV "false");
      (text.Field "req_sfixed64", text.IntV 3203386110);
      (text.Field "req_string", text.StringV "hello");
      (text.Field "req_enum", text.IdentV "ONE") ]
  = proto.Done
      (Some [ (1, protoreflect.VBool false); (2, protoreflect.VInt 3203386110);
              (4, protoreflect.VString "hello"); (5, protoreflect.VEnum 1) ])
      (Some {| proto.kind := proto.MissingRequired; proto.path := "req_nested" |}).
Proof. vm_compute. reflexivity. Qed.

(** ** Entries of a text message *)

Section EntryFacts.

Import protoreflect proto prototext.

Lemma foldM_app {S A : Type} (f : S -> A -> Result S) (l1 l2 : list A) (s : S) :
  foldM f (l1 ++ l2) s
  = match foldM f l1 s with
    | Ok s' => foldM f l2 s'
    | Err e => Err e
    end.
Proof.
  revert s. induction l1 as [|a l1 IH]; intros s; [reflexivity|].
  cbn [app foldM]. destruct (f s a); [apply IH | reflexivity].
Qed.

Lemma foldM_cons {S A : Type} (f : S -> A -> Result S) (a : A) (l : list A) (s : S) :
  foldM f (a :: l) s
  = match f s a with
    | Ok s' => foldM f l s'
    | Err e => Err e
    end.
Proof. reflexivity. Qed.

Context (files : Files).
Context (message : MessageDescriptor -> text.Value -> Result (list (Z * Value))).
Context (md : MessageDescriptor).

Abbreviation step := (unmarshalEntry files message md).

(** An entry that every state refuses aborts the message, wherever it
    stands; with the error of that entry when the entries before it are
    accepted. *)
Lemma foldM_refused (e : text.Name * text.Value) (x : Error)
  (pre post : list (text.Name * text.Value)) (st : state) :
  (forall st', step st' e = Err x) ->
  (exists y, foldM step (pre ++ e :: post) st = Err y) /\
  (forall st', foldM step pre st = Ok st' ->
               foldM step (pre ++ e :: post) st = Err x).
Proof.
  intros H. rewrite foldM_app.
  destruct (foldM step pre st) as [st'|y].
  - rewrite foldM_cons, H. split; [eauto | reflexivity].
  - split; [eauto | discriminate].
Qed.







(** A bracketed name resolves to nothing. *)
Lemma step_extension (st : state) (ename : string) (tv : text.Value) :
  step st (text.Extension ename, tv) = Err {| kind := ResolveFailure; path := ename |}.
Proof. reflexivity. Qed.

End EntryFacts.

(** ** Whole text messages *)

Section MessageFacts.

Import protoreflect proto prototext.

Context (binaryMarshal : MessageDescriptor -> Message -> Result string).
Context (o : UnmarshalOptions.t) (files : Files).

Abbreviation resolver := (UnmarshalOptions.Resolver o).

Abbreviation entries_of md :=
  (foldM (unmarshalEntry files (unmarshalMessage binaryMarshal resolver files) md)).

(** Every literal but the expanded form of an [Any] is read entry by
    entry. *)
Lemma unmarshalMessage_entries (md : MessageDescriptor)
  (input : list (text.Name * text.Value)) :
  String.eqb (FullName md) AnyName && expandedForm input = false ->
  unmarshalMessage binaryMarshal resolver files md (text.MessageV input)
  = bind (entries_of md input start) (fun st => Ok (fields st)).
Proof.
  intros H. cbn [unmarshalMessage].
  destruct (String.eqb (FullName md) AnyName); [|reflexivity].
  destruct input as [|[[fname|ename|n] tv] [|e2 input]]; try reflexivity.
  discriminate.
Qed.

Lemma Unmarshal_entries (md : MessageDescriptor)
  (input : list (text.Name * text.Value)) :
  String.eqb (FullName md) AnyName && expandedForm input = false ->
  Unmarshal binaryMarshal o files md input
  = match entries_of md input start with
    | Err e => Aborted e
    | Ok st =>
        if UnmarshalOptions.AllowPartial o then Done (Some (fields st)) None
        else Done (Some (fields st)) (IsInitialized files md (Some (fields st)))
    end.
Proof.
  intros H. unfold Unmarshal. rewrite (unmarshalMessage_entries md input H).
  destruct (entries_of md input start); reflexivity.
Qed.



End MessageFacts.




Example unmarshal_message_contains_unknown_field :
  prototext.Unmarshal testprotos.noBinary
    {| UnmarshalOptions.AllowPartial := false; UnmarshalOptions.Resolver := [] |}
    testprotos.files testprotos.pb2_Scalars
    [ (text.Field "unknown_field", text.IntV 123) ]
  = proto.Aborted {| proto.kind := proto.UnknownField; proto.path := "unknown_field" |}.
Proof. vm_compute. reflexivity. Qed.

Example unmarshal_ignore_reserved_field :
  prototext.Unmarshal testprotos.noBinary
    {| UnmarshalOptions.AllowPartial := false; UnmarshalOptions.Resolver := [] |}
    testprotos.files testprotos.pb2_Nests
    [ (text.Field "reserved_field", text.StringV "ignore this") ]
  = proto.Done (Some []) None.
Proof. vm_compute. reflexivity. Qed.

Example unmarshal_proto2_duplicate_singular_field :
  prototext.Unmarshal testprotos.noBinary
    {| UnmarshalOptions.AllowPartial := false; UnmarshalOptions.Resolver := [] |}
    testprotos.files testprotos.pb2_Scalars
    [ (text.Field "opt_bool", text.IdentV "true");
      (text.Field "opt_bool", text.IdentV "false") ]
  = proto.Aborted {| proto.kind := proto.DuplicateField; proto.path := "opt_bool" |}.
Proof. vm_compute. reflexivity. Qed.

Example unmarshal_proto3_more_duplicate_singular_field :
  prototext.Unmarshal testprotos.noBinary
    {| UnmarshalOptions.AllowPartial := false; UnmarshalOptions.Resolver := [] |}
    testprotos.files testprotos.pb3_Scalars
    [ (text.Field "s_bool", text.IdentV "false");
      (text.Field "s_string", text.StringV EmptyString);
      (text.Field "s_bool", text.IdentV "true") ]
  = proto.Aborted {| proto.kind := proto.DuplicateField; proto.path := "s_bool" |}.
Proof. vm_compute. reflexivity. Qed.

(** ** The two text forms of [Any] *)

Lemma Any_is_initialized (files : protoreflect.Files) (u v : string) :
  proto.IsInitialized files prototext.AnyDescriptor
    (Some (prototext.setSingular prototext.valueField (protoreflect.VBytes v)
             (prototext.setSingular prototext.typeURLField (protoreflect.VString u) [])))
  = None.
Proof.
  unfold prototext.setSingular. cbn [prototext.hasPresence prototext.typeURLField
    prototext.valueField protoreflect.Card protoreflect.ContainingOneof negb andb
    protoreflect.isScalarZero protoreflect.Number].
  destruct (String.eqb u EmptyString), (String.eqb v EmptyString); reflexivity.
Qed.

(** The expanded form of an [Any] is read as the message it holds. *)
Lemma unmarshalMessage_expanded
  (binaryMarshal : protoreflect.MessageDescriptor -> protoreflect.Message
                   -> proto.Result string)
  (resolver files : protoreflect.Files) (md : protoreflect.MessageDescriptor)
  (url : string) (tv : text.Value) :
  String.eqb (protoreflect.FullName md) prototext.AnyName = true ->
  prototext.unmarshalMessage binaryMarshal resolver files md
    (text.MessageV [(text.Extension url, tv)])
  = match prototext.FindMessageByURL resolver url with
    | None => prototext.err proto.ResolveFailure url
    | Some md2 =>
        proto.bind (prototext.unmarshalMessage binaryMarshal resolver files md2 tv)
          (fun fs2 =>
             proto.bind (binaryMarshal md2 (Some fs2))
               (fun b =>
                  proto.Ok
                    (prototext.setSingular prototext.valueField (protoreflect.VBytes b)
                       (prototext.setSingular prototext.typeURLField
                          (protoreflect.VString url) []))))
    end.
Proof. intros H. cbn [prototext.unmarshalMessage]. rewrite H. reflexivity. Qed.

(** A literal with a bracketed entry that is not the expanded form of an
    [Any] is refused: the messages of the model declare no extension. *)
Lemma bracketed_entry_refused
  (binaryMarshal : protoreflect.MessageDescriptor -> protoreflect.Message
                   -> proto.Result string)
  (o : UnmarshalOptions.t) (files : protoreflect.Files)
  (md : protoreflect.MessageDescriptor)
  (input : list (text.Name * text.Value)) (url : string) (tv : text.Value) :
  In (text.Extension url, tv) input ->
  String.eqb (protoreflect.FullName md) prototext.AnyName && expandedForm input = false ->
  exists e, prototext.Unmarshal binaryMarshal o files md input = proto.Aborted e.
Proof.
  intros Hin Hx. rewrite (Unmarshal_entries _ _ _ _ _ Hx).
  apply in_split in Hin. destruct Hin as [pre [post ->]].
  destruct (foldM_refused files (prototext.unmarshalMessage binaryMarshal
              (UnmarshalOptions.Resolver o) files) md (text.Extension url, tv)
              {| proto.kind := proto.ResolveFailure; proto.path := url |}
              pre post prototext.start) as [[y Hy] _].
  { intros st'. apply step_extension. }
  rewrite Hy. eauto.
Qed.

(** C8.  Text unmarshal of an [Any] accepts the expanded form, a bracketed
    type URL that the resolver knows with the message inside, and then the
    [Any] holds that URL and the binary encoding of the message; it accepts
    the form of the two fields [type_url] and [value]; and it refuses every
    input that has both a bracketed entry and a plain one. *)
Theorem C8_any_expanded_or_fields_but_not_both
  (binaryMarshal : protoreflect.MessageDescriptor -> protoreflect.Message
                   -> proto.Result string)
  (o : UnmarshalOptions.t) (files : protoreflect.Files) :
  (forall url body md2 fs2 b,
     prototext.FindMessageByURL (UnmarshalOptions.Resolver o) url = Some md2 ->
     prototext.unmarshalMessage binaryMarshal (UnmarshalOptions.Resolver o) files md2
       (text.MessageV body) = proto.Ok fs2 ->
     binaryMarshal md2 (Some fs2) = proto.Ok b ->
     prototext.Unmarshal binaryMarshal o files prototext.AnyDescriptor
       [(text.Extension url, text.MessageV body)]
     = proto.Done
         (Some (prototext.setSingular prototext.valueField (protoreflect.VBytes b)
                  (prototext.setSingular prototext.typeURLField
                     (protoreflect.VString url) [])))
         None) /\
  (forall url v,
     prototext.validUTF8 url = true ->
     prototext.Unmarshal binaryMarshal o files prototext.AnyDescriptor
       [(text.Field "type_url", text.StringV url); (text.Field "value", text.StringV v)]
     = proto.Done
         (Some (prototext.setSingular prototext.valueField (protoreflect.VBytes v)
                  (prototext.setSingular prototext.typeURLField
                     (protoreflect.VString url) [])))
         None) /\
  (forall input url tv fname tv',
     In (text.Extension url, tv) input ->
     In (text.Field fname, tv') input ->
     exists e,
       prototext.Unmarshal binaryMarshal o files prototext.AnyDescriptor input
       = proto.Aborted e).
Proof.
  split; [|split].
  - intros url body md2 fs2 b Hurl Hbody Hbin.
    unfold prototext.Unmarshal.
    rewrite unmarshalMessage_expanded by reflexivity.
    rewrite Hurl, Hbody. cbn [proto.bind]. rewrite Hbin. cbn [proto.bind].
    rewrite Any_is_initialized. destruct (UnmarshalOptions.AllowPartial o); reflexivity.
  - intros url v Hutf.
    rewrite Unmarshal_entries by apply andb_false_r.
    assert (E1 : prototext.unmarshalEntry files
                   (prototext.unmarshalMessage binaryMarshal (UnmarshalOptions.Resolver o) files)
                   prototext.AnyDescriptor prototext.start
                   (text.Field "type_url", text.StringV url)
                 = proto.Ok {| prototext.fields :=
                                 prototext.setSingular prototext.typeURLField
                                   (protoreflect.VString url) [];
                               prototext.seenNums := {[1]} ∪ ∅;
                               prototext.seenOneofs := ∅ |}).
    { unfold prototext.unmarshalEntry. cbn -[prototext.setSingular]. rewrite Hutf. reflexivity. }
    rewrite foldM_cons, E1.
    assert (E2 : forall fs,
                 prototext.unmarshalEntry files
                   (prototext.unmarshalMessage binaryMarshal (UnmarshalOptions.Resolver o) files)
                   prototext.AnyDescriptor
                   {| prototext.fields := fs; prototext.seenNums := {[1]} ∪ ∅;
                      prototext.seenOneofs := ∅ |}
                   (text.Field "value", text.StringV v)
                 = proto.Ok {| prototext.fields :=
                                 prototext.setSingular prototext.valueField
                                   (protoreflect.VBytes v) fs;
                               prototext.seenNums := {[2]} ∪ ({[1]} ∪ ∅);
                               prototext.seenOneofs := ∅ |}).
    { intros fs. unfold prototext.unmarshalEntry. cbn -[prototext.setSingular].
      rewrite bool_decide_eq_false_2; [reflexivity|].
      intros Hin. apply elem_of_union in Hin. destruct Hin as [Hin|Hin].
      - apply elem_of_singleton in Hin. discriminate.
      - apply elem_of_empty in Hin. exact Hin. }
    rewrite foldM_cons, E2. cbn [prototext.foldM prototext.fields].
    rewrite Any_is_initialized. destruct (UnmarshalOptions.AllowPartial o); reflexivity.
  - intros input url tv fname tv' Hext Hfield.
    apply (bracketed_entry_refused _ _ _ _ _ url tv Hext).
    apply andb_false_iff. right.
    destruct input as [|a [|b input]]; [destruct Hext| |].
    + destruct Hext as [->|[]]. destruct Hfield as [Hf|[]]. discriminate.
    + destruct a as [[| |] ?]; reflexivity.
Qed.

(** ** Map fields *)

Section MapFacts.

Import protoreflect proto prototext.

Lemma MapKey_eqb_eq (a b : MapKey) : MapKey_eqb a b = true <-> a = b.
Proof.
  destruct a as [x|x|x], b as [y|y|y]; cbn; try (split; [discriminate | congruence]).
  - rewrite Bool.eqb_true_iff. split; congruence.
  - rewrite Z.eqb_eq. split; congruence.
  - rewrite String.eqb_eq. split; congruence.
Qed.

Lemma MapKey_eqb_refl (a : MapKey) : MapKey_eqb a a = true.
Proof. now apply MapKey_eqb_eq. Qed.

Lemma mapSet_keys {A : Type} (key key' : MapKey) (v : A) (es : list (MapKey * A)) :
  In key (map fst (mapSet key' v es)) <-> key = key' \/ In key (map fst es).
Proof.
  induction es as [|[k0 v0] es IH]; cbn [mapSet map fst In].
  - intuition.
  - destruct (MapKey_eqb k0 key') eqn:E0; cbn [map fst In].
    + apply MapKey_eqb_eq in E0. subst k0. intuition.
    + rewrite IH. intuition.
Qed.

(** Writing an entry keeps the keys of a map distinct. *)
Lemma mapSet_NoDup {A : Type} (key : MapKey) (v : A) (es : list (MapKey * A)) :
  List.NoDup (map fst es) -> List.NoDup (map fst (mapSet key v es)).
Proof.
  induction es as [|[k0 v0] es IH]; cbn [mapSet map fst]; intros H.
  - constructor; [intros [] | constructor].
  - inversion H as [|? ? Hnin Hnd]; subst.
    destruct (MapKey_eqb k0 key) eqn:E0; cbn [map fst].
    + apply MapKey_eqb_eq in E0. subst k0. constructor; assumption.
    + constructor; [|apply IH, Hnd].
      rewrite mapSet_keys. intros [->|Hin]; [|contradiction].
      rewrite MapKey_eqb_refl in E0. discriminate.
Qed.

Abbreviation writeAll :=
  (fold_left (fun es '(k, v) => mapSet k v es)).

Lemma writeAll_NoDup {A : Type} (writes es : list (MapKey * A)) :
  List.NoDup (map fst es) -> List.NoDup (map fst (writeAll writes es)).
Proof.
  revert es. induction writes as [|[k v] writes IH]; intros es H; [exact H|].
  cbn [fold_left]. apply IH, mapSet_NoDup, H.
Qed.

Lemma getField_setField (n n' : Z) (v : Value) (fs : list (Z * Value)) :
  getField n (setField n' v fs) = if n' =? n then Some v else getField n fs.
Proof.
  induction fs as [|[n0 v0] fs IH]; cbn [setField getField].
  - destruct (n' =? n); reflexivity.
  - destruct (n0 =? n') eqn:E0; cbn [getField].
    + apply Z.eqb_eq in E0. subst n0. destruct (n' =? n); reflexivity.
    + rewrite IH. destruct (n' =? n) eqn:E2; [|reflexivity].
      apply Z.eqb_eq in E2. subst n'. now rewrite E0.
Qed.

Lemma getField_clearField (n n' : Z) (fs : list (Z * Value)) :
  getField n (clearField n' fs) = if n' =? n then None else getField n fs.
Proof.
  induction fs as [|[n0 v0] fs IH]; cbn [clearField getField].
  - destruct (n' =? n); reflexivity.
  - destruct (n0 =? n') eqn:E0; cbn [getField].
    + rewrite IH. apply Z.eqb_eq in E0. subst n0.
      destruct (n' =? n); reflexivity.
    + rewrite IH. destruct (n' =? n) eqn:E2; [|reflexivity].
      apply Z.eqb_eq in E2. subst n'. now rewrite E0.
Qed.

Lemma getField_setSingular_ne (n : Z) (fd : FieldDescriptor) (v : Value)
  (fs : list (Z * Value)) :
  Number fd <> n -> getField n (setSingular fd v fs) = getField n fs.
Proof.
  intros H. apply Z.eqb_neq in H. unfold setSingular.
  destruct (negb (hasPresence fd) && isScalarZero v).
  - now rewrite getField_clearField, H.
  - now rewrite getField_setField, H.
Qed.

Lemma findByTextName_In (name : string) (fds : list FieldDescriptor) (fd : FieldDescriptor) :
  findByTextName name fds = Some fd -> In fd fds.
Proof.
  induction fds as [|fd0 fds IH]; cbn [findByTextName]; [discriminate|].
  destruct (String.eqb (textName fd0) name).
  - intros [= <-]. now left.
  - intros H. right. now apply IH.
Qed.

End MapFacts.

Section LastFacts.

Import protoreflect.

Lemma lastFor_nil {K A : Type} (k : K) (v : A) : ~ lastFor k v [].
Proof. intros (pre & post & H & _). destruct pre; discriminate. Qed.

Lemma lastFor_snoc {K A : Type} (k k' : K) (v v' : A) (writes : list (K * A)) :
  lastFor k v (writes ++ [(k', v')])
  <-> (k' = k /\ v' = v) \/ (k' <> k /\ lastFor k v writes).
Proof.
  split.
  - intros (pre & post & E & Hn).
    destruct post as [|p post _] using rev_ind.
    + apply app_inj_tail in E. destruct E as [_ [= -> ->]]. now left.
    + rewrite app_comm_cons, app_assoc in E. apply app_inj_tail in E.
      destruct E as [-> <-]. right. split.
      * intros ->. apply Hn. rewrite map_app, in_app_iff. right. now left.
      * exists pre, post. split; [reflexivity|].
        intros Hin. apply Hn. rewrite map_app, in_app_iff. now left.
  - intros [[-> ->]|[Hne (pre & post & -> & Hn)]].
    + exists writes, []. split; [reflexivity | intros []].
    + exists pre, (post ++ [(k', v')]). split.
      * now rewrite <- app_assoc.
      * rewrite map_app, in_app_iff. intros [Hin|[Hin|[]]]; [now apply Hn | now apply Hne].
Qed.

Lemma lastFor_In {K A : Type} (k : K) (v : A) (writes : list (K * A)) :
  lastFor k v writes -> In k (map fst writes).
Proof.
  intros (pre & post & -> & _). rewrite map_app, in_app_iff. right. now left.
Qed.

Lemma In_mapSet {A : Type} (k k' : MapKey) (v v' : A) (es : list (MapKey * A)) :
  List.NoDup (map fst es) ->
  In (k, v) (mapSet k' v' es)
  <-> (k' = k /\ v' = v) \/ (k' <> k /\ In (k, v) es).
Proof.
  induction es as [|[k0 v0] es IH]; cbn [mapSet map fst]; intros Hnd.
  - cbn [In]. split.
    + intros [H|[]]. injection H as -> ->. now left.
    + intros [[-> ->]|[_ []]]. now left.
  - inversion Hnd as [|? ? Hnin Hnd']; subst.
    destruct (MapKey_eqb k0 k') eqn:E0.
    + apply MapKey_eqb_eq in E0. subst k0. cbn [In]. split.
      * intros [[= -> ->]|Hin]; [now left|]. right. split; [|now right].
        intros ->. apply Hnin. apply (in_map fst) in Hin. exact Hin.
      * intros [[-> ->]|[Hne [[= ->]|Hin]]]; [now left | contradiction | now right].
    + assert (Hne : k0 <> k').
      { intros ->. rewrite MapKey_eqb_refl in E0. discriminate. }
      cbn [In]. rewrite (IH Hnd'). split.
      * intros [[= -> ->]|[[-> ->]|[Hne' Hin]]].
        -- right. split; [congruence | now left].
        -- now left.
        -- right. split; [exact Hne' | now right].
      * intros [[-> ->]|[Hne' [[= -> ->]|Hin]]].
        -- right. now left.
        -- now left.
        -- right. right. split; assumption.
Qed.

(** After a sequence of writes a map holds, for every key written, the
    value written last, and what it held for every other key. *)
Lemma In_writeAll {A : Type} (k : MapKey) (v : A) (writes es : list (MapKey * A)) :
  List.NoDup (map fst es) ->
  In (k, v) (fold_left (fun es '(k, v) => mapSet k v es) writes es)
  <-> lastFor k v writes \/ (~ In k (map fst writes) /\ In (k, v) es).
Proof.
  induction writes as [|[k' v'] writes IH] using rev_ind; intros Hnd.
  - cbn [fold_left map In]. split.
    + intros H. right. split; [intros [] | exact H].
    + intros [H|[_ H]]; [now apply lastFor_nil in H | exact H].
  - rewrite fold_left_app. cbn [fold_left].
    rewrite (In_mapSet _ _ _ _ _ (writeAll_NoDup writes es Hnd)).
    rewrite (IH Hnd), lastFor_snoc, map_app, in_app_iff. cbn [map fst In].
    split.
    + intros [H|[Hne [H|[Hn H]]]].
      * left. now left.
      * left. right. split; assumption.
      * right. split; [|exact H]. intros [Hin|[Heq|[]]]; [now apply Hn | now apply Hne].
    + intros [[H|[Hne H]]|[Hn H]].
      * now left.
      * right. split; [exact Hne | now left].
      * right. split; [intros ->; apply Hn; right; now left|].
        right. split; [|exact H]. intros Hin. apply Hn. now left.
Qed.

Lemma lastFor_map {K K' A : Type} (f : K -> K') (k : K) (v : A) (writes : list (K * A)) :
  (forall a b, f a = f b -> a = b) ->
  lastFor (f k) v (map (fun e => (f (fst e), snd e)) writes) <-> lastFor k v writes.
Proof.
  intros Hinj. induction writes as [|[k' v'] writes IH] using rev_ind.
  - split; intros H; now apply lastFor_nil in H.
  - rewrite map_app. cbn [map fst snd]. rewrite !lastFor_snoc, IH. split.
    + intros [[E ->]|[Hne H]].
      * left. split; [now apply Hinj | reflexivity].
      * right. split; [congruence | exact H].
    + intros [[-> ->]|[Hne H]].
      * now left.
      * right. split; [intros E; apply Hne, Hinj, E | exact H].
Qed.

End LastFacts.

Section MapFieldFacts.

Import protoreflect proto prototext.

Context (files : Files).
Context (message : MessageDescriptor -> text.Value -> Result (list (Z * Value))).
Context (md : MessageDescriptor) (fd : FieldDescriptor) (key : Kind).

Hypothesis Hcard : Card fd = Map key.
Hypothesis Hunique :
  forall fd', In fd' (Fields md) -> Number fd' = Number fd -> fd' = fd.

Abbreviation writeEntry :=
  (fun (es : list (MapKey * Value)) (e : text.Value) =>
     bind (message (mapEntry fd key) e)
       (fun efs => let '(k, v) := entryPair fd key efs in Ok (mapSet k v es))).

Lemma writeEntry_reads (es es' : list (MapKey * Value)) (e : text.Value) :
  writeEntry es e = Ok es' ->
  exists kv, readsAs message fd key e kv /\ es' = mapSet (fst kv) (snd kv) es.
Proof.
  cbv beta. destruct (message (mapEntry fd key) e) as [efs|] eqn:E; cbn [bind];
    [|discriminate].
  destruct (entryPair fd key efs) as [k v] eqn:Ep. intros [= <-].
  exists (k, v). split; [exists efs; split; [exact E | now rewrite Ep] | reflexivity].
Qed.

Lemma foldM_writeEntry (elems : list text.Value) (es es' : list (MapKey * Value)) :
  foldM writeEntry elems es = Ok es' ->
  exists writes,
    Forall2 (readsAs message fd key) elems writes /\
    es' = fold_left (fun es '(k, v) => mapSet k v es) writes es.
Proof.
  revert es. induction elems as [|e elems IH]; intros es.
  - intros [= <-]. exists []. split; [constructor | reflexivity].
  - rewrite foldM_cons. destruct (writeEntry es e) as [es1|] eqn:E; [|discriminate].
    intros H. apply writeEntry_reads in E. destruct E as [[k v] [Hr ->]].
    apply IH in H. destruct H as [writes [Hw ->]].
    exists ((k, v) :: writes). split; [constructor; assumption | reflexivity].
Qed.

(** One entry of the message: the map of [fd] changes by the writes of the
    literals that the entry addresses to [fd], and by nothing else. *)
Lemma step_map (st st' : state) (e : text.Name * text.Value) :
  unmarshalEntry files message md st e = Ok st' ->
  exists writes,
    Forall2 (readsAs message fd key) (literalsFor md fd [e]) writes /\
    mapOf (getField (Number fd) (fields st'))
    = fold_left (fun es '(k, v) => mapSet k v es) writes
        (mapOf (getField (Number fd) (fields st))).
Proof.
  destruct e as [[fname|ename|n] tv]; unfold unmarshalEntry, err; try discriminate.
  cbn [literalsFor flat_map]. rewrite app_nil_r.
  destruct (findByTextName fname (Fields md)) as [fd'|] eqn:Ef.
  - pose proof (findByTextName_In _ _ _ Ef) as Hin.
    destruct (Number fd' =? Number fd) eqn:En.
    + apply Z.eqb_eq in En. pose proof (Hunique fd' Hin En) as ->. rewrite Hcard.
      destruct (overElements _ tv _) as [es'|] eqn:Eo; cbn [bind]; [|discriminate].
      intros [= <-]. cbn [fields]. rewrite getField_setField, Z.eqb_refl. cbn [mapOf].
      unfold overElements in Eo. destruct tv as [z|s|s|entries|elems].
      5: now apply foldM_writeEntry in Eo.
      all: apply writeEntry_reads in Eo; destruct Eo as [[k v] [Hr ->]];
           exists [(k, v)]; split; [repeat constructor; exact Hr | reflexivity].
    + exists []. split; [constructor|]. cbn [fold_left]. revert H.
      apply Z.eqb_neq in En.
      destruct (Card fd').
      1-3: destruct (bool_decide (Number fd' ∈ seenNums st)); [discriminate|];
           destruct (ContainingOneof fd') as [od|];
           [destruct (bool_decide (od ∈ seenOneofs st)); [discriminate|]|];
           cbn [bind];
           destruct (unmarshalSingle files message (FieldKind fd') fname tv);
           cbn [bind]; [|discriminate| |discriminate];
           intros [= <-]; cbn [fields]; now rewrite getField_setSingular_ne.
      * destruct (overElements _ tv _); cbn [bind]; [|discriminate].
        intros [= <-]. cbn [fields]. rewrite getField_setField.
        apply Z.eqb_neq in En. now rewrite En.
      * destruct (overElements _ tv _); cbn [bind]; [|discriminate].
        intros [= <-]. cbn [fields]. rewrite getField_setField.
        apply Z.eqb_neq in En. now rewrite En.
  - destruct (existsb _ _); [|discriminate]. intros [= <-].
    exists []. split; [constructor | reflexivity].
Qed.

Lemma literalsFor_cons (e : text.Name * text.Value) (l : list (text.Name * text.Value)) :
  literalsFor md fd (e :: l) = literalsFor md fd [e] ++ literalsFor md fd l.
Proof. unfold literalsFor. cbn [flat_map]. now rewrite app_nil_r. Qed.

Lemma foldM_map (l : list (text.Name * text.Value)) (st st' : state) :
  foldM (unmarshalEntry files message md) l st = Ok st' ->
  exists writes,
    Forall2 (readsAs message fd key) (literalsFor md fd l) writes /\
    mapOf (getField (Number fd) (fields st'))
    = fold_left (fun es '(k, v) => mapSet k v es) writes
        (mapOf (getField (Number fd) (fields st))).
Proof.
  revert st. induction l as [|e l IH]; intros st.
  - intros [= <-]. exists []. split; [constructor | reflexivity].
  - rewrite foldM_cons.
    destruct (unmarshalEntry files message md st e) as [st1|] eqn:E; [|discriminate].
    intros H. apply step_map in E. destruct E as [w1 [Hw1 E1]].
    apply IH in H. destruct H as [w2 [Hw2 E2]].
    exists (w1 ++ w2). rewrite literalsFor_cons. split.
    + apply Forall2_app; assumption.
    + rewrite fold_left_app, <- E1. exact E2.
Qed.

End MapFieldFacts.

Section EntryLiteralFacts.

Import protoreflect proto prototext.

Context (binaryMarshal : MessageDescriptor -> Message -> Result string).
Context (o : UnmarshalOptions.t) (files : Files).
Context (fd : FieldDescriptor) (key : Kind).

Hypothesis Hkey : mapKeyKind key = true.

Abbreviation message := (unmarshalMessage binaryMarshal (UnmarshalOptions.Resolver o) files).

Lemma unmarshalScalar_keyLiteral (k : MapKey) (name : string) :
  fitsKey key k = true ->
  exists v, unmarshalScalar key name (keyLiteral k) = Ok v /\ keyOfValue v = k.
Proof.
  intros Hk. destruct key; try discriminate Hkey; destruct k as [[|]|z|s];
    try discriminate Hk; cbn in Hk |- *.
  1-2: eexists; split; reflexivity.
  all: rewrite Hk; eexists; split; reflexivity.
Qed.

Lemma unmarshalSingle_scalarLiteral
  (msg : MessageDescriptor -> text.Value -> Result (list (Z * Value)))
  (vk : Kind) (v : Value) (name : string) :
  fitsScalar vk v = true ->
  unmarshalSingle files msg vk name (scalarLiteral v) = Ok v.
Proof.
  intros Hv. destruct vk; destruct v as [[|]|z|s|s|z|fs|l|es];
    try discriminate Hv; cbn in Hv |- *; try reflexivity.
  all: rewrite Hv; reflexivity.
Qed.

Lemma unmarshalSingle_keyLiteral
  (msg : MessageDescriptor -> text.Value -> Result (list (Z * Value)))
  (k : MapKey) (name : string) :
  fitsKey key k = true ->
  exists v, unmarshalSingle files msg key name (keyLiteral k) = Ok v /\ keyOfValue v = k.
Proof.
  intros Hk. destruct (unmarshalScalar_keyLiteral k name Hk) as [v [E Ev]].
  exists v. split; [|exact Ev]. rewrite <- E.
  destruct key; try discriminate Hkey; reflexivity.
Qed.

Lemma zeroKey_zeroValue : keyOfValue (zeroValue key) = zeroKey key.
Proof. destruct key; try discriminate Hkey; reflexivity. Qed.

Lemma step_optional
  (msg : MessageDescriptor -> text.Value -> Result (list (Z * Value)))
  (md : MessageDescriptor) (st : state) (fname : string) (tv : text.Value)
  (fdx : FieldDescriptor) (v : Value) :
  findByTextName fname (Fields md) = Some fdx ->
  Card fdx = Optional -> ContainingOneof fdx = None ->
  Number fdx ∉ seenNums st ->
  unmarshalSingle files msg (FieldKind fdx) fname tv = Ok v ->
  unmarshalEntry files msg md st (text.Field fname, tv)
  = Ok {| fields := setField (Number fdx) v (fields st);
          seenNums := {[Number fdx]} ∪ seenNums st;
          seenOneofs := seenOneofs st |}.
Proof.
  intros Hf Hc Ho Hn Hs. unfold unmarshalEntry. rewrite Hf, Hc.
  rewrite bool_decide_eq_false_2 by exact Hn. rewrite Ho. cbn [bind]. rewrite Hs.
  cbn [bind]. unfold setSingular, hasPresence. rewrite Hc. reflexivity.
Qed.

Lemma find_key :
  findByTextName "key" (Fields (mapEntry fd key))
  = Some {| Name := "key"; Number := 1; Card := Optional; FieldKind := key;
            ContainingOneof := None |}.
Proof.
  cbn [mapEntry Fields findByTextName]. unfold textName at 1. cbn [FieldKind Name].
  destruct key; try discriminate Hkey; reflexivity.
Qed.

Lemma find_value (v : Value) :
  fitsScalar (FieldKind fd) v = true ->
  findByTextName "value" (Fields (mapEntry fd key))
  = Some {| Name := "value"; Number := 2; Card := Optional; FieldKind := FieldKind fd;
            ContainingOneof := None |}.
Proof.
  intros Hv. cbn [mapEntry Fields findByTextName]. unfold textName. cbn [FieldKind Name].
  assert (E : match key with GroupKind name => afterLast "." name | _ => "key"%string end
              = "key"%string) by (destruct key; try discriminate Hkey; reflexivity).
  rewrite E.
  assert (E2 : match FieldKind fd with
               | GroupKind name => afterLast "." name
               | _ => "value"%string
               end = "value"%string)
    by (destruct (FieldKind fd); try discriminate Hv; try reflexivity;
        destruct v; discriminate Hv).
  rewrite E2. reflexivity.
Qed.

(** The literal of an entry is read as what the entry writes. *)
Lemma entryLiteral_reads (e : textEntry) :
  fitsEntry key (FieldKind fd) e = true ->
  exists efs,
    message (mapEntry fd key) (entryLiteral e) = Ok efs /\
    entryPair fd key efs = written key (FieldKind fd) e.
Proof.
  unfold fitsEntry, entryLiteral, written, entryPair.
  destruct e as [[k|] [v|]]; cbn [fst snd default app]; rewrite ?andb_true_iff;
    intros [Hk Hv].
  all: rewrite unmarshalMessage_entries by (apply andb_false_intro2; reflexivity).
  - destruct (unmarshalSingle_keyLiteral message k "key" Hk) as [kv [Ek Ekv]].
    rewrite !foldM_cons.
    erewrite step_optional;
      [| exact find_key | reflexivity | reflexivity
       | cbn [seenNums start]; apply not_elem_of_empty | exact Ek].
    cbv beta iota. rewrite foldM_cons.
    erewrite step_optional;
      [| exact (find_value v Hv) | reflexivity | reflexivity
       | cbn [seenNums Number];
         intros [Hin%elem_of_singleton|Hin%elem_of_empty]%elem_of_union;
         [discriminate Hin | exact Hin]
       | exact (unmarshalSingle_scalarLiteral message _ v "value" Hv)].
    cbn. eexists. split; [reflexivity|]. cbn. now rewrite Ekv.
  - destruct (unmarshalSingle_keyLiteral message k "key" Hk) as [kv [Ek Ekv]].
    rewrite !foldM_cons.
    erewrite step_optional;
      [| exact find_key | reflexivity | reflexivity
       | cbn [seenNums start]; apply not_elem_of_empty | exact Ek].
    cbn. eexists. split; [reflexivity|]. cbn. now rewrite Ekv.
  - rewrite !foldM_cons.
    erewrite step_optional;
      [| exact (find_value v Hv) | reflexivity | reflexivity
       | cbn [seenNums start]; apply not_elem_of_empty
       | exact (unmarshalSingle_scalarLiteral message _ v "value" Hv)].
    cbn. eexists. split; [reflexivity|]. cbn. now rewrite zeroKey_zeroValue.
  - cbn. eexists. split; [reflexivity|]. cbn. now rewrite zeroKey_zeroValue.
Qed.

Lemma readsAs_entryLiterals (entries : list textEntry)
  (writes : list (MapKey * Value)) :
  Forall (fun e => fitsEntry key (FieldKind fd) e = true) entries ->
  Forall2 (readsAs message fd key) (map entryLiteral entries) writes ->
  writes = map (written key (FieldKind fd)) entries.
Proof.
  intros Hfit. revert writes. induction Hfit as [|e entries He Hfit IH]; intros writes H.
  - inversion H. reflexivity.
  - cbn [map] in H. inversion H as [|? kv ? ws' Hr Hrest]; subst.
    cbn [map]. f_equal; [|apply IH, Hrest].
    destruct Hr as [efs [E ->]].
    destruct (entryLiteral_reads e He) as [efs' [E' <-]].
    rewrite E in E'. injection E' as ->. reflexivity.
Qed.

End EntryLiteralFacts.

Section TextMapFacts.

Import protoreflect proto prototext.

Context (binaryMarshal : MessageDescriptor -> Message -> Result string).
Context (o : UnmarshalOptions.t) (files : Files).
Context (md : MessageDescriptor) (fd : FieldDescriptor) (key : Kind).

Hypothesis Hcard : Card fd = Map key.
Hypothesis Hunique :
  forall fd', In fd' (Fields md) -> Number fd' = Number fd -> fd' = fd.

(** The map of a map field after unmarshal: the writes of the entry
    literals addressed to the field, in the order of the stream. *)
Lemma Unmarshal_map (input : list (text.Name * text.Value)) (m : Message)
  (err : option Error) :
  Unmarshal binaryMarshal o files md input = Done m err ->
  exists fs writes,
    m = Some fs /\
    Forall2
      (readsAs (unmarshalMessage binaryMarshal (UnmarshalOptions.Resolver o) files) fd key)
      (literalsFor md fd input) writes /\
    mapOf (getField (Number fd) fs)
    = fold_left (fun es '(k, v) => mapSet k v es) writes [].
Proof.
  intros Hu. unfold Unmarshal in Hu.
  destruct (unmarshalMessage _ _ _ md (text.MessageV input)) as [fs|] eqn:Hfs;
    [|discriminate].
  assert (Hm : m = Some fs)
    by (destruct (UnmarshalOptions.AllowPartial o); injection Hu as <- _; reflexivity).
  exists fs. cut (exists writes,
                Forall2
                  (readsAs (unmarshalMessage binaryMarshal
                              (UnmarshalOptions.Resolver o) files) fd key)
                  (literalsFor md fd input) writes /\
                mapOf (getField (Number fd) fs)
                = fold_left (fun es '(k, v) => mapSet k v es) writes []).
  { intros [writes [Hw Hes]]. exists writes. repeat split; assumption. }
  clear Hu Hm.
  destruct (String.eqb (FullName md) AnyName && expandedForm input) eqn:Ex.
  - apply andb_true_iff in Ex. destruct Ex as [Ea Ex].
    destruct input as [|[[fname|url|n] tv] [|e2 input]]; try discriminate.
    exists []. split; [constructor|]. cbn [fold_left].
    rewrite (unmarshalMessage_expanded _ _ _ _ _ _ Ea) in Hfs.
    destruct (FindMessageByURL _ url) as [md2|]; [|discriminate].
    destruct (unmarshalMessage _ _ _ md2 tv) as [fs2|]; [|discriminate].
    cbn [bind] in Hfs.
    destruct (binaryMarshal md2 (Some fs2)) as [b|]; [|discriminate].
    cbn [bind] in Hfs. injection Hfs as <-.
    unfold setSingular.
    repeat match goal with
           | |- context [if ?c then _ else _] => destruct c
           end;
      rewrite ?getField_clearField, ?getField_setField;
      repeat match goal with
             | |- context [if ?c then _ else _] => destruct c
             end; reflexivity.
  - rewrite (unmarshalMessage_entries _ _ _ _ _ Ex) in Hfs.
    destruct (foldM _ input start) as [st|] eqn:E; [|discriminate].
    cbn [bind] in Hfs. injection Hfs as <-.
    apply (foldM_map files _ md fd key Hcard Hunique) in E. exact E.
Qed.

End TextMapFacts.

(** ** Map fields on the wire *)

Lemma consume_Append (k : impl.ProtoKind) (v p : impl.GoType k) (rest : bytes) :
  impl.inRange k v = true ->
  impl.consume k (impl.Append k [] v ++ rest) p (impl.wireTypes k)
  = impl.Stored v (length (impl.Append k [] v)).
Proof.
  intros Hv. unfold impl.consume, impl.wireTypes. rewrite Z.eqb_refl. cbn [negb].
  rewrite (Consume_Append k v _ Hv), (ToGoType_FromGoType k v Hv). reflexivity.
Qed.

Lemma wireTypes_bounds (k : impl.ProtoKind) : 0 <= impl.wireTypes k < 8.
Proof.
  destruct k; cbn;
    unfold wire.VarintType, wire.Fixed32Type, wire.Fixed64Type, wire.BytesType; lia.
Qed.

Lemma keyOf_inj (k : impl.ProtoKind) (a b : impl.GoType k) :
  impl_map.keyOf k a = impl_map.keyOf k b -> a = b.
Proof.
  destruct k; cbn; intros [= H]; try exact H.
  all: apply (f_equal list_byte_of_string) in H;
       now rewrite !list_byte_of_string_of_list_byte in H.
Qed.

Section WireEntryFacts.

Context (kk vk : impl.ProtoKind).

Lemma append_alone (k : impl.ProtoKind) (v : impl.GoType k) (wiretag : Z) :
  impl.append k [] v wiretag = wire.AppendVarint [] wiretag ++ impl.Append k [] v.
Proof. unfold impl.append. now rewrite (Append_app k). Qed.

Lemma unmarshal_key_record (key : impl.GoType kk) (p : impl.GoType kk * impl.GoType vk)
  (rest : bytes) :
  impl.inRange kk key = true ->
  impl.unmarshalPointer (impl_map.entryInfo kk vk)
    (impl.append kk [] key (wire.EncodeTag 1 (impl.wireTypes kk)) ++ rest) p
  = impl.unmarshalPointer (impl_map.entryInfo kk vk) rest (key, snd p).
Proof.
  intros Hk. rewrite append_alone, <- app_assoc.
  change (wire.AppendVarint [] (wire.EncodeTag 1 (impl.wireTypes kk)))
    with (wire.AppendTag [] 1 (impl.wireTypes kk)).
  assert (H1 : wire.MinValidNumber <= 1 <= wire.MaxValidNumber)
    by (unfold wire.MinValidNumber, wire.MaxValidNumber; lia).
  rewrite (unmarshalPointer_step _ _ p 1 (impl.wireTypes kk) _
             (ConsumeTag_AppendTag 1 _ _ H1 (wireTypes_bounds kk))).
  rewrite drop_app_length.
  change (impl.fieldByNumber (impl.coderFields (impl_map.entryInfo kk vk)) 1)
    with (Some {| impl.num := 1;
                  impl.funcs_unmarshal :=
                    impl.atOffset fst
                      (fun q (m : impl.GoType kk * impl.GoType vk) => (q, snd m))
                      (impl.consume kk) |}).
  cbn [impl.funcs_unmarshal]. unfold impl.atOffset at 1.
  rewrite (consume_Append kk key (fst p) _ Hk), drop_app_length.
  reflexivity.
Qed.

Lemma unmarshal_value_record (val : impl.GoType vk) (p : impl.GoType kk * impl.GoType vk)
  (rest : bytes) :
  impl.inRange vk val = true ->
  impl.unmarshalPointer (impl_map.entryInfo kk vk)
    (impl.append vk [] val (wire.EncodeTag 2 (impl.wireTypes vk)) ++ rest) p
  = impl.unmarshalPointer (impl_map.entryInfo kk vk) rest (fst p, val).
Proof.
  intros Hv. rewrite append_alone, <- app_assoc.
  change (wire.AppendVarint [] (wire.EncodeTag 2 (impl.wireTypes vk)))
    with (wire.AppendTag [] 2 (impl.wireTypes vk)).
  assert (H2 : wire.MinValidNumber <= 2 <= wire.MaxValidNumber)
    by (unfold wire.MinValidNumber, wire.MaxValidNumber; lia).
  rewrite (unmarshalPointer_step _ _ p 2 (impl.wireTypes vk) _
             (ConsumeTag_AppendTag 2 _ _ H2 (wireTypes_bounds vk))).
  rewrite drop_app_length.
  change (impl.fieldByNumber (impl.coderFields (impl_map.entryInfo kk vk)) 2)
    with (Some {| impl.num := 2;
                  impl.funcs_unmarshal :=
                    impl.atOffset snd
                      (fun q (m : impl.GoType kk * impl.GoType vk) => (fst m, q))
                      (impl.consume vk) |}).
  cbn [impl.funcs_unmarshal]. unfold impl.atOffset at 1.
  rewrite (consume_Append vk val (snd p) _ Hv), drop_app_length.
  reflexivity.
Qed.

Lemma entryFits_spec (e : wireEntry kk vk) :
  entryFits kk vk e = true ->
  match fst e with Some key => impl.inRange kk key = true | None => True end /\
  match snd e with Some val => impl.inRange vk val = true | None => True end /\
  Z.of_nat (length (entryBody kk vk e)) < 2 ^ 64.
Proof.
  unfold entryFits. rewrite !andb_true_iff, Z.ltb_lt.
  destruct (fst e), (snd e); tauto.
Qed.

(** The body of an entry is read as what the entry writes. *)
Lemma unmarshal_entryBody (e : wireEntry kk vk) :
  entryFits kk vk e = true ->
  impl.unmarshalPointer (impl_map.entryInfo kk vk) (entryBody kk vk e)
    (impl.Zero kk, impl.Zero vk)
  = inl (writtenGo kk vk e).
Proof.
  intros H. apply entryFits_spec in H. destruct H as [Hk [Hv _]].
  unfold entryBody, writtenGo. destruct e as [[key|] [val|]]; cbn [fst snd default] in *.
  - rewrite (unmarshal_key_record key _ _ Hk).
    rewrite <- (app_nil_r (impl.append vk [] val _)).
    rewrite (unmarshal_value_record val _ _ Hv). reflexivity.
  - rewrite (unmarshal_key_record key _ _ Hk). reflexivity.
  - rewrite app_nil_l, <- (app_nil_r (impl.append vk [] val _)).
    rewrite (unmarshal_value_record val _ _ Hv). reflexivity.
  - reflexivity.
Qed.

(** The map coder on the record of one entry: the entry is written to the
    map under its key. *)
Lemma consumeMap_entry (e : wireEntry kk vk)
  (p : list (protoreflect.MapKey * impl.GoType vk)) (rest : bytes) :
  entryFits kk vk e = true ->
  impl_map.consumeMap kk vk (wire.AppendBytes [] (entryBody kk vk e) ++ rest) p
    wire.BytesType
  = impl.Stored
      (protoreflect.mapSet (impl_map.keyOf kk (fst (writtenGo kk vk e)))
         (snd (writtenGo kk vk e)) p)
      (length (wire.AppendBytes [] (entryBody kk vk e))).
Proof.
  intros H. pose proof (entryFits_spec e H) as [_ [_ Hn]].
  unfold impl_map.consumeMap. rewrite Z.eqb_refl. cbn [negb].
  rewrite (ConsumeBytes_AppendBytes _ rest Hn), (unmarshal_entryBody e H).
  reflexivity.
Qed.

End WireEntryFacts.

Section BinaryMapFacts.

Import protoreflect.

Context {M : Type} (mi : impl.MessageInfo M) (kk vk : impl.ProtoKind).
Context (get : M -> list (MapKey * impl.GoType vk)).
Context (set : list (MapKey * impl.GoType vk) -> M -> M).
Context (f : impl.coderFieldInfo M) (fnum : Z).

Hypothesis Hnum : wire.MinValidNumber <= fnum <= wire.MaxValidNumber.
Hypothesis Hfield : impl.fieldByNumber (impl.coderFields mi) fnum = Some f.
Hypothesis Hcoder :
  impl.funcs_unmarshal f = impl.atOffset get set (impl_map.consumeMap kk vk).
Hypothesis get_set : forall p m, get (set p m) = p.
Hypothesis set_set : forall p q m, set p (set q m) = set p m.
Hypothesis set_get : forall m, set (get m) m = m.

(** The records of a map field, one after the other, are so many writes to
    the map. *)
Lemma unmarshal_map_records (es : list (wireEntry kk vk)) (rest : bytes) (m : M) :
  Forall (fun e => entryFits kk vk e = true) es ->
  impl.unmarshalPointer mi (entryRecords kk vk fnum es ++ rest) m
  = impl.unmarshalPointer mi rest
      (set (fold_left (fun es '(k, v) => mapSet k v es)
              (map (fun e => (impl_map.keyOf kk (fst e), snd e))
                 (map (writtenGo kk vk) es))
              (get m)) m).
Proof.
  intros Hs. revert m. induction Hs as [|e es He Hs IH]; intros m.
  - cbn. now rewrite set_get.
  - unfold entryRecords in *. cbn [map concat fold_left].
    unfold wire.AppendBytes at 1.
    rewrite (AppendVarint_app (wire.AppendVarint [] _)), <- !app_assoc.
    change (wire.AppendVarint [] (wire.EncodeTag fnum wire.BytesType))
      with (wire.AppendTag [] fnum wire.BytesType).
    rewrite (unmarshalPointer_step mi _ m fnum wire.BytesType _
               (ConsumeTag_AppendTag fnum wire.BytesType _ Hnum
                  ltac:(unfold wire.BytesType; lia))).
    rewrite drop_app_length, Hfield, Hcoder. unfold impl.atOffset.
    rewrite !app_assoc, <- (app_assoc _ _ rest).
    change (wire.AppendVarint [] (Z.of_nat (length (entryBody kk vk e)))
            ++ entryBody kk vk e)
      with (wire.AppendBytes [] (entryBody kk vk e)).
    rewrite (consumeMap_entry kk vk e (get m) _ He), drop_app_length.
    rewrite IH, get_set, set_set. reflexivity.
Qed.

End BinaryMapFacts.

(** C4.  When the same key of a map field appears more than once, the last
    entry wins, in the text format and on the wire: the map holds one entry
    per key, with the value written last.

    Text, for the entries as they are read: the entry literals addressed to
    the field, in the order of the stream (named one by one or in bracketed
    lists, with other fields in between), are each read as a pair of key and
    value; the map holds each key once, and a pair is in the map exactly
    when it is the last of these pairs that has its key.

    Text, for the entries as they are written: when the literals addressed
    to the field are those of a list of entries with scalar values, each
    with or without its key and its value, a pair is in the map exactly when
    it is the last that an entry writes for its key, a missing key or value
    standing for the zero of its kind.

    Wire: a sequence of entry records of a map of scalars, which may repeat
    keys and leave out keys and values, is accepted by the unmarshal loop;
    the map keeps its keys distinct; under the key of the Go value [gkey]
    it holds the value of the last record whose key is [gkey], and what it
    held before when no record has that key; whatever it held under the keys
    of no Go value stays. *)
Theorem C4_last_map_entry_wins
  (binaryMarshal : protoreflect.MessageDescriptor -> protoreflect.Message
                   -> proto.Result string)
  (o : UnmarshalOptions.t) (files : protoreflect.Files)
  (md : protoreflect.MessageDescriptor) (fd : protoreflect.FieldDescriptor)
  (key : protoreflect.Kind)
  (input : list (text.Name * text.Value)) (m : protoreflect.Message)
  (err : option proto.Error) (entries : list textEntry)
  (M : Type) (mi : impl.MessageInfo M) (kk vk : impl.ProtoKind)
  (get : M -> list (protoreflect.MapKey * impl.GoType vk))
  (set : list (protoreflect.MapKey * impl.GoType vk) -> M -> M)
  (f : impl.coderFieldInfo M) (fnum : Z)
  (records : list (wireEntry kk vk)) (m0 : M) :
  (protoreflect.Card fd = protoreflect.Map key ->
   (forall fd', In fd' (protoreflect.Fields md) ->
                protoreflect.Number fd' = protoreflect.Number fd -> fd' = fd) ->
   prototext.Unmarshal binaryMarshal o files md input = proto.Done m err ->
   exists fs writes,
     m = Some fs /\
     Forall2
       (readsAs (prototext.unmarshalMessage binaryMarshal (UnmarshalOptions.Resolver o) files)
          fd key)
       (literalsFor md fd input) writes /\
     let es := prototext.mapOf (protoreflect.getField (protoreflect.Number fd) fs) in
     List.NoDup (map fst es) /\
     forall k v, In (k, v) es <-> lastFor k v writes) /\
  (protoreflect.Card fd = protoreflect.Map key ->
   (forall fd', In fd' (protoreflect.Fields md) ->
                protoreflect.Number fd' = protoreflect.Number fd -> fd' = fd) ->
   mapKeyKind key = true ->
   Forall (fun e => fitsEntry key (protoreflect.FieldKind fd) e = true) entries ->
   literalsFor md fd input = map entryLiteral entries ->
   prototext.Unmarshal binaryMarshal o files md input = proto.Done m err ->
   exists fs,
     m = Some fs /\
     let es := prototext.mapOf (protoreflect.getField (protoreflect.Number fd) fs) in
     List.NoDup (map fst es) /\
     forall k v,
       In (k, v) es <-> lastFor k v (map (written key (protoreflect.FieldKind fd)) entries)) /\
  (wire.MinValidNumber <= fnum <= wire.MaxValidNumber ->
   impl.fieldByNumber (impl.coderFields mi) fnum = Some f ->
   impl.funcs_unmarshal f = impl.atOffset get set (impl_map.consumeMap kk vk) ->
   (forall p m, get (set p m) = p) ->
   (forall p q m, set p (set q m) = set p m) ->
   (forall m, set (get m) m = m) ->
   Forall (fun e => entryFits kk vk e = true) records ->
   List.NoDup (map fst (get m0)) ->
   exists es,
     impl.unmarshalPointer mi (entryRecords kk vk fnum records) m0 = inl (set es m0) /\
     List.NoDup (map fst es) /\
     (forall gkey v,
        In (impl_map.keyOf kk gkey, v) es
        <-> lastFor gkey v (map (writtenGo kk vk) records) \/
            (~ In gkey (map fst (map (writtenGo kk vk) records)) /\
             In (impl_map.keyOf kk gkey, v) (get m0))) /\
     (forall k v,
        (forall gkey, k <> impl_map.keyOf kk gkey) ->
        (In (k, v) es <-> In (k, v) (get m0)))).
Proof.
  assert (Htext : protoreflect.Card fd = protoreflect.Map key ->
     (forall fd', In fd' (protoreflect.Fields md) ->
                  protoreflect.Number fd' = protoreflect.Number fd -> fd' = fd) ->
     prototext.Unmarshal binaryMarshal o files md input = proto.Done m err ->
     exists fs writes,
       m = Some fs /\
       Forall2
         (readsAs (prototext.unmarshalMessage binaryMarshal (UnmarshalOptions.Resolver o)
                     files) fd key)
         (literalsFor md fd input) writes /\
       let es := prototext.mapOf (protoreflect.getField (protoreflect.Number fd) fs) in
       List.NoDup (map fst es) /\
       forall k v, In (k, v) es <-> lastFor k v writes).
  { intros Hcard Huniq Hu.
    destruct (Unmarshal_map binaryMarshal o files md fd key Hcard Huniq input m err Hu)
      as (fs & writes & Hm & Hw & Hes).
    exists fs, writes. split; [exact Hm|]. split; [exact Hw|].
    cbv zeta. rewrite Hes. split.
    - apply writeAll_NoDup. constructor.
    - intros k v. rewrite In_writeAll by constructor. cbn [In]. tauto. }
  split; [exact Htext|]. split.
  { intros Hcard Huniq Hkey Hfit Hlit Hu.
    destruct (Htext Hcard Huniq Hu) as (fs & writes & Hm & Hw & Hes).
    exists fs. split; [exact Hm|].
    rewrite Hlit in Hw.
    apply (readsAs_entryLiterals binaryMarshal o files fd key Hkey entries writes Hfit)
      in Hw.
    rewrite <- Hw. exact Hes. }
  intros Hnum Hfield Hcoder Hgs Hss Hsg Hfit Hnd.
  eexists. split; [|split; [|split]].
  - rewrite <- (app_nil_r (entryRecords kk vk fnum records)).
    rewrite (unmarshal_map_records mi kk vk get set f fnum Hnum Hfield Hcoder Hgs Hss Hsg
               records [] m0 Hfit).
    reflexivity.
  - apply writeAll_NoDup, Hnd.
  - intros key0 v. rewrite (In_writeAll _ _ _ _ Hnd).
    rewrite (lastFor_map (impl_map.keyOf kk) key0 v _ (keyOf_inj kk)).
    rewrite map_map. cbn [fst].
    rewrite <- (map_map fst (impl_map.keyOf kk)).
    assert (Hin : In (impl_map.keyOf kk key0)
                    (map (impl_map.keyOf kk) (map fst (map (writtenGo kk vk) records)))
                  <-> In key0 (map fst (map (writtenGo kk vk) records))).
    { rewrite in_map_iff. split.
      - intros [x [E Hx]]. apply keyOf_inj in E. now subst.
      - intros Hx. exists key0. split; [reflexivity | exact Hx]. }
    rewrite Hin. reflexivity.
  - intros k v Hk. rewrite (In_writeAll _ _ _ _ Hnd). split.
    + intros [Hl|[_ H]]; [|exact H].
      apply lastFor_In in Hl. rewrite map_map in Hl. cbn [fst] in Hl.
      apply in_map_iff in Hl. destruct Hl as [x [<- _]]. now destruct (Hk (fst x)).
    + intros H. right. split; [|exact H].
      rewrite map_map. cbn [fst]. intros Hl.
      apply in_map_iff in Hl. destruct Hl as [x [<- _]]. now destruct (Hk (fst x)).
Qed.

Example unmarshal_map_contains_duplicate_keys :
  prototext.Unmarshal testprotos.noBinary
    {| UnmarshalOptions.AllowPartial := false; UnmarshalOptions.Resolver := [] |}
    testprotos.files testprotos.pb3_Maps
    [ (text.Field "int32_to_str",
       text.MessageV [(text.Field "key", text.IntV 0);
                      (text.Field "value", text.StringV "cero")]);
      (text.Field "int32_to_str",
       text.MessageV [(text.Field "key", text.IntV 0);
                      (text.Field "value", text.StringV "zero")]) ]
  = proto.Done
      (Some [(1, protoreflect.VMap [(protoreflect.KInt 0, protoreflect.VString "zero")])])
      None.
Proof. vm_compute. reflexivity. Qed.

(** The example of the specification: [{key:1,value:"a"}; {key:1,value:"b"}]
    decodes to [{1:"b"}]. *)
Example unmarshal_map_dedup :
  prototext.Unmarshal testprotos.noBinary
    {| UnmarshalOptions.AllowPartial := false; UnmarshalOptions.Resolver := [] |}
    testprotos.files testprotos.pb3_Maps
    [ (text.Field "int32_to_str",
       text.MessageV [(text.Field "key", text.IntV 1);
                      (text.Field "value", text.StringV "a")]);
      (text.Field "int32_to_str",
       text.MessageV [(text.Field "key", text.IntV 1);
                      (text.Field "value", text.StringV "b")]) ]
  = proto.Done
      (Some [(1, protoreflect.VMap [(protoreflect.KInt 1, protoreflect.VString "b")])])
      None.
Proof. vm_compute. reflexivity. Qed.

Example unmarshal_map_contains_overriding_entries :
  prototext.Unmarshal testprotos.noBinary
    {| UnmarshalOptions.AllowPartial := false; UnmarshalOptions.Resolver := [] |}
    testprotos.files testprotos.pb3_Maps
    [ (text.Field "int32_to_str", text.MessageV [(text.Field "key", text.IntV 0)]);
      (text.Field "int32_to_str",
       text.MessageV [(text.Field "value", text.StringV "empty")]);
      (text.Field "int32_to_str", text.MessageV []) ]
  = proto.Done
      (Some [(1, protoreflect.VMap
                   [(protoreflect.KInt 0, protoreflect.VString EmptyString)])])
      None.
Proof. vm_compute. reflexivity. Qed.

Example unmarshal_map_using_mix_of_list_and_repeated :
  prototext.Unmarshal testprotos.noBinary
    {| UnmarshalOptions.AllowPartial := false; UnmarshalOptions.Resolver := [] |}
    testprotos.files testprotos.pb3_Maps
    [ (text.Field "int32_to_str",
       text.MessageV [(text.Field "key", text.IntV 1);
                      (text.Field "value", text.StringV "one")]);
      (text.Field "int32_to_str",
       text.ListV
         [ text.MessageV [(text.Field "key", text.IntV 2);
                          (text.Field "value", text.StringV "not this")];
           text.MessageV [];
           text.MessageV [(text.Field "key", text.IntV 3);
                          (text.Field "value", text.StringV "three")] ]);
      (text.Field "int32_to_str",
       text.MessageV [(text.Field "key", text.IntV 2);
                      (text.Field "value", text.StringV "two")]) ]
  = proto.Done
      (Some [(1, protoreflect.VMap
                   [ (protoreflect.KInt 1, protoreflect.VString "one");
                     (protoreflect.KInt 2, protoreflect.VString "two");
                     (protoreflect.KInt 0, protoreflect.VString EmptyString);
                     (protoreflect.KInt 3, protoreflect.VString "three") ])])
      None.
Proof. vm_compute. reflexivity. Qed.

(** * The properties at the sample messages *)

Example unmarshal_any_expanded_with_unknown_fields :
  prototext.Unmarshal testprotos.noBinary
    {| UnmarshalOptions.AllowPartial := false; UnmarshalOptions.Resolver := testprotos.files |}
    testprotos.files prototext.AnyDescriptor
    [ (text.Extension "pb2.Nested", text.MessageV []);
      (text.Field "unknown", text.StringV EmptyString) ]
  = proto.Aborted {| proto.kind := proto.ResolveFailure; proto.path := "pb2.Nested" |}.
Proof. vm_compute. reflexivity. Qed.

Example unmarshal_any_contains_expanded_and_unexpanded_fields :
  prototext.Unmarshal testprotos.noBinary
    {| UnmarshalOptions.AllowPartial := false; UnmarshalOptions.Resolver := testprotos.files |}
    testprotos.files prototext.AnyDescriptor
    [ (text.Extension "pb2.Nested", text.MessageV []);
      (text.Field "type_url", text.StringV "pb2.Nested") ]
  = proto.Aborted {| proto.kind := proto.ResolveFailure; proto.path := "pb2.Nested" |}.
Proof. vm_compute. reflexivity. Qed.

Example unmarshal_any_expanded_with_empty_value :
  prototext.Unmarshal testprotos.noBinary
    {| UnmarshalOptions.AllowPartial := false; UnmarshalOptions.Resolver := testprotos.files |}
    testprotos.files prototext.AnyDescriptor
    [ (text.Extension "foo.com/pb2.Nested", text.MessageV []) ]
  = proto.Done (Some [(1, protoreflect.VString "foo.com/pb2.Nested")]) None.
Proof. vm_compute. reflexivity. Qed.

(** The records of four entries of the field [int32_to_str], byte by byte:
    [1: "a"], [2: "c"], [1: "b"] and an entry that has a value and no key. *)
Example entry_records_on_the_wire :
  entryRecords impl.Int32Kind impl.StringKind 1
    [ (Some 1, Some [x61]); (Some 2, Some [x63]); (Some 1, Some [x62]);
      (None, Some [x7a]) ]
  = [ x0a; x05; x08; x01; x12; x01; x61;
      x0a; x05; x08; x02; x12; x01; x63;
      x0a; x05; x08; x01; x12; x01; x62;
      x0a; x03; x12; x01; x7a ].
Proof. vm_compute. reflexivity. Qed.

Example unmarshal_map_records_with_duplicate_keys :
  impl.unmarshalPointer mapsInfo
    [ x0a; x05; x08; x01; x12; x01; x61;
      x0a; x05; x08; x02; x12; x01; x63;
      x0a; x05; x08; x01; x12; x01; x62;
      x0a; x03; x12; x01; x7a ]
    {| int32_to_str := []; maps_unknown := [] |}
  = inl {| int32_to_str := [ (protoreflect.KInt 1, [x62]);
                             (protoreflect.KInt 2, [x63]);
                             (protoreflect.KInt 0, [x7a]) ];
           maps_unknown := [] |}.
Proof. vm_compute. reflexivity. Qed.

(** The repeated [bool] field of the sample message: the packed block and
    the three expanded records of [true, false, true] both decode to it. *)
Lemma C1_packed_and_expanded_sample :
  impl.unmarshalPointer sampleInfo
    (impl.marshal (impl.coderPackedSlice impl.BoolKind) [] [true; false; true]
       (wire.EncodeTag 3 wire.BytesType)) emptySample
  = inl (set_rpt_bool [true; false; true] emptySample) /\
  impl.unmarshalPointer sampleInfo
    (impl.marshal (impl.coderSlice impl.BoolKind) [] [true; false; true]
       (wire.EncodeTag 3 (impl.wireTypes impl.BoolKind))) emptySample
  = inl (set_rpt_bool [true; false; true] emptySample).
Proof.
  assert (Hnum : wire.MinValidNumber <= 3 <= wire.MaxValidNumber)
    by (unfold wire.MinValidNumber, wire.MaxValidNumber; lia).
  assert (Hs : Forall (fun v => impl.inRange impl.BoolKind v = true) [true; false; true])
    by (repeat constructor).
  assert (Hsz : impl.packedSize impl.BoolKind [true; false; true] < 2 ^ 63)
    by (vm_compute; reflexivity).
  destruct (C1_packed_and_expanded_decode_alike impl.BoolKind Sample sampleInfo
              rpt_bool set_rpt_bool
              {| impl.num := 3;
                 impl.funcs_unmarshal :=
                   impl.atOffset rpt_bool set_rpt_bool
                     (impl.unmarshal (impl.coderPackedSlice impl.BoolKind)) |}
              3 [true; false; true] [] emptySample
              eq_refl Hnum eq_refl (or_intror eq_refl)
              (fun p m => eq_refl)
              (fun p q m => eq_refl)
              (fun m => match m with Build_Sample _ _ _ _ _ => eq_refl end)
              Hs Hsz)
    as (_ & _ & Hp & He & _).
  split; [exact Hp | exact He].
Defined.

(** An [int32] without presence: [0] is not written, [7] has a size. *)
Lemma C2_zero_int32_sample :
  (impl.marshal (impl.coderNoZero impl.Int32Kind) [] 0 16 = []
   <-> (0 : impl.GoType impl.Int32Kind) = impl.Zero impl.Int32Kind) /\
  (impl.size (impl.coderNoZero impl.Int32Kind) 7 1 = 0
   <-> (7 : impl.GoType impl.Int32Kind) = impl.Zero impl.Int32Kind).
Proof.
  split.
  - apply (C2_zero_value_not_encoded impl.Int32Kind 0 [] 16 1); [reflexivity | lia].
  - apply (C2_zero_value_not_encoded impl.Int32Kind 7 [] 16 1); [reflexivity | lia].
Defined.


(** The [float] field of the sample message sent as a varint: the record
    goes to the unknown fields and the next record is read. *)
Lemma C5_mismatch_sample :
  impl.consume impl.FloatKind [x01] 0 wire.VarintType = impl.Failure impl.errUnknown /\
  impl.unmarshalPointer sampleInfo (wire.AppendTag [] 4 wire.VarintType ++ [x01] ++ [x08; x07])
    emptySample
  = impl.unmarshalPointer sampleInfo [x08; x07]
      (set_sample_unknown ([] ++ wire.AppendTag [] 4 wire.VarintType ++ [x01]) emptySample).
Proof.
  assert (Hw : wire.VarintType <> impl.wireTypes impl.FloatKind) by discriminate.
  assert (Hnum : wire.MinValidNumber <= 4 <= wire.MaxValidNumber)
    by (unfold wire.MinValidNumber, wire.MaxValidNumber; lia).
  assert (Ht : 0 <= wire.VarintType < 8) by (unfold wire.VarintType; lia).
  destruct (C5_wire_type_mismatch_goes_to_unknown impl.FloatKind wire.VarintType [x01] Hw)
    as (Hc & _ & _ & _ & Hloop).
  split; [apply Hc|].
  apply (Hloop Sample sampleInfo
           {| impl.num := 4;
              impl.funcs_unmarshal :=
                impl.atOffset s_float set_s_float
                  (impl.unmarshal (impl.coderNoZero impl.FloatKind)) |}
           s_float set_s_float 4 [x01] [x08; x07] emptySample Hnum Ht eq_refl eq_refl).
  vm_compute. reflexivity.
Defined.

(** [pb2.Requireds], empty on marshal and partially set on unmarshal, with
    [AllowPartial]. *)
Lemma C6_requireds_sample :
  (proto.kind {| proto.kind := proto.MissingRequired; proto.path := "req_bool" |}
     = proto.MissingRequired /\
   prototext.Marshal {| MarshalOptions.AllowPartial := true |}
     testprotos.files testprotos.pb2_Requireds (Some [])
   = proto.Done prototext.nl None) /\
  (proto.kind {| proto.kind := proto.MissingRequired; proto.path := "req_nested" |}
     = proto.MissingRequired /\
   prototext.Unmarshal testprotos.noBinary
     {| UnmarshalOptions.AllowPartial := true; UnmarshalOptions.Resolver := [] |}
     testprotos.files testprotos.pb2_Requireds
     [ (text.Field "req_bool", text.IdentV "false");
       (text.Field "req_sfixed64", text.IntV 3203386110);
       (text.Field "req_string", text.StringV "hello");
       (text.Field "req_enum", text.IdentV "ONE") ]
   = proto.Done
       (Some [ (1, protoreflect.VBool false); (2, protoreflect.VInt 3203386110);
               (4, protoreflect.VString "hello"); (5, protoreflect.VEnum 1) ])
       None).
Proof.
  destruct (C6_allow_partial_suppresses_validation testprotos.files testprotos.pb2_Requireds)
    as [Hm Hu].
  split.
  - apply Hm. vm_compute. reflexivity.
  - apply Hu. vm_compute. reflexivity.
Defined.


(** An [Any] in the expanded form, in the form of its two fields, and in a
    mix of both. *)
Lemma C8_any_sample :
  prototext.Unmarshal (fun _ _ => proto.Ok "bytes"%string)
    {| UnmarshalOptions.AllowPartial := false; UnmarshalOptions.Resolver := testprotos.files |}
    testprotos.files prototext.AnyDescriptor
    [(text.Extension "foo/pb2.Nested",
      text.MessageV [(text.Field "opt_string", text.StringV "embedded inside Any")])]
  = proto.Done
      (Some (prototext.setSingular prototext.valueField (protoreflect.VBytes "bytes")
               (prototext.setSingular prototext.typeURLField
                  (protoreflect.VString "foo/pb2.Nested") [])))
      None /\
  prototext.Unmarshal (fun _ _ => proto.Ok "bytes"%string)
    {| UnmarshalOptions.AllowPartial := false; UnmarshalOptions.Resolver := testprotos.files |}
    testprotos.files prototext.AnyDescriptor
    [(text.Field "type_url", text.StringV "pb2.Nested");
     (text.Field "value", text.StringV "some bytes")]
  = proto.Done
      (Some (prototext.setSingular prototext.valueField (protoreflect.VBytes "some bytes")
               (prototext.setSingular prototext.typeURLField
                  (protoreflect.VString "pb2.Nested") [])))
      None /\
  exists e,
    prototext.Unmarshal (fun _ _ => proto.Ok "bytes"%string)
      {| UnmarshalOptions.AllowPartial := false; UnmarshalOptions.Resolver := testprotos.files |}
      testprotos.files prototext.AnyDescriptor
      [(text.Extension "pb2.Nested",
        text.MessageV [(text.Field "opt_string", text.StringV "embedded inside Any")]);
       (text.Field "type_url", text.StringV "pb2.Nested")]
    = proto.Aborted e.
Proof.
  destruct (C8_any_expanded_or_fields_but_not_both (fun _ _ => proto.Ok "bytes"%string)
              {| UnmarshalOptions.AllowPartial := false;
                 UnmarshalOptions.Resolver := testprotos.files |}
              testprotos.files) as (Hx & Hf & Hmix).
  split; [|split].
  - apply (Hx "foo/pb2.Nested"%string
             [(text.Field "opt_string", text.StringV "embedded inside Any")]
             testprotos.pb2_Nested
             [(1, protoreflect.VString "embedded inside Any")] "bytes"%string).
    + vm_compute. reflexivity.
    + vm_compute. reflexivity.
    + reflexivity.
  - apply Hf. vm_compute. reflexivity.
  - apply (Hmix _ "pb2.Nested"%string
             (text.MessageV [(text.Field "opt_string", text.StringV "embedded inside Any")])
             "type_url"%string (text.StringV "pb2.Nested")).
    + simpl. left. reflexivity.
    + simpl. right. left. reflexivity.
Defined.


(** The field [int32_to_str] written at the keys [1], [2] and [1] again, and
    by an entry without a key, in the text format and on the wire: the map
    holds the keys [1], [2] and [0] once each, the key [1] with the value
    written last. *)
Lemma C4_duplicate_keys_sample :
  (exists fs writes,
     Some [(1, protoreflect.VMap [ (protoreflect.KInt 1, protoreflect.VString "b");
                                   (protoreflect.KInt 2, protoreflect.VString "c");
                                   (protoreflect.KInt 0, protoreflect.VString "z") ])]
     = Some fs /\
     Forall2
       (readsAs (prototext.unmarshalMessage testprotos.noBinary [] testprotos.files)
          (testprotos.field "int32_to_str" 1 (protoreflect.Map protoreflect.Int32Kind)
             protoreflect.StringKind)
          protoreflect.Int32Kind)
       (literalsFor testprotos.pb3_Maps
          (testprotos.field "int32_to_str" 1 (protoreflect.Map protoreflect.Int32Kind)
             protoreflect.StringKind)
          [ (text.Field "int32_to_str",
             text.MessageV [(text.Field "key", text.IntV 1);
                            (text.Field "value", text.StringV "a")]);
            (text.Field "int32_to_str",
             text.ListV
               [ text.MessageV [(text.Field "key", text.IntV 2);
                                (text.Field "value", text.StringV "c")];
                 text.MessageV [(text.Field "key", text.IntV 1);
                                (text.Field "value", text.StringV "b")] ]);
            (text.Field "int32_to_str",
             text.MessageV [(text.Field "value", text.StringV "z")]) ])
       writes /\
     List.NoDup (map fst (prototext.mapOf (protoreflect.getField 1 fs))) /\
     forall k v, In (k, v) (prototext.mapOf (protoreflect.getField 1 fs))
                 <-> lastFor k v writes) /\
  (exists fs,
     Some [(1, protoreflect.VMap [ (protoreflect.KInt 1, protoreflect.VString "b");
                                   (protoreflect.KInt 2, protoreflect.VString "c");
                                   (protoreflect.KInt 0, protoreflect.VString "z") ])]
     = Some fs /\
     List.NoDup (map fst (prototext.mapOf (protoreflect.getField 1 fs))) /\
     forall k v, In (k, v) (prototext.mapOf (protoreflect.getField 1 fs))
                 <-> lastFor k v
                       [ (protoreflect.KInt 1, protoreflect.VString "a");
                         (protoreflect.KInt 2, protoreflect.VString "c");
                         (protoreflect.KInt 1, protoreflect.VString "b");
                         (protoreflect.KInt 0, protoreflect.VString "z") ]) /\
  (exists es,
     impl.unmarshalPointer mapsInfo
       [ x0a; x05; x08; x01; x12; x01; x61;
         x0a; x05; x08; x02; x12; x01; x63;
         x0a; x05; x08; x01; x12; x01; x62;
         x0a; x03; x12; x01; x7a ]
       {| int32_to_str := []; maps_unknown := [] |}
     = inl (set_int32_to_str es {| int32_to_str := []; maps_unknown := [] |}) /\
     List.NoDup (map fst es) /\
     (forall (key : Z) (v : bytes),
        In (protoreflect.KInt key, v) es
        <-> lastFor key v [(1, [x61]); (2, [x63]); (1, [x62]); (0, [x7a])] \/
            (~ In key [1; 2; 1; 0] /\ In (protoreflect.KInt key, v) [])) /\
     (forall k v,
        (forall key : Z, k <> protoreflect.KInt key) ->
        (In (k, v) es <-> In (k, v) []))).
Proof.
  assert (Hnum : wire.MinValidNumber <= 1 <= wire.MaxValidNumber)
    by (unfold wire.MinValidNumber, wire.MaxValidNumber; lia).
  destruct (C4_last_map_entry_wins testprotos.noBinary
              {| UnmarshalOptions.AllowPartial := false; UnmarshalOptions.Resolver := [] |}
              testprotos.files testprotos.pb3_Maps
              (testprotos.field "int32_to_str" 1 (protoreflect.Map protoreflect.Int32Kind)
                 protoreflect.StringKind)
              protoreflect.Int32Kind
              [ (text.Field "int32_to_str",
                 text.MessageV [(text.Field "key", text.IntV 1);
                                (text.Field "value", text.StringV "a")]);
                (text.Field "int32_to_str",
                 text.ListV
                   [ text.MessageV [(text.Field "key", text.IntV 2);
                                    (text.Field "value", text.StringV "c")];
                     text.MessageV [(text.Field "key", text.IntV 1);
                                    (text.Field "value", text.StringV "b")] ]);
                (text.Field "int32_to_str",
                 text.MessageV [(text.Field "value", text.StringV "z")]) ]
              (Some [(1, protoreflect.VMap
                           [ (protoreflect.KInt 1, protoreflect.VString "b");
                             (protoreflect.KInt 2, protoreflect.VString "c");
                             (protoreflect.KInt 0, protoreflect.VString "z") ])])
              None
              [ (Some (protoreflect.KInt 1), Some (protoreflect.VString "a"));
                (Some (protoreflect.KInt 2), Some (protoreflect.VString "c"));
                (Some (protoreflect.KInt 1), Some (protoreflect.VString "b"));
                (None, Some (protoreflect.VString "z")) ]
              SampleMaps mapsInfo impl.Int32Kind impl.StringKind
              int32_to_str set_int32_to_str
              {| impl.num := 1;
                 impl.funcs_unmarshal :=
                   impl.atOffset int32_to_str set_int32_to_str
                     (impl_map.consumeMap impl.Int32Kind impl.StringKind) |}
              1
              [ (Some 1, Some [x61]); (Some 2, Some [x63]); (Some 1, Some [x62]);
                (None, Some [x7a]) ]
              {| int32_to_str := []; maps_unknown := [] |})
    as [Hread [Htext Hwire]].
  assert (Huniq : forall fd',
            In fd' (protoreflect.Fields testprotos.pb3_Maps) ->
            protoreflect.Number fd' = 1 ->
            fd' = testprotos.field "int32_to_str" 1
                    (protoreflect.Map protoreflect.Int32Kind) protoreflect.StringKind).
  { intros fd' Hin Hn. simpl in Hin.
    destruct Hin as [<-|[<-|[<-|[<-|[]]]]]; first [reflexivity | discriminate Hn]. }
  split; [|split].
  - apply Hread.
    + reflexivity.
    + exact Huniq.
    + vm_compute. reflexivity.
  - apply Htext.
    + reflexivity.
    + exact Huniq.
    + reflexivity.
    + repeat constructor.
    + reflexivity.
    + vm_compute. reflexivity.
  - apply Hwire.
    + exact Hnum.
    + reflexivity.
    + reflexivity.
    + intros p m. reflexivity.
    + intros p q m. reflexivity.
    + intros [es u]. reflexivity.
    + repeat constructor.
    + constructor.
Defined.

(** * Further properties of the coders *)

(** ** Sizes and lengths *)

(** Template [Size] is the number of bytes template [Append] writes. *)
Lemma Size_length (k : impl.ProtoKind) (v : impl.GoType k) :
  impl.Size k v = Z.of_nat (length (impl.Append k [] v)).
Proof.
  destruct k; try (cbn; reflexivity).
  all: unfold impl.Size, impl.Append; cbn [impl.WireTypeOf impl.FromGoType];
    unfold wire.SizeBytes, wire.SizeVarint, wire.AppendString, wire.AppendBytes,
      wire.AppendVarint; rewrite app_nil_l, length_app; lia.
Qed.

Lemma append_length (k : impl.ProtoKind) (b : bytes) (v : impl.GoType k) (wiretag : Z) :
  Z.of_nat (length (impl.append k b v wiretag))
  = Z.of_nat (length b) + (wire.SizeVarint wiretag + impl.Size k v).
Proof.
  unfold impl.append. cbv zeta.
  rewrite Append_app, AppendVarint_app, !length_app, Size_length.
  unfold wire.SizeVarint, wire.AppendVarint. rewrite app_nil_l. lia.
Qed.

(** The size of a constant-size kind, as the slice functions spell it. *)
Lemma Size_const (k : impl.ProtoKind) (v : impl.GoType k) :
  impl.ConstSize (impl.WireTypeOf k) = true ->
  impl.Size k v = match impl.WireTypeOf k with
                  | impl.WireFixed32 => wire.SizeFixed32
                  | _ => wire.SizeFixed64
                  end.
Proof. destruct k; cbn; intros H; try discriminate; reflexivity. Qed.

Lemma sizeSlice_sum (k : impl.ProtoKind) (s : list (impl.GoType k)) (tagsize : Z) :
  impl.sizeSlice k s tagsize
  = fold_left (fun size v => size + (tagsize + impl.Size k v)) s 0.
Proof.
  unfold impl.sizeSlice. cbv zeta.
  destruct (impl.ConstSize (impl.WireTypeOf k)) eqn:Ec; [|reflexivity].
  induction s as [|v s IH]; [reflexivity|].
  cbn [fold_left length]. rewrite (fold_sum_shift _ s (0 + _)), <- IH.
  rewrite (Size_const k v Ec). lia.
Qed.

Lemma appendSlice_length (k : impl.ProtoKind) (b : bytes) (s : list (impl.GoType k))
  (wiretag : Z) :
  Z.of_nat (length (impl.appendSlice k b s wiretag))
  = Z.of_nat (length b) + impl.sizeSlice k s (wire.SizeVarint wiretag).
Proof.
  rewrite sizeSlice_sum. unfold impl.appendSlice. cbv zeta. revert b.
  induction s as [|v s IH]; intros b; [simpl; lia|].
  cbn [fold_left]. rewrite IH, (fold_sum_shift _ s (0 + _)).
  change (impl.Append k (wire.AppendVarint b wiretag) v) with (impl.append k b v wiretag).
  rewrite append_length. lia.
Qed.

(** X1.  The size functions of a singular field announce exactly the bytes
    its append functions write: the buffer grows by [size], for the plain
    coder, for the coder that skips the zero value, and for the coder of a
    value held in an interface, when [tagsize] is the size of the tag. *)
Theorem X1_size_is_the_number_of_bytes_appended
  (k : impl.ProtoKind) (v : impl.GoType k) (b : bytes) (wiretag : Z) :
  Z.of_nat (length (impl.marshal (impl.coder k) b v wiretag))
  = Z.of_nat (length b) + impl.size (impl.coder k) v (wire.SizeVarint wiretag) /\
  Z.of_nat (length (impl.marshal (impl.coderNoZero k) b v wiretag))
  = Z.of_nat (length b) + impl.size (impl.coderNoZero k) v (wire.SizeVarint wiretag) /\
  Z.of_nat (length (impl.imarshal (impl.coderIface k) b v wiretag))
  = Z.of_nat (length b) + impl.isize (impl.coderIface k) v (wire.SizeVarint wiretag).
Proof.
  cbn [impl.marshal impl.size impl.imarshal impl.isize impl.coder impl.coderNoZero
       impl.coderIface].
  split; [|split].
  - apply append_length.
  - unfold impl.appendNoZero, impl.sizeNoZero. cbv zeta.
    destruct (impl.IsZero k v); [lia|]. apply (append_length k b v wiretag).
  - apply (append_length k b v wiretag).
Qed.

(** X2.  The size functions of a repeated field announce exactly the bytes
    its append functions write, in the expanded form (one record per
    element) and in the packed form (one block, nothing for an empty
    slice). *)
Theorem X2_slice_size_is_the_number_of_bytes_appended
  (k : impl.ProtoKind) (s : list (impl.GoType k)) (b : bytes) (wiretag : Z) :
  Z.of_nat (length (impl.marshal (impl.coderSlice k) b s wiretag))
  = Z.of_nat (length b) + impl.size (impl.coderSlice k) s (wire.SizeVarint wiretag) /\
  Z.of_nat (length (impl.imarshal (impl.coderSliceIface k) b s wiretag))
  = Z.of_nat (length b) + impl.isize (impl.coderSliceIface k) s (wire.SizeVarint wiretag) /\
  (impl.Packable (impl.WireTypeOf k) = true ->
   impl.packedSize k s < 2 ^ 63 ->
   Z.of_nat (length (impl.marshal (impl.coderPackedSlice k) b s wiretag))
   = Z.of_nat (length b)
     + impl.size (impl.coderPackedSlice k) s (wire.SizeVarint wiretag)).
Proof.
  cbn [impl.marshal impl.size impl.imarshal impl.isize impl.coderSlice
       impl.coderSliceIface impl.coderPackedSlice].
  split; [|split].
  - apply appendSlice_length.
  - apply (appendSlice_length k b s wiretag).
  - intros Hp Hn. unfold impl.appendPackedSlice, impl.sizePackedSlice. cbv zeta.
    destruct (Nat.eqb (length s) 0); [lia|].
    pose proof (packedSize_length k s Hp) as Hl.
    rewrite fold_Append_flat, (AppendVarint_app (wire.AppendVarint b wiretag)),
      (AppendVarint_app b), !length_app, !Nat2Z.inj_add, <- Hl.
    unfold uint64. rewrite Z.mod_small by lia.
    unfold wire.SizeBytes, wire.SizeVarint, wire.AppendVarint. rewrite !app_nil_l. lia.
Qed.

Lemma X2_packed_bools_sample :
  Z.of_nat (length (impl.marshal (impl.coderPackedSlice impl.BoolKind) [x08; x07]
                      [true; false; true] 26))
  = Z.of_nat (length [x08; x07])
    + impl.size (impl.coderPackedSlice impl.BoolKind) [true; false; true]
        (wire.SizeVarint 26).
Proof.
  apply (X2_slice_size_is_the_number_of_bytes_appended impl.BoolKind
           [true; false; true] [x08; x07] 26).
  - reflexivity.
  - vm_compute. reflexivity.
Defined.

(** X3.  Every append function appends: the bytes already in the buffer
    stay as they are, in front, and what is added does not depend on
    them. *)
Theorem X3_append_keeps_the_buffer
  (k : impl.ProtoKind) (b : bytes) (v : impl.GoType k) (s : list (impl.GoType k))
  (wiretag : Z) :
  impl.marshal (impl.coder k) b v wiretag
  = b ++ impl.marshal (impl.coder k) [] v wiretag /\
  impl.marshal (impl.coderNoZero k) b v wiretag
  = b ++ impl.marshal (impl.coderNoZero k) [] v wiretag /\
  impl.imarshal (impl.coderIface k) b v wiretag
  = b ++ impl.imarshal (impl.coderIface k) [] v wiretag /\
  impl.marshal (impl.coderSlice k) b s wiretag
  = b ++ impl.marshal (impl.coderSlice k) [] s wiretag /\
  impl.marshal (impl.coderPackedSlice k) b s wiretag
  = b ++ impl.marshal (impl.coderPackedSlice k) [] s wiretag /\
  impl.imarshal (impl.coderSliceIface k) b s wiretag
  = b ++ impl.imarshal (impl.coderSliceIface k) [] s wiretag.
Proof.
  cbn [impl.marshal impl.imarshal impl.coder impl.coderNoZero impl.coderIface
       impl.coderSlice impl.coderPackedSlice impl.coderSliceIface].
  assert (Ha : impl.append k b v wiretag = b ++ impl.append k [] v wiretag).
  { unfold impl.append. cbv zeta.
    rewrite Append_app, (Append_app k (wire.AppendVarint [] wiretag)), AppendVarint_app.
    now rewrite <- app_assoc. }
  assert (Hs : impl.appendSlice k b s wiretag = b ++ impl.appendSlice k [] s wiretag).
  { rewrite appendSlice_flat, (appendSlice_flat k []). reflexivity. }
  repeat split.
  - exact Ha.
  - unfold impl.appendNoZero. cbv zeta. destruct (impl.IsZero k v).
    + now rewrite app_nil_r.
    + exact Ha.
  - exact Ha.
  - exact Hs.
  - unfold impl.appendPackedSlice. cbv zeta.
    destruct (Nat.eqb (length s) 0); [now rewrite app_nil_r|].
    rewrite fold_Append_flat, (fold_Append_flat k (wire.AppendVarint _ _)).
    rewrite (AppendVarint_app (wire.AppendVarint b wiretag)),
      (AppendVarint_app (wire.AppendVarint [] wiretag)), (AppendVarint_app b).
    now rewrite <- !app_assoc.
  - exact Hs.
Qed.

(** ** Records read back *)

Lemma consumePtr_Append (k : impl.ProtoKind) (v : impl.GoType k)
  (p : option (impl.GoType k)) (rest : bytes) :
  impl.inRange k v = true ->
  impl.consumePtr k (impl.Append k [] v ++ rest) p (impl.wireTypes k)
  = impl.Stored (Some v) (length (impl.Append k [] v)).
Proof.
  intros Hv. unfold impl.consumePtr, impl.wireTypes. rewrite Z.eqb_refl. cbn [negb].
  rewrite (Consume_Append k v _ Hv), (ToGoType_FromGoType k v Hv). reflexivity.
Qed.

(** X4.  A record written by the append function of a singular field is
    read back: the tag read from it names the field and the wire type of the
    kind, and each consume function of the kind (for a plain field, for a
    pointer field, nil or not, and for a value in an interface), given what
    follows the tag, stores the value that was written and reports the rest
    of the record as read, whatever bytes come after the record. *)
Theorem X4_a_record_is_read_back
  (k : impl.ProtoKind) (v p : impl.GoType k) (pp : option (impl.GoType k))
  (fnum : Z) (rest : bytes) :
  impl.inRange k v = true ->
  wire.MinValidNumber <= fnum <= wire.MaxValidNumber ->
  let wiretag := wire.EncodeTag fnum (impl.wireTypes k) in
  let record := impl.marshal (impl.coder k) [] v wiretag in
  impl.appendPtr k [] (Some v) wiretag = impl.Returns record /\
  impl.imarshal (impl.coderIface k) [] v wiretag = record /\
  exists n0 : nat,
    (n0 <= length record)%nat /\
    wire.ConsumeTag (record ++ rest) = wire.Parsed (fnum, impl.wireTypes k) n0 /\
    impl.unmarshal (impl.coder k) (drop n0 (record ++ rest)) p (impl.wireTypes k)
    = impl.Stored v (length record - n0) /\
    impl.consumePtr k (drop n0 (record ++ rest)) pp (impl.wireTypes k)
    = impl.Stored (Some v) (length record - n0) /\
    impl.iunmarshal (impl.coderIface k) (drop n0 (record ++ rest)) p (impl.wireTypes k)
    = impl.Stored v (length record - n0).
Proof.
  intros Hv Hn wiretag record.
  split; [reflexivity|]. split; [reflexivity|].
  assert (Hr : record = wire.AppendTag [] fnum (impl.wireTypes k) ++ impl.Append k [] v).
  { subst record wiretag. cbn [impl.marshal impl.coder]. unfold impl.append. cbv zeta.
    now rewrite Append_app. }
  exists (length (wire.AppendTag [] fnum (impl.wireTypes k))).
  rewrite Hr, length_app, <- app_assoc, drop_app_length.
  replace (length (wire.AppendTag [] fnum (impl.wireTypes k)) + length (impl.Append k [] v)
           - length (wire.AppendTag [] fnum (impl.wireTypes k)))%nat
    with (length (impl.Append k [] v)) by lia.
  split; [lia|]. split; [|split; [|split]].
  - apply ConsumeTag_AppendTag; [exact Hn | apply wireTypes_bounds].
  - apply (consume_Append k v p rest Hv).
  - apply (consumePtr_Append k v pp rest Hv).
  - apply (consume_Append k v p rest Hv).
Qed.

Lemma X4_sint32_sample :
  exists n0 : nat,
    (n0 <= length (impl.marshal (impl.coder impl.Sint32Kind) [] (-3)%Z
                     (wire.EncodeTag 6 (impl.wireTypes impl.Sint32Kind))))%nat /\
    wire.ConsumeTag
      (impl.marshal (impl.coder impl.Sint32Kind) [] (-3)%Z
         (wire.EncodeTag 6 (impl.wireTypes impl.Sint32Kind)) ++ [x08; x01])
    = wire.Parsed (6, impl.wireTypes impl.Sint32Kind) n0 /\
    impl.unmarshal (impl.coder impl.Sint32Kind)
      (drop n0 (impl.marshal (impl.coder impl.Sint32Kind) [] (-3)%Z
                  (wire.EncodeTag 6 (impl.wireTypes impl.Sint32Kind)) ++ [x08; x01]))
      7 (impl.wireTypes impl.Sint32Kind)
    = impl.Stored (-3)
        (length (impl.marshal (impl.coder impl.Sint32Kind) [] (-3)%Z
                   (wire.EncodeTag 6 (impl.wireTypes impl.Sint32Kind))) - n0) /\
    impl.consumePtr impl.Sint32Kind
      (drop n0 (impl.marshal (impl.coder impl.Sint32Kind) [] (-3)%Z
                  (wire.EncodeTag 6 (impl.wireTypes impl.Sint32Kind)) ++ [x08; x01]))
      None (impl.wireTypes impl.Sint32Kind)
    = impl.Stored (Some (-3))
        (length (impl.marshal (impl.coder impl.Sint32Kind) [] (-3)%Z
                   (wire.EncodeTag 6 (impl.wireTypes impl.Sint32Kind))) - n0) /\
    impl.iunmarshal (impl.coderIface impl.Sint32Kind)
      (drop n0 (impl.marshal (impl.coder impl.Sint32Kind) [] (-3)%Z
                  (wire.EncodeTag 6 (impl.wireTypes impl.Sint32Kind)) ++ [x08; x01]))
      7 (impl.wireTypes impl.Sint32Kind)
    = impl.Stored (-3)
        (length (impl.marshal (impl.coder impl.Sint32Kind) [] (-3)%Z
                   (wire.EncodeTag 6 (impl.wireTypes impl.Sint32Kind))) - n0).
Proof.
  assert (Hn : wire.MinValidNumber <= 6 <= wire.MaxValidNumber)
    by (unfold wire.MinValidNumber, wire.MaxValidNumber; lia).
  destruct (X4_a_record_is_read_back impl.Sint32Kind (-3) 7 None 6 [x08; x01] eq_refl Hn)
    as (_ & _ & H).
  exact H.
Defined.

(** ** What the consume functions read *)

Lemma Consume_bounds (k : impl.ProtoKind) (b : bytes) v (n : nat) :
  impl.Consume k b = wire.Parsed v n -> (1 <= n <= length b)%nat.
Proof.
  intros E. split; [exact (Consume_progress k b v n E)|]. revert E.
  assert (HV : forall b v n, wire.ConsumeVarint b = wire.Parsed v n -> (n <= length b)%nat).
  { intros b0 v0 n0 E. apply consumeVarintN_bounds in E. lia. }
  assert (HL : forall w b v n, wire.consumeLE w b = wire.Parsed v n -> (n <= length b)%nat).
  { intros w b0 v0 n0. unfold wire.consumeLE.
    destruct (length b0 <? w)%nat eqn:El; [discriminate|]. intros [= _ <-].
    apply Nat.ltb_ge in El. exact El. }
  assert (HB : forall b v n, wire.ConsumeBytes b = wire.Parsed v n -> (n <= length b)%nat).
  { intros b0 v0 n0. unfold wire.ConsumeBytes.
    destruct (wire.ConsumeVarint b0) as [m n1|c] eqn:E; [|discriminate].
    pose proof (consumeVarintN_range _ _ _ _ E) as Hm.
    apply HV in E. destruct (_ <? m) eqn:El; [discriminate|]. intros [= _ <-].
    apply Z.ltb_ge in El. rewrite length_drop in El. lia. }
  destruct k; cbn;
    unfold wire.ConsumeFixed32, wire.ConsumeFixed64, wire.ConsumeString;
    first [apply HV | apply HL | apply HB].
Qed.

(** The loop over a packed block adds to the slice, one element for at
    least one byte, and fails with a parse error only. *)
Lemma consumePacked_extends (k : impl.ProtoKind) (fuel : nat) (b : bytes)
  (s s' : list (impl.GoType k)) :
  impl.consumePacked k fuel b s = inl s' ->
  exists added, s' = s ++ added /\ (length added <= length b)%nat.
Proof.
  revert b s. induction fuel as [|fuel IH]; intros b s.
  - cbn. intros [= <-]. exists []. rewrite app_nil_r. split; [reflexivity | simpl; lia].
  - destruct b as [|y b]; [cbn; intros [= <-]; exists []; rewrite app_nil_r;
      split; [reflexivity | simpl; lia]|].
    cbn [impl.consumePacked].
    destruct (impl.Consume k (y :: b)) as [v n|c] eqn:E; [|discriminate].
    apply Consume_bounds in E. intros H. apply IH in H.
    destruct H as [added [-> Hl]]. exists (impl.ToGoType k v :: added).
    rewrite <- app_assoc. split; [reflexivity|].
    rewrite length_drop in Hl. simpl in *. lia.
Qed.

Lemma consumePacked_error (k : impl.ProtoKind) (fuel : nat) (b : bytes)
  (s : list (impl.GoType k)) (e : impl.error) :
  impl.consumePacked k fuel b s = inr e -> e <> impl.errUnknown.
Proof.
  revert b s. induction fuel as [|fuel IH]; intros b s; [discriminate|].
  destruct b as [|y b]; [discriminate|]. cbn [impl.consumePacked].
  destruct (impl.Consume k (y :: b)) as [v n|c]; [apply IH|].
  intros [= <-]. discriminate.
Qed.

(** X7.  The consume function of a repeated field only ever appends: when
    it succeeds, the elements the slice held are still there, in front and
    in order; a record of the kind's own wire type adds exactly one
    element, and a packed block adds no more elements than it has bytes.
    The function for a slice in an interface does the same. *)
Theorem X7_consume_slice_appends
  (k : impl.ProtoKind) (b : bytes) (p p' : list (impl.GoType k)) (wtyp : Z) (n : nat) :
  impl.unmarshal (impl.coderSlice k) b p wtyp = impl.Stored p' n ->
  impl.iunmarshal (impl.coderSliceIface k) b p wtyp = impl.Stored p' n /\
  exists added,
    p' = p ++ added /\
    (length added <= n)%nat /\
    (impl.Packable (impl.WireTypeOf k) && (wtyp =? wire.BytesType) = false ->
     length added = 1%nat).
Proof.
  cbn [impl.unmarshal impl.iunmarshal impl.coderSlice impl.coderSliceIface].
  intros H. split; [exact H|]. revert H. unfold impl.consumeSlice. cbv zeta.
  destruct (impl.Packable (impl.WireTypeOf k) && (wtyp =? wire.BytesType)).
  - destruct (wire.ConsumeBytes b) as [payload n1|c] eqn:Eb; [|discriminate].
    destruct (impl.consumePacked k (length payload) payload p) as [s|e] eqn:Ep;
      [|discriminate].
    intros [= <- <-]. apply consumePacked_extends in Ep.
    destruct Ep as [added [-> Hl]]. exists added.
    split; [reflexivity|]. split; [|discriminate].
    revert Eb. unfold wire.ConsumeBytes.
    destruct (wire.ConsumeVarint b) as [m n0|c]; [|discriminate].
    destruct (_ <? m) eqn:El; [discriminate|]. intros [= <- <-].
    apply Z.ltb_ge in El. rewrite length_take in Hl. lia.
  - destruct (negb (wtyp =? impl.Expr (impl.WireTypeOf k))); [discriminate|].
    destruct (impl.Consume k b) as [v n1|c] eqn:E; [|discriminate].
    intros [= <- <-]. exists [impl.ToGoType k v].
    apply Consume_progress in E. split; [reflexivity|]. split; [simpl; lia | reflexivity].
Qed.

Lemma X7_packed_block_sample :
  impl.iunmarshal (impl.coderSliceIface impl.Int32Kind) [x02; x05; x07; x63] [1; 2]
    wire.BytesType
  = impl.Stored [1; 2; 5; 7] 3 /\
  exists added,
    [1; 2; 5; 7] = [1; 2] ++ added /\
    (length added <= 3)%nat /\
    (impl.Packable (impl.WireTypeOf impl.Int32Kind) && (wire.BytesType =? wire.BytesType)
     = false -> length added = 1%nat).
Proof.
  apply (X7_consume_slice_appends impl.Int32Kind [x02; x05; x07; x63] [1; 2] [1; 2; 5; 7]
           wire.BytesType 3).
  vm_compute. reflexivity.
Defined.

(** X8.  A consume function that succeeds has read at least one byte and
    no more bytes than the buffer holds. *)
Theorem X8_consume_reads_within_the_buffer
  (k : impl.ProtoKind) (b : bytes) (wtyp : Z) (n : nat) :
  (forall p p', impl.unmarshal (impl.coder k) b p wtyp = impl.Stored p' n ->
                (1 <= n <= length b)%nat) /\
  (forall p p', impl.consumePtr k b p wtyp = impl.Stored p' n ->
                (1 <= n <= length b)%nat) /\
  (forall p p', impl.iunmarshal (impl.coderIface k) b p wtyp = impl.Stored p' n ->
                (1 <= n <= length b)%nat) /\
  (forall p p', impl.unmarshal (impl.coderSlice k) b p wtyp = impl.Stored p' n ->
                (1 <= n <= length b)%nat) /\
  (forall p p', impl.iunmarshal (impl.coderSliceIface k) b p wtyp = impl.Stored p' n ->
                (1 <= n <= length b)%nat).
Proof.
  cbn [impl.unmarshal impl.iunmarshal impl.coder impl.coderIface impl.coderSlice
       impl.coderSliceIface].
  assert (H1 : forall p p', impl.consume k b p wtyp = impl.Stored p' n ->
                            (1 <= n <= length b)%nat).
  { intros p p'. unfold impl.consume.
    destruct (negb (wtyp =? impl.Expr (impl.WireTypeOf k))); [discriminate|].
    destruct (impl.Consume k b) as [v n1|c] eqn:E; [|discriminate].
    intros [= _ <-]. exact (Consume_bounds k b v n1 E). }
  assert (H2 : forall p p', impl.consumeSlice k b p wtyp = impl.Stored p' n ->
                            (1 <= n <= length b)%nat).
  { intros p p'. unfold impl.consumeSlice. cbv zeta.
    destruct (impl.Packable (impl.WireTypeOf k) && (wtyp =? wire.BytesType)).
    - destruct (wire.ConsumeBytes b) as [payload n1|c] eqn:Eb; [|discriminate].
      destruct (impl.consumePacked k (length payload) payload p); [|discriminate].
      intros [= _ <-]. revert Eb. unfold wire.ConsumeBytes.
      destruct (wire.ConsumeVarint b) as [m n0|c] eqn:Ev; [|discriminate].
      pose proof (consumeVarintN_range _ _ _ _ Ev) as Hm.
      apply consumeVarintN_bounds in Ev.
      destruct (_ <? m) eqn:El; [discriminate|]. intros [= _ <-].
      apply Z.ltb_ge in El. rewrite length_drop in El. lia.
    - destruct (negb (wtyp =? impl.Expr (impl.WireTypeOf k))); [discriminate|].
      destruct (impl.Consume k b) as [v n1|c] eqn:E; [|discriminate].
      intros [= _ <-]. exact (Consume_bounds k b v n1 E). }
  split; [exact H1|]. split; [|split; [exact H1|split; [exact H2 | exact H2]]].
  intros p p'. unfold impl.consumePtr.
  destruct (negb (wtyp =? impl.Expr (impl.WireTypeOf k))); [discriminate|].
  destruct (impl.Consume k b) as [v n1|c] eqn:E; [|discriminate].
  intros [= _ <-]. exact (Consume_bounds k b v n1 E).
Qed.

Lemma X8_int32_sample :
  impl.unmarshal (impl.coder impl.Int32Kind) [x05; x08] 0 wire.VarintType
  = impl.Stored 5 1 /\
  (1 <= 1 <= length [x05; x08])%nat.
Proof.
  split; [reflexivity|].
  exact (proj1 (X8_consume_reads_within_the_buffer impl.Int32Kind [x05; x08]
                  wire.VarintType 1) 0 5 eq_refl).
Defined.

(** X9.  [errUnknown] is the answer to a wire type that is not the field's,
    and to nothing else: a consume function returns it exactly when the wire
    type differs from the kind's (and, for a slice of a packable kind, is
    not that of a packed block either).  Whatever the bytes are, a record of
    the right wire type is stored or is a parse error. *)
Theorem X9_errUnknown_means_wire_type_mismatch
  (k : impl.ProtoKind) (b : bytes) (wtyp : Z) :
  (forall p, impl.unmarshal (impl.coder k) b p wtyp = impl.Failure impl.errUnknown
             <-> wtyp <> impl.wireTypes k) /\
  (forall p, impl.consumePtr k b p wtyp = impl.Failure impl.errUnknown
             <-> wtyp <> impl.wireTypes k) /\
  (forall p, impl.iunmarshal (impl.coderIface k) b p wtyp = impl.Failure impl.errUnknown
             <-> wtyp <> impl.wireTypes k) /\
  (forall p, impl.unmarshal (impl.coderSlice k) b p wtyp = impl.Failure impl.errUnknown
             <-> wtyp <> impl.wireTypes k /\
                 (impl.Packable (impl.WireTypeOf k) = false \/ wtyp <> wire.BytesType)) /\
  (forall p, impl.iunmarshal (impl.coderSliceIface k) b p wtyp
             = impl.Failure impl.errUnknown
             <-> wtyp <> impl.wireTypes k /\
                 (impl.Packable (impl.WireTypeOf k) = false \/ wtyp <> wire.BytesType)).
Proof.
  cbn [impl.unmarshal impl.iunmarshal impl.coder impl.coderIface impl.coderSlice
       impl.coderSliceIface].
  assert (H1 : forall p, impl.consume k b p wtyp = impl.Failure impl.errUnknown
                         <-> wtyp <> impl.wireTypes k).
  { intros p. split; [|apply consume_mismatch].
    unfold impl.consume, impl.wireTypes.
    destruct (wtyp =? impl.Expr (impl.WireTypeOf k)) eqn:E; cbn [negb].
    - destruct (impl.Consume k b); discriminate.
    - intros _. now apply Z.eqb_neq. }
  assert (H2 : forall p, impl.consumeSlice k b p wtyp = impl.Failure impl.errUnknown
                         <-> wtyp <> impl.wireTypes k /\
                             (impl.Packable (impl.WireTypeOf k) = false \/
                              wtyp <> wire.BytesType)).
  { intros p. split; [|intros [Hw Hp]; apply (consumeSlice_mismatch k b p wtyp Hw Hp)].
    unfold impl.consumeSlice, impl.wireTypes. cbv zeta.
    destruct (impl.Packable (impl.WireTypeOf k) && (wtyp =? wire.BytesType)) eqn:Ep.
    - destruct (wire.ConsumeBytes b) as [payload n|c]; [|discriminate].
      destruct (impl.consumePacked k (length payload) payload p) as [s|e] eqn:Ec;
        [discriminate|].
      intros [= ->]. now apply consumePacked_error in Ec.
    - destruct (wtyp =? impl.Expr (impl.WireTypeOf k)) eqn:E; cbn [negb].
      + destruct (impl.Consume k b); discriminate.
      + intros _. split; [now apply Z.eqb_neq|].
        apply andb_false_iff in Ep. destruct Ep as [Ep|Ep]; [now left|].
        right. now apply Z.eqb_neq. }
  split; [exact H1|]. split; [|split; [exact H1 | split; [exact H2 | exact H2]]].
  intros p. split; [|apply consumePtr_mismatch].
  unfold impl.consumePtr, impl.wireTypes.
  destruct (wtyp =? impl.Expr (impl.WireTypeOf k)) eqn:E; cbn [negb].
  - destruct (impl.Consume k b); discriminate.
  - intros _. now apply Z.eqb_neq.
Qed.

Lemma packedSize_nonneg (k : impl.ProtoKind) (s : list (impl.GoType k)) :
  0 <= impl.packedSize k s.
Proof.
  unfold impl.packedSize. destruct (impl.ConstSize (impl.WireTypeOf k)).
  - destruct (impl.WireTypeOf k); unfold wire.SizeFixed32, wire.SizeFixed64; lia.
  - assert (H : forall a, 0 <= a -> 0 <= fold_left (fun n v => n + impl.Size k v) s a).
    { induction s as [|v s IH]; intros a Ha; [exact Ha|].
      cbn [fold_left]. apply IH. pose proof (Size_pos k v). lia. }
    apply H. lia.
Qed.

(** X10.  The packed coder writes nothing for an empty slice and something
    for every other, and its size is [0] for the empty slice only; so it
    never writes a block without elements.  The consume function accepts
    such a block nevertheless, and leaves the slice as it is. *)
Theorem X10_packed_coder_skips_the_empty_slice
  (k : impl.ProtoKind) (s p : list (impl.GoType k)) (b rest : bytes)
  (wiretag tagsize : Z) :
  impl.Packable (impl.WireTypeOf k) = true ->
  0 <= tagsize ->
  (impl.marshal (impl.coderPackedSlice k) b s wiretag = b <-> s = []) /\
  (impl.size (impl.coderPackedSlice k) s tagsize = 0 <-> s = []) /\
  impl.unmarshal (impl.coderPackedSlice k) (wire.AppendBytes [] [] ++ rest) p wire.BytesType
  = impl.Stored p 1.
Proof.
  intros Hp Ht.
  cbn [impl.marshal impl.size impl.unmarshal impl.coderPackedSlice].
  split; [|split].
  - unfold impl.appendPackedSlice. cbv zeta. destruct s as [|v s]; [tauto|].
    cbn [length Nat.eqb]. split; [|discriminate].
    rewrite fold_Append_flat, (AppendVarint_app (wire.AppendVarint b wiretag)),
      (AppendVarint_app b), <- !app_assoc.
    intros E. apply (f_equal (@length byte)) in E. rewrite !length_app in E.
    pose proof (appendVarintN_length_pos 9 wiretag) as Hl.
    unfold wire.AppendVarint in E. rewrite app_nil_l in E. lia.
  - unfold impl.sizePackedSlice. cbv zeta. destruct s as [|v s]; [tauto|].
    cbn [length Nat.eqb]. split; [|discriminate].
    pose proof (packedSize_nonneg k (v :: s)) as Hn.
    unfold wire.SizeBytes, wire.SizeVarint.
    pose proof (appendVarintN_length_pos 9 (impl.packedSize k (v :: s))) as Hl. lia.
  - unfold impl.consumeSlice. cbv zeta. rewrite Hp. cbn [andb].
    change (wire.BytesType =? wire.BytesType) with true. cbv iota.
    rewrite ConsumeBytes_AppendBytes by (simpl; lia). reflexivity.
Qed.

Lemma X10_packed_int64_sample :
  (impl.marshal (impl.coderPackedSlice impl.Int64Kind) [x08] [] 26 = [x08]
   <-> ([] : list (impl.GoType impl.Int64Kind)) = []) /\
  (impl.size (impl.coderPackedSlice impl.Int64Kind) [5] 1 = 0
   <-> ([5] : list (impl.GoType impl.Int64Kind)) = []) /\
  impl.unmarshal (impl.coderPackedSlice impl.Int64Kind) (wire.AppendBytes [] [] ++ [x08])
    [1; 2] wire.BytesType
  = impl.Stored [1; 2] 1.
Proof.
  split; [|split].
  - apply (X10_packed_coder_skips_the_empty_slice impl.Int64Kind [] [] [x08] [] 26 1
             eq_refl); lia.
  - apply (X10_packed_coder_skips_the_empty_slice impl.Int64Kind [5] [] [] [] 26 1
             eq_refl); lia.
  - apply (X10_packed_coder_skips_the_empty_slice impl.Int64Kind [] [1; 2] [] [x08] 26 1
             eq_refl); lia.
Defined.

(** X13.  The size function of a pointer field announces exactly the bytes
    its append function writes: whenever [append{{.Name}}Ptr] returns, and
    it does on every pointer that is not [nil], [size{{.Name}}Ptr] returns
    the number of bytes by which the buffer has grown, when [tagsize] is the
    size of the tag.  (The template emits the two for the kinds without
    [.NoPointer]; their bodies are the same for every kind.) *)
Theorem X13_pointer_size_is_the_number_of_bytes_appended
  (k : impl.ProtoKind) (p : option (impl.GoType k)) (b b' : bytes) (wiretag : Z) :
  impl.appendPtr k b p wiretag = impl.Returns b' ->
  impl.sizePtr k p (wire.SizeVarint wiretag)
  = impl.Returns (Z.of_nat (length b') - Z.of_nat (length b)).
Proof.
  unfold impl.appendPtr, impl.sizePtr. destruct p as [v|]; [|discriminate].
  cbv zeta. intros [= <-].
  change (impl.Append k (wire.AppendVarint b wiretag) v) with (impl.append k b v wiretag).
  rewrite append_length.
  destruct (impl.ConstSize (impl.WireTypeOf k)) eqn:Ec.
  - rewrite (Size_const k v Ec). f_equal. lia.
  - f_equal. lia.
Qed.

(** An optional [int32] that points to [300], under the tag of field 1. *)
Lemma X13_opt_int32_sample :
  impl.appendPtr impl.Int32Kind [] (Some 300) 8 = impl.Returns [x08; xac; x02] /\
  impl.sizePtr impl.Int32Kind (Some 300) (wire.SizeVarint 8) = impl.Returns (3 - 0).
Proof.
  split; [reflexivity|].
  apply (X13_pointer_size_is_the_number_of_bytes_appended impl.Int32Kind (Some 300) []
           [x08; xac; x02] 8).
  reflexivity.
Defined.

(** ** Packed blocks of a constant-size kind *)

Lemma Consume_fixed (k : impl.ProtoKind) (b : bytes) :
  impl.ConstSize (impl.WireTypeOf k) = true ->
  (1 <= fixedWidth k)%nat /\
  ((length b < fixedWidth k)%nat -> impl.Consume k b = wire.Failed wire.errCodeTruncated) /\
  ((fixedWidth k <= length b)%nat ->
   exists v, impl.Consume k b = wire.Parsed v (fixedWidth k)).
Proof.
  intros Hc.
  assert (HL : forall w, (length b < w)%nat ->
                         wire.consumeLE w b = wire.Failed wire.errCodeTruncated).
  { intros w Hw. unfold wire.consumeLE. apply Nat.ltb_lt in Hw. now rewrite Hw. }
  assert (HR : forall w, (w <= length b)%nat ->
                         exists v, wire.consumeLE w b = wire.Parsed v w).
  { intros w Hw. unfold wire.consumeLE. apply Nat.ltb_ge in Hw. rewrite Hw. eauto. }
  destruct k; cbn in Hc; try discriminate; cbn;
    unfold wire.ConsumeFixed32, wire.ConsumeFixed64;
    (split; [lia | split; [apply HL | apply HR]]).
Qed.

Lemma consumePacked_fixed (k : impl.ProtoKind) (q r : nat) :
  impl.ConstSize (impl.WireTypeOf k) = true ->
  (r < fixedWidth k)%nat ->
  forall (payload : bytes) (fuel : nat) (s : list (impl.GoType k)),
    length payload = (q * fixedWidth k + r)%nat ->
    (length payload <= fuel)%nat ->
    (r = 0%nat ->
     exists added, impl.consumePacked k fuel payload s = inl (s ++ added) /\
                   length added = q) /\
    (r <> 0%nat ->
     impl.consumePacked k fuel payload s
     = inr (impl.ParseError wire.errCodeTruncated)).
Proof.
  intros Hc Hr. induction q as [|q IH]; intros payload fuel s Hl Hf.
  - simpl in Hl. split.
    + intros ->. destruct payload; [|discriminate]. exists [].
      rewrite app_nil_r. destruct fuel; split; reflexivity.
    + intros Hr0. destruct payload as [|y payload]; [simpl in Hl; lia|].
      destruct fuel as [|fuel]; [simpl in Hf; lia|]. cbn [impl.consumePacked].
      destruct (Consume_fixed k (y :: payload) Hc) as (_ & Ht & _).
      rewrite Ht by lia. reflexivity.
  - destruct (Consume_fixed k payload Hc) as (Hw & _ & Hp).
    destruct Hp as [v Ev]; [simpl in Hl; lia|].
    destruct payload as [|y payload]; [simpl in Hl; lia|].
    destruct fuel as [|fuel]; [simpl in Hf; lia|]. cbn [impl.consumePacked].
    rewrite Ev.
    destruct (IH (drop (fixedWidth k) (y :: payload)) fuel (s ++ [impl.ToGoType k v]))
      as [Hok Hbad].
    + rewrite length_drop, Hl. simpl. lia.
    + rewrite length_drop. simpl in Hf |- *. lia.
    + split.
      * intros Hr0. destruct (Hok Hr0) as [added [E El]].
        exists (impl.ToGoType k v :: added). rewrite E, <- app_assoc.
        split; [reflexivity | simpl; lia].
      * intros Hr0. exact (Hbad Hr0).
Qed.

(** X12.  A packed block of a kind of constant size (fixed32, fixed64 and
    their signed and floating-point kin) is accepted exactly when its
    payload is a whole number of values: then the slice grows by the length
    of the payload divided by the width, and otherwise the block is a parse
    error (truncated), and not an unknown field. *)
Theorem X12_packed_block_of_constant_size_values
  (k : impl.ProtoKind) (payload rest : bytes) (p : list (impl.GoType k)) :
  impl.ConstSize (impl.WireTypeOf k) = true ->
  Z.of_nat (length payload) < 2 ^ 64 ->
  let r := impl.unmarshal (impl.coderSlice k) (wire.AppendBytes [] payload ++ rest) p
             wire.BytesType in
  (Nat.modulo (length payload) (fixedWidth k) = 0%nat ->
   exists added,
     r = impl.Stored (p ++ added) (length (wire.AppendBytes [] payload)) /\
     length added = Nat.div (length payload) (fixedWidth k)) /\
  (Nat.modulo (length payload) (fixedWidth k) <> 0%nat ->
   r = impl.Failure (impl.ParseError wire.errCodeTruncated)).
Proof.
  intros Hc Hn r. subst r. cbn [impl.unmarshal impl.coderSlice].
  destruct (Consume_fixed k [] Hc) as (Hw & _ & _).
  assert (Hp : impl.Packable (impl.WireTypeOf k) = true)
    by (destruct k; cbn in Hc |- *; try discriminate; reflexivity).
  unfold impl.consumeSlice. cbv zeta. rewrite Hp. cbn [andb].
  change (wire.BytesType =? wire.BytesType) with true. cbv iota.
  rewrite (ConsumeBytes_AppendBytes payload rest Hn).
  pose proof (Nat.div_mod_eq (length payload) (fixedWidth k)) as Hdm.
  destruct (consumePacked_fixed k (Nat.div (length payload) (fixedWidth k))
              (Nat.modulo (length payload) (fixedWidth k)) Hc
              ltac:(apply Nat.mod_upper_bound; lia)
              payload (length payload) p ltac:(lia) ltac:(lia)) as [Hok Hbad].
  split.
  - intros Hr0. destruct (Hok Hr0) as [added [E El]]. exists added.
    rewrite E. split; [reflexivity | exact El].
  - intros Hr0. rewrite (Hbad Hr0). reflexivity.
Qed.

Lemma X12_fixed32_sample :
  (exists added,
     impl.unmarshal (impl.coderSlice impl.Fixed32Kind)
       (wire.AppendBytes [] [x01; x00; x00; x00; x02; x00; x00; x00] ++ [x08]) [7]
       wire.BytesType
     = impl.Stored ([7] ++ added)
         (length (wire.AppendBytes [] [x01; x00; x00; x00; x02; x00; x00; x00])) /\
     length added = Nat.div 8 (fixedWidth impl.Fixed32Kind)) /\
  impl.unmarshal (impl.coderSlice impl.Fixed32Kind)
    (wire.AppendBytes [] [x01; x00; x00; x00; x02; x00] ++ [x08]) [7] wire.BytesType
  = impl.Failure (impl.ParseError wire.errCodeTruncated).
Proof.
  split.
  - apply (X12_packed_block_of_constant_size_values impl.Fixed32Kind
             [x01; x00; x00; x00; x02; x00; x00; x00] [x08] [7] eq_refl).
    + vm_compute. reflexivity.
    + reflexivity.
  - apply (X12_packed_block_of_constant_size_values impl.Fixed32Kind
             [x01; x00; x00; x00; x02; x00] [x08] [7] eq_refl).
    + vm_compute. reflexivity.
    + vm_compute. discriminate.
Defined.

(** ** Records of a singular field in the loop *)

Section SingularFacts.

Context {M : Type} (mi : impl.MessageInfo M) (k : impl.ProtoKind).
Context (get : M -> impl.GoType k) (set : impl.GoType k -> M -> M).
Context (f : impl.coderFieldInfo M) (fnum : Z).

Hypothesis Hnum : wire.MinValidNumber <= fnum <= wire.MaxValidNumber.
Hypothesis Hfield : impl.fieldByNumber (impl.coderFields mi) fnum = Some f.
Hypothesis Hcoder : impl.funcs_unmarshal f = impl.atOffset get set (impl.consume k).

Lemma unmarshal_singular_record (v : impl.GoType k) (rest : bytes) (m : M) :
  impl.inRange k v = true ->
  impl.unmarshalPointer mi
    (impl.append k [] v (wire.EncodeTag fnum (impl.wireTypes k)) ++ rest) m
  = impl.unmarshalPointer mi rest (set v m).
Proof.
  intros Hv. unfold impl.append. cbv zeta. rewrite Append_app, <- app_assoc.
  change (wire.AppendVarint [] (wire.EncodeTag fnum (impl.wireTypes k)))
    with (wire.AppendTag [] fnum (impl.wireTypes k)).
  rewrite (unmarshalPointer_step mi _ m fnum (impl.wireTypes k) _
             (ConsumeTag_AppendTag fnum _ _ Hnum (wireTypes_bounds k))).
  rewrite drop_app_length, Hfield, Hcoder. unfold impl.atOffset.
  rewrite (consume_Append k v (get m) rest Hv), drop_app_length. reflexivity.
Qed.

Lemma unmarshal_singular_records (s : list (impl.GoType k)) (rest : bytes) (m : M) :
  Forall (fun v => impl.inRange k v = true) s ->
  impl.unmarshalPointer mi
    (impl.appendSlice k [] s (wire.EncodeTag fnum (impl.wireTypes k)) ++ rest) m
  = impl.unmarshalPointer mi rest (fold_left (fun m v => set v m) s m).
Proof.
  intros Hs. rewrite appendSlice_flat, app_nil_l. revert m.
  induction Hs as [|v s Hv Hs IH]; intros m; [reflexivity|].
  cbn [map concat fold_left]. rewrite <- !app_assoc.
  pose proof (unmarshal_singular_record v
                (concat (map (fun v0 => wire.AppendVarint []
                                          (wire.EncodeTag fnum (impl.wireTypes k))
                                        ++ impl.Append k [] v0) s) ++ rest) m Hv) as H.
  unfold impl.append in H. cbv zeta in H. rewrite Append_app, <- app_assoc in H.
  rewrite H. apply IH.
Qed.

End SingularFacts.

Lemma fold_set_last {M A : Type} (set : A -> M -> M) (s : list A) (m : M) :
  (forall p q m, set p (set q m) = set p m) ->
  fold_left (fun m v => set v m) s m
  = match last s with
    | Some v => set v m
    | None => m
    end.
Proof.
  intros Hss. revert m. induction s as [|v s IH]; intros m; [reflexivity|].
  cbn [fold_left]. rewrite IH. destruct s as [|v' s]; [reflexivity|].
  rewrite last_cons_cons. destruct (last (v' :: s)) eqn:E; [apply Hss|].
  apply last_None in E. discriminate.
Qed.

(** X6.  Records of a singular field, read by the dispatch loop one after
    the other (the loop is modelled from section 4.4 of the specification):
    each overwrites the field, so the last one wins.  The records are those
    the expanded slice coder writes for a sequence of values, so that a
    repeated field read as a singular one holds the last element. *)
Theorem X6_last_record_of_a_singular_field_wins
  (k : impl.ProtoKind) (M : Type) (mi : impl.MessageInfo M)
  (get : M -> impl.GoType k) (set : impl.GoType k -> M -> M)
  (f : impl.coderFieldInfo M) (fnum : Z)
  (s : list (impl.GoType k)) (rest : bytes) (m : M) :
  wire.MinValidNumber <= fnum <= wire.MaxValidNumber ->
  impl.fieldByNumber (impl.coderFields mi) fnum = Some f ->
  impl.funcs_unmarshal f = impl.atOffset get set (impl.unmarshal (impl.coder k)) ->
  (forall p q m, set p (set q m) = set p m) ->
  Forall (fun v => impl.inRange k v = true) s ->
  impl.unmarshalPointer mi
    (impl.marshal (impl.coderSlice k) [] s (wire.EncodeTag fnum (impl.wireTypes k)) ++ rest)
    m
  = impl.unmarshalPointer mi rest
      match last s with
      | Some v => set v m
      | None => m
      end.
Proof.
  intros Hn Hf Hc Hss Hs. cbn [impl.marshal impl.coderSlice].
  rewrite (unmarshal_singular_records mi k get set f fnum Hn Hf Hc s rest m Hs).
  now rewrite fold_set_last.
Qed.

Lemma X6_s_float_sample :
  impl.unmarshalPointer sampleInfo
    (impl.marshal (impl.coderSlice impl.FloatKind) [] [1; 2 ^ 31; 3]
       (wire.EncodeTag 4 (impl.wireTypes impl.FloatKind)) ++ [])
    emptySample
  = impl.unmarshalPointer sampleInfo []
      match last [1; 2 ^ 31; 3] with
      | Some v => set_s_float v emptySample
      | None => emptySample
      end.
Proof.
  assert (Hn : wire.MinValidNumber <= 4 <= wire.MaxValidNumber)
    by (unfold wire.MinValidNumber, wire.MaxValidNumber; lia).
  apply (X6_last_record_of_a_singular_field_wins impl.FloatKind Sample sampleInfo
           s_float set_s_float
           {| impl.num := 4;
              impl.funcs_unmarshal :=
                impl.atOffset s_float set_s_float
                  (impl.unmarshal (impl.coderNoZero impl.FloatKind)) |}
           4 [1; 2 ^ 31; 3] [] emptySample Hn eq_refl eq_refl).
  - intros p q m. reflexivity.
  - repeat constructor.
Defined.

(** X5.  A field without presence comes back from the wire: what the coder
    that skips the zero value writes for a value, read by the dispatch loop
    (modelled from section 4.4 of the specification) into a message whose
    field is at its zero, leaves the field at that value; for the zero value
    nothing was written and nothing is read. *)
Theorem X5_field_without_presence_is_read_back
  (k : impl.ProtoKind) (M : Type) (mi : impl.MessageInfo M)
  (get : M -> impl.GoType k) (set : impl.GoType k -> M -> M)
  (f : impl.coderFieldInfo M) (fnum : Z)
  (v : impl.GoType k) (rest : bytes) (m : M) :
  wire.MinValidNumber <= fnum <= wire.MaxValidNumber ->
  impl.fieldByNumber (impl.coderFields mi) fnum = Some f ->
  impl.funcs_unmarshal f = impl.atOffset get set (impl.unmarshal (impl.coderNoZero k)) ->
  (forall m, set (get m) m = m) ->
  impl.inRange k v = true ->
  get m = impl.Zero k ->
  impl.unmarshalPointer mi
    (impl.marshal (impl.coderNoZero k) [] v (wire.EncodeTag fnum (impl.wireTypes k))
     ++ rest) m
  = impl.unmarshalPointer mi rest (set v m).
Proof.
  intros Hn Hf Hc Hsg Hv Hz. cbn [impl.marshal impl.coderNoZero].
  unfold impl.appendNoZero. cbv zeta.
  destruct (impl.IsZero k v) eqn:E.
  - apply (IsZero_iff k v Hv) in E. subst v. rewrite <- Hz, Hsg. reflexivity.
  - apply (unmarshal_singular_record mi k get set f fnum Hn Hf Hc v rest m Hv).
Qed.

Lemma X5_s_float_sample :
  impl.unmarshalPointer sampleInfo
    (impl.marshal (impl.coderNoZero impl.FloatKind) [] negZero32
       (wire.EncodeTag 4 (impl.wireTypes impl.FloatKind)) ++ [x08; x07]) emptySample
  = impl.unmarshalPointer sampleInfo [x08; x07] (set_s_float negZero32 emptySample).
Proof.
  assert (Hn : wire.MinValidNumber <= 4 <= wire.MaxValidNumber)
    by (unfold wire.MinValidNumber, wire.MaxValidNumber; lia).
  apply (X5_field_without_presence_is_read_back impl.FloatKind Sample sampleInfo
           s_float set_s_float
           {| impl.num := 4;
              impl.funcs_unmarshal :=
                impl.atOffset s_float set_s_float
                  (impl.unmarshal (impl.coderNoZero impl.FloatKind)) |}
           4 negZero32 [x08; x07] emptySample Hn eq_refl eq_refl).
  - intros []. reflexivity.
  - reflexivity.
  - reflexivity.
Defined.

(** ** Streams that mix packed blocks and expanded records *)

Lemma chunkOK_spec (k : impl.ProtoKind) (c : bool * list (impl.GoType k)) :
  chunkOK k c = true ->
  Forall (fun v => impl.inRange k v = true) (snd c) /\ impl.packedSize k (snd c) < 2 ^ 63.
Proof.
  unfold chunkOK. rewrite andb_true_iff, Z.ltb_lt, forallb_forall, List.Forall_forall.
  tauto.
Qed.

(** X11.  A repeated field of a packable kind may arrive in any mix of
    packed blocks and expanded records: the dispatch loop (modelled from
    section 4.4 of the specification), whichever of the two slice coders
    the field is bound to, appends the elements of the runs in the order of
    the stream. *)
Theorem X11_packed_and_expanded_runs_mix
  (k : impl.ProtoKind) (M : Type) (mi : impl.MessageInfo M)
  (get : M -> list (impl.GoType k)) (set : list (impl.GoType k) -> M -> M)
  (f : impl.coderFieldInfo M) (fnum : Z)
  (chunks : list (bool * list (impl.GoType k))) (rest : bytes) (m : M) :
  impl.Packable (impl.WireTypeOf k) = true ->
  wire.MinValidNumber <= fnum <= wire.MaxValidNumber ->
  impl.fieldByNumber (impl.coderFields mi) fnum = Some f ->
  impl.funcs_unmarshal f = impl.atOffset get set (impl.unmarshal (impl.coderSlice k)) \/
  impl.funcs_unmarshal f = impl.atOffset get set (impl.unmarshal (impl.coderPackedSlice k)) ->
  (forall p m, get (set p m) = p) ->
  (forall p q m, set p (set q m) = set p m) ->
  (forall m, set (get m) m = m) ->
  Forall (fun c => chunkOK k c = true) chunks ->
  impl.unmarshalPointer mi (concat (map (chunkBytes k fnum) chunks) ++ rest) m
  = impl.unmarshalPointer mi rest (set (get m ++ concat (map snd chunks)) m).
Proof.
  intros Hp Hn Hf Hc Hgs Hss Hsg Hcs.
  assert (Hc' : impl.funcs_unmarshal f = impl.atOffset get set (impl.consumeSlice k))
    by (destruct Hc as [Hc|Hc]; exact Hc).
  clear Hc. revert m. induction Hcs as [|[packed s] chunks Hok Hcs IH]; intros m.
  - cbn. now rewrite app_nil_r, Hsg.
  - apply chunkOK_spec in Hok. destruct Hok as [Hs Hsz]. cbn [snd] in Hs, Hsz.
    cbn [map concat snd]. rewrite <- app_assoc.
    unfold chunkBytes at 1. cbn [fst snd impl.marshal impl.coderSlice impl.coderPackedSlice].
    destruct packed.
    + rewrite (unmarshal_packed_record mi k get set f fnum Hp Hn Hf Hc' Hsg s _ m Hs Hsz).
      rewrite IH, Hgs, Hss, <- app_assoc. reflexivity.
    + rewrite appendSlice_flat, app_nil_l.
      rewrite (unmarshal_expanded_records mi k get set f fnum Hp Hn Hf Hc' Hgs Hss Hsg
                 s _ m Hs).
      rewrite IH, Hgs, Hss, <- app_assoc. reflexivity.
Qed.

Lemma X11_rpt_bool_sample :
  impl.unmarshalPointer sampleInfo
    (concat (map (chunkBytes impl.BoolKind 3)
               [(true, [true; false]); (false, [true]); (true, []); (true, [false])])
     ++ []) emptySample
  = impl.unmarshalPointer sampleInfo []
      (set_rpt_bool
         (rpt_bool emptySample
          ++ concat (map snd [(true, [true; false]); (false, [true]); (true, []);
                              (true, [false])]))
         emptySample).
Proof.
  assert (Hn : wire.MinValidNumber <= 3 <= wire.MaxValidNumber)
    by (unfold wire.MinValidNumber, wire.MaxValidNumber; lia).
  apply (X11_packed_and_expanded_runs_mix impl.BoolKind Sample sampleInfo
           rpt_bool set_rpt_bool
           {| impl.num := 3;
              impl.funcs_unmarshal :=
                impl.atOffset rpt_bool set_rpt_bool
                  (impl.unmarshal (impl.coderPackedSlice impl.BoolKind)) |}
           3 _ [] emptySample eq_refl Hn eq_refl (or_intror eq_refl)).
  - intros p m. reflexivity.
  - intros p q m. reflexivity.
  - intros []. reflexivity.
  - repeat constructor.
Defined.

(** ** The accessors of [structpb.Value] *)

(** X14.  The accessors of the oneof of a [structpb.Value] are exclusive
    and safe on [nil]: of the six, at most one returns something other than
    its zero value; on a [nil] receiver and on a value whose oneof is unset
    all six return their zero values; and an accessor panics only when the
    oneof holds a [nil] pointer of that accessor's wrapper type. *)
Theorem X14_value_accessors_are_exclusive (x : option structpb.Value) :
  (length (filter (fun b : bool => b) (departures x)) <= 1)%nat /\
  (structpb.GetKind x = None -> departures x = [false; false; false; false; false; false]) /\
  (structpb.GetNullValue x = impl.Panics
   <-> structpb.GetKind x = Some (structpb.Value_NullValue None)) /\
  (structpb.GetNumberValue x = impl.Panics
   <-> structpb.GetKind x = Some (structpb.Value_NumberValue None)) /\
  (structpb.GetStringValue x = impl.Panics
   <-> structpb.GetKind x = Some (structpb.Value_StringValue None)) /\
  (structpb.GetBoolValue x = impl.Panics
   <-> structpb.GetKind x = Some (structpb.Value_BoolValue None)) /\
  (structpb.GetStructValue x = impl.Panics
   <-> structpb.GetKind x = Some (structpb.Value_StructValue None)) /\
  (structpb.GetListValue x = impl.Panics
   <-> structpb.GetKind x = Some (structpb.Value_ListValue None)).
Proof.
  unfold departures, structpb.GetNullValue, structpb.GetNumberValue,
    structpb.GetStringValue, structpb.GetBoolValue, structpb.GetStructValue,
    structpb.GetListValue.
  split; [|split].
  - destruct (structpb.GetKind x) as [[[v|]|[v|]|[v|]|[v|]|[v|]|[v|]]|];
      cbn [departs isNone negb filter length];
      try (simpl; lia).
    + destruct (structpb.NullValue_NULL_VALUE =? v); simpl; lia.
    + destruct (0 =? v); simpl; lia.
    + destruct (String.eqb EmptyString v); simpl; lia.
    + destruct v; simpl; lia.
    + destruct v; simpl; lia.
    + destruct v; simpl; lia.
  - intros ->. reflexivity.
  - destruct (structpb.GetKind x) as [[[v|]|[v|]|[v|]|[v|]|[v|]|[v|]]|];
      repeat split; intros; try discriminate; try reflexivity.
Qed.

Lemma X14_nil_value_sample :
  structpb.GetKind None = None /\
  departures None = [false; false; false; false; false; false].
Proof.
  split; [reflexivity|].
  apply (X14_value_accessors_are_exclusive None). reflexivity.
Defined.

(** ** Decoding through a pointer *)

(** X15.  [consume{{.Name}}Ptr] on memory.  A field that points to a cell
    keeps its pointer and the value is written to that cell, so that every
    other pointer to the cell sees it; a [nil] field is given a cell that
    was not in use; no other cell changes.  What the field points to
    afterwards is what the function stores when the field is modelled by
    the value it points to, and the two fail alike. *)
Theorem X15_consume_through_a_pointer
  (k : impl.ProtoKind) (b : bytes) (h : impl.cells k) (vp : option positive) (wtyp : Z) :
  impl.consumePtr k b (impl.pointee h vp) wtyp
  = match impl.consumePtrAt k b h vp wtyp with
    | impl.Stored (h', vp') n => impl.Stored (impl.pointee h' vp') n
    | impl.Failure e => impl.Failure e
    end /\
  forall h' vp' n,
    impl.consumePtrAt k b h vp wtyp = impl.Stored (h', vp') n ->
    exists a,
      vp' = Some a /\
      (forall a0, vp = Some a0 -> a = a0) /\
      (vp = None -> h !! a = None) /\
      (forall a', a' <> a -> h' !! a' = h !! a').
Proof.
  unfold impl.consumePtr, impl.consumePtrAt.
  destruct (negb (wtyp =? impl.Expr (impl.WireTypeOf k)));
    [split; [reflexivity | discriminate]|].
  destruct (impl.Consume k b) as [v n|c]; [|split; [reflexivity | discriminate]].
  destruct vp as [a0|]; cbv zeta beta iota.
  - split.
    + cbn [impl.pointee]. now rewrite lookup_insert_eq.
    + intros h' vp' n' [= <- <- <-]. exists a0. split; [reflexivity|]. split; [|split].
      * now intros ? [= ->].
      * discriminate.
      * intros a' Hne. now rewrite lookup_insert_ne.
  - split.
    + cbn [impl.pointee]. now rewrite lookup_insert_eq.
    + intros h' vp' n' [= <- <- <-]. exists (fresh (dom h)).
      split; [reflexivity|]. split; [discriminate|]. split.
      * intros _. apply not_elem_of_dom, is_fresh.
      * intros a' Hne. now rewrite !lookup_insert_ne.
Qed.

(** An optional [int32] whose cell holds [7] reads [300]: the cell holds
    [300] and the field still points to it. *)
Lemma X15_opt_int32_sample :
  impl.consumePtrAt impl.Int32Kind [xac; x02] {[ 1%positive := 7 ]} (Some 1%positive)
    wire.VarintType
  = impl.Stored (<[ 1%positive := 300 ]> {[ 1%positive := 7 ]}, Some 1%positive) 2 /\
  exists a,
    Some 1%positive = Some a /\
    (forall a0, Some 1%positive = Some a0 -> a = a0) /\
    (Some 1%positive = None
     -> ({[ 1%positive := 7 ]} : impl.cells impl.Int32Kind) !! a = None) /\
    (forall a', a' <> a ->
       (<[ 1%positive := 300 ]> {[ 1%positive := 7 ]} : impl.cells impl.Int32Kind) !! a'
       = ({[ 1%positive := 7 ]} : impl.cells impl.Int32Kind) !! a').
Proof.
  split; [vm_compute; reflexivity|].
  apply (proj2 (X15_consume_through_a_pointer impl.Int32Kind [xac; x02]
                  {[ 1%positive := 7 ]} (Some 1%positive) wire.VarintType)
           (<[ 1%positive := 300 ]> {[ 1%positive := 7 ]}) (Some 1%positive) 2%nat).
  vm_compute. reflexivity.
Defined.
